(** * The [zone] package of ozym/place: device inventory kept in DNS

    A shallow embedding of the Go package: the [Device] value and its
    predicates, the RFC 1876 location codec, the inventory builder
    [Service.List], the record projection and the differential update
    [Service.Update], with the properties of the package's description
    proved (or refuted) on it.

    Conventions.
    - Go [string] is [string] (a sequence of 8-bit [ascii]); a Go byte is
      [byte]; [uint32] and [uint8] are [Z] with the wrap-around written out;
      [float64] is the kernel's binary64 [float].
    - [net.IP] is a byte slice: [list byte], [nil] being the empty list.
    - a Go [map[string]T] is a [gmap string T] (a nil map is the empty map);
      [for k, v := range m] runs over the entries in an order the language
      leaves open, which is a parameter here.
    - the network (zone transfers, signed dynamic updates) is a parameter:
      an oracle on an explicit world state; the update requests a call
      attempts are recorded in the state.
    - a method that talks to the network is a computation in the monad [M]
      of that state with errors: [inl err] is a returned error, [inr v] a
      result with a nil error.
    - [fmt.Printf] diagnostics are not modelled. *)

From Stdlib Require Import ZArith NArith String Ascii List Floats Uint63 DecimalString.
From Stdlib Require Import OrderedTypeEx Lia.
From Stdlib.Strings Require Import Byte.
From stdpp Require Import gmap strings list fin_maps sorting.

Open Scope Z_scope.
Set Warnings "-inexact-float".

(** ** Go's [strings] package (the functions the code calls) *)

Module strings.

(** [strings.HasPrefix(s, prefix)]. *)
Definition HasPrefix (s prefix : string) : bool := String.prefix prefix s.

(** [strings.Join(a, sep)]. *)
Fixpoint Join (a : list string) (sep : string) : string :=
  match a with
  | [] => ""
  | [x] => x
  | x :: rest => x +:+ sep +:+ Join rest sep
  end.

(** Scanning loop of [strings.Split] for a non-empty separator: [skip]
    counts the bytes of a separator just matched that are still to be
    passed over, [cur] is the piece being read. *)
Fixpoint split_scan (sep : string) (skip : nat) (cur s : string) {struct s}
  : list string :=
  match s with
  | EmptyString => [cur]
  | String c s' =>
      match skip with
      | S k => split_scan sep k cur s'
      | O =>
          if String.prefix sep s
          then cur :: split_scan sep (String.length sep - 1) "" s'
          else split_scan sep 0 (cur +:+ String c "") s'
      end
  end.

(** [strings.Split(s, sep)]; with an empty separator the string is cut
    after each byte (Go cuts after each UTF-8 sequence). *)
Definition Split (s sep : string) : list string :=
  match sep with
  | EmptyString => (fun c => String c "") <$> list_ascii_of_string s
  | _ => split_scan sep 0 "" s
  end.

(** [strings.Replace(s, old, new, -1)]: every non-overlapping occurrence
    of [old], left to right. An empty [old] matches before each byte and at
    the end. *)
Definition Replace (s old new : string) : string :=
  match old with
  | EmptyString =>
      new +:+ fold_right (fun c r => String c new +:+ r) "" (list_ascii_of_string s)
  | _ => Join (split_scan old 0 "" s) new
  end.

(** Upper-case ASCII letters folded to lower case. *)
Definition lower (c : ascii) : ascii :=
  let n := N_of_ascii c in
  if ((65 <=? n) && (n <=? 90))%N then ascii_of_N (n + 32) else c.

(** [strings.EqualFold(s, t)] on ASCII text: equality up to the case of
    the letters A-Z. Bytes outside ASCII are compared as they are; Go's
    Unicode simple folding of non-ASCII letters is not modelled. *)
Fixpoint EqualFold (s t : string) : bool :=
  match s, t with
  | EmptyString, EmptyString => true
  | String a s', String b t' => Ascii.eqb (lower a) (lower b) && EqualFold s' t'
  | _, _ => false
  end.

End strings.

(** ** Go's [sort.Strings]: ascending order of the byte-wise comparison *)

Definition string_le (a b : string) : Prop := String.leb a b = true.

#[global] Instance string_le_dec (a b : string) : Decision (string_le a b).
Proof. unfold string_le. apply _. Defined.

Module sort.

(** Any sorting algorithm returns the same list for a total order that
    is antisymmetric; a merge sort stands for the library's. *)
Definition Strings (keys : list string) : list string :=
  merge_sort string_le keys.

End sort.

(** ** Go's [net] package: addresses *)

Module net.

(** [net.IP]: a slice of bytes, 4 long for IPv4 and 16 long for IPv6. *)
Definition IP : Type := list byte.

Definition IPv4len : nat := 4.
Definition IPv6len : nat := 16.

Definition v4InV6Prefix : list byte :=
  [x00; x00; x00; x00; x00; x00; x00; x00; x00; x00; xff; xff].

(** [net.IPv4(a, b, c, d)]: the 16-byte form of an IPv4 address. *)
Definition IPv4 (a b c d : byte) : IP := v4InV6Prefix ++ [a; b; c; d].

(** Equality of byte slices ([bytealg.Equal]). *)
Fixpoint bytes_eqb (x y : list byte) : bool :=
  match x, y with
  | [], [] => true
  | a :: x', b :: y' => Byte.eqb a b && bytes_eqb x' y'
  | _, _ => false
  end.

(** [ip.To4()]: the 4-byte form, or [None] (Go's nil) when [ip] is not an
    IPv4 address. *)
Definition To4 (ip : IP) : option IP :=
  if Nat.eqb (length ip) IPv4len then Some ip
  else if Nat.eqb (length ip) IPv6len && bytes_eqb (take 12 ip) v4InV6Prefix
       then Some (drop 12 ip)
       else None.

(** [ip.Equal(x)]: an IPv4 address and its 16-byte form are equal. *)
Definition Equal (ip x : IP) : bool :=
  if Nat.eqb (length ip) (length x) then bytes_eqb ip x
  else if Nat.eqb (length ip) IPv4len && Nat.eqb (length x) IPv6len
       then bytes_eqb (take 12 x) v4InV6Prefix && bytes_eqb ip (drop 12 x)
  else if Nat.eqb (length ip) IPv6len && Nat.eqb (length x) IPv4len
       then bytes_eqb (take 12 ip) v4InV6Prefix && bytes_eqb (drop 12 ip) x
  else false.

(** Decimal text of an unsigned number ([uitoa]). *)
Definition uitoa (n : N) : string := NilEmpty.string_of_uint (N.to_uint n).

Definition hexDigit : string := "0123456789abcdef".

Definition hex_at (v : N) : ascii :=
  default "0"%char (String.get (N.to_nat (N.land v 15)) hexDigit).

(** [hexString(b)]: two digits per byte. *)
Fixpoint hexString (b : list byte) : string :=
  match b with
  | [] => ""
  | tn :: rest =>
      String (hex_at (N.shiftr (Byte.to_N tn) 4))
        (String (hex_at (Byte.to_N tn)) (hexString rest))
  end.

(** [appendHex(dst, i)] for a 16-bit group: no leading zeros; the loop
    runs over the nibbles [j = 7 .. 0]. *)
Definition appendHex (dst : string) (i : N) : string :=
  if (i =? 0)%N then dst +:+ "0"
  else fold_left
         (fun dst j =>
            let v := N.shiftr i (j * 4) in
            if (0 <? v)%N then dst +:+ String (hex_at v) "" else dst)
         [7; 6; 5; 4; 3; 2; 1; 0]%N dst.

Definition byte_at (p : IP) (i : Z) : N := Byte.to_N (nth (Z.to_nat i) p x00).

(** Inner loop of the zero-run search: the end of the run of zero groups
    that starts at byte [j]. *)
Fixpoint zeros_end (fuel : nat) (p : IP) (j : Z) : Z :=
  match fuel with
  | O => j
  | S f =>
      if (j <? 16) && (byte_at p j =? 0)%N && (byte_at p (j + 1) =? 0)%N
      then zeros_end f p (j + 2)
      else j
  end.

(** Outer loop: the longest run of zero groups, as byte offsets
    [(e0, e1)], the first of the longest ones. *)
Fixpoint longest_zeros (fuel : nat) (p : IP) (i e0 e1 : Z) : Z * Z :=
  match fuel with
  | O => (e0, e1)
  | S f =>
      if i <? 16 then
        let j := zeros_end 8 p i in
        if (i <? j) && (e1 - e0 <? j - i)
        then longest_zeros f p (j + 2) i j
        else longest_zeros f p (i + 2) e0 e1
      else (e0, e1)
  end.

(** Printing loop of the IPv6 text form, with [::] in place of the run
    [(e0, e1)]. *)
Fixpoint print_groups (fuel : nat) (p : IP) (e0 e1 : Z) (i : Z) (b : string)
  : string :=
  match fuel with
  | O => b
  | S f =>
      if i <? 16 then
        if i =? e0 then
          let b := b +:+ "::" in
          if 16 <=? e1 then b
          else print_groups f p e0 e1 (e1 + 2)
                 (appendHex b (N.lor (N.shiftl (byte_at p e1) 8) (byte_at p (e1 + 1))))
        else
          let b := if 0 <? i then b +:+ ":" else b in
          print_groups f p e0 e1 (i + 2)
            (appendHex b (N.lor (N.shiftl (byte_at p i) 8) (byte_at p (i + 1))))
      else b
  end.

Definition string6 (p : IP) : string :=
  let '(e0, e1) := longest_zeros 8 p 0 (-1) (-1) in
  (* "::" is not used to shorten a single group *)
  let '(e0, e1) := if e1 - e0 <=? 2 then (-1, -1) else (e0, e1) in
  print_groups 8 p e0 e1 0 "".

(** [ip.String()]: dotted decimal for IPv4 (in either form), the RFC 5952
    text for IPv6, ["<nil>"] for an empty slice and ["?"] followed by the
    bytes in hexadecimal for any other length. *)
Definition String (ip : IP) : string :=
  match ip with
  | [] => "<nil>"
  | _ =>
      match To4 ip with
      | Some [a; b; c; d] =>
          uitoa (Byte.to_N a) +:+ "." +:+ uitoa (Byte.to_N b) +:+ "." +:+
          uitoa (Byte.to_N c) +:+ "." +:+ uitoa (Byte.to_N d)
      | _ =>
          if Nat.eqb (length ip) IPv6len then string6 ip
          else "?" +:+ hexString ip
      end
  end.

End net.

(** ** The DNS library (github.com/miekg/dns): records and their text form *)

Module dns.

Definition TypeA : Z := 1.
Definition TypeCNAME : Z := 5.
Definition TypePTR : Z := 12.
Definition TypeHINFO : Z := 13.
Definition TypeTXT : Z := 16.
Definition TypeLOC : Z := 29.
Definition TypeOPT : Z := 41.
Definition TypeANY : Z := 255.
Definition ClassINET : Z := 1.
Definition ClassANY : Z := 255.

(** [dns.RR_Header]. *)
Record RR_Header : Type := {
  Name : string;
  Rrtype : Z;
  Class : Z;
  Ttl : Z
}.

(** The concrete record types the code switches on; [Other] stands for
    every type it does not name (SOA, NS, ...). *)
Inductive RData : Type :=
| A (a : net.IP)
| PTR (ptr : string)
| CNAME (target : string)
| TXT (txt : list string)
| HINFO (cpu os : string)
| LOC (version size horizPre vertPre : Z) (latitude longitude altitude : Z)
| OPT
| ANY
| Other.

(** [dns.RR]: a header and the data of one of the record types. *)
Record RR : Type := { Hdr : RR_Header; Data : RData }.

(** [dns.IsFqdn] and [dns.Fqdn]: a name is made fully qualified by a final
    dot. *)
Fixpoint IsFqdn (s : string) : bool :=
  match s with
  | EmptyString => false
  | String c EmptyString => Ascii.eqb c "."
  | String _ s' => IsFqdn s'
  end.

Definition Fqdn (s : string) : string := if IsFqdn s then s else s +:+ ".".

(** *** Presentation format of a LOC record (RFC 1876, section 3)

    The [String] method of [dns.LOC], without the header columns: degrees, minutes and
    seconds with three decimals, the hemisphere, the altitude in metres
    and the three size fields, each printed from its mantissa and
    exponent. *)

Definition LOC_EQUATOR : Z := 2 ^ 31.
Definition LOC_PRIMEMERIDIAN : Z := 2 ^ 31.
Definition LOC_HOURS : Z := 60 * 1000.
Definition LOC_DEGREES : Z := 60 * LOC_HOURS.
Definition LOC_ALTITUDEBASE : Z := 100000.

Definition itoa (n : Z) : string := net.uitoa (Z.to_N n).

(** ["%02d"] and the three decimals of ["%0.3f"]. *)
Definition pad2 (n : Z) : string := if n <? 10 then "0" +:+ itoa n else itoa n.
Definition pad3 (n : Z) : string :=
  if n <? 10 then "00" +:+ itoa n else if n <? 100 then "0" +:+ itoa n else itoa n.

(** One coordinate, from its distance to the equator or the meridian in
    thousandths of a second of arc. *)
Definition dms (v : Z) : string :=
  let h := v / LOC_DEGREES in
  let v := v mod LOC_DEGREES in
  let m := v / LOC_HOURS in
  let v := v mod LOC_HOURS in
  pad2 h +:+ " " +:+ pad2 m +:+ " " +:+ itoa (v / 1000) +:+ "." +:+ pad3 (v mod 1000).

(** The altitude: whole metres when the centimetres are zero, two
    decimals otherwise. *)
Definition altitude_m (alt : Z) : string :=
  let cm := alt - LOC_ALTITUDEBASE * 100 in
  let sign := if cm <? 0 then "-" else "" in
  let a := Z.abs cm in
  if alt mod 100 =? 0 then sign +:+ itoa (a / 100)
  else sign +:+ itoa (a / 100) +:+ "." +:+ pad2 (a mod 100).

(** [cmToM(m, e)]: the size [m * 10^e] centimetres, in metres. *)
Definition cmToM (m e : Z) : string :=
  if e <? 2 then "0." +:+ pad2 (if e =? 1 then (m * 10) mod 256 else m)
  else itoa m +:+ string_of_list_ascii (repeat "0"%char (Z.to_nat (e - 2))).

Definition LOC_text (size horizPre vertPre latitude longitude altitude : Z)
  : string :=
  let lat_part :=
    if LOC_EQUATOR <? latitude
    then dms (latitude - LOC_EQUATOR) +:+ " N "
    else dms (LOC_EQUATOR - latitude) +:+ " S " in
  let lon_part :=
    if LOC_PRIMEMERIDIAN <? longitude
    then dms (longitude - LOC_PRIMEMERIDIAN) +:+ " E "
    else dms (LOC_PRIMEMERIDIAN - longitude) +:+ " W " in
  lat_part +:+ lon_part +:+ altitude_m altitude +:+ "m " +:+
  cmToM (Z.shiftr (Z.land size 240) 4) (Z.land size 15) +:+ "m " +:+
  cmToM (Z.shiftr (Z.land horizPre 240) 4) (Z.land horizPre 15) +:+ "m " +:+
  cmToM (Z.shiftr (Z.land vertPre 240) 4) (Z.land vertPre 15) +:+ "m".

End dns.

(** ** What the Go runtime leaves open *)

(** [net.ParseIP] (the standard library's parser of address text) and the
    order in which [range] visits the entries of a map. Every order is a
    permutation of the entries. *)
Class Runtime : Type := {
  ParseIP : string -> option net.IP;
  range : forall {V : Type}, gmap string V -> list (string * V);
  range_perm : forall (V : Type) (m : gmap string V), range m ≡ₚ map_to_list m
}.

(** ** device.go: the [Device] value *)

Definition LOC_EQUATOR : Z := 2 ^ 31.
Definition LOC_PRIMEMERIDIAN : Z := 2 ^ 31.
Definition LOC_DEGREES : float := (60.0 * 60.0 * 1000.0)%float.
Definition LOC_ALTITUDEBASE : float := 100000.0%float.

Record Device : Type := {
  Name : string;                    (* full dns name *)
  IP : net.IP;                      (* primary ip address (A) *)
  Reverse : list net.IP;            (* primary lookups (PTR) *)
  Mapping : gmap string net.IP;     (* secondary lookups (PTR/CNAME) *)
  Aliases : list string;            (* other names (CNAME) *)
  Place : string;                   (* full place name (TXT) *)
  Model : string;                   (* equipment model (HINFO) *)
  Code : string;                    (* equipment site code (HINFO) *)
  Latitude : float;                 (* place latitude (LOC) *)
  Longitude : float;                (* place longitude (LOC) *)
  Height : float                    (* place height (LOC) *)
}.

(** The zero value [Device{}]. *)
Definition Device_zero : Device :=
  {| Name := ""; IP := []; Reverse := []; Mapping := ∅; Aliases := [];
     Place := ""; Model := ""; Code := "";
     Latitude := 0%float; Longitude := 0%float; Height := 0%float |}.

#[global] Instance Device_inhabited : Inhabited Device := populate Device_zero.

(** Assignments to one field. *)
Definition set_Reverse (d : Device) (v : list net.IP) : Device :=
  {| Name := Name d; IP := IP d; Reverse := v; Mapping := Mapping d;
     Aliases := Aliases d; Place := Place d; Model := Model d; Code := Code d;
     Latitude := Latitude d; Longitude := Longitude d; Height := Height d |}.

Definition set_Mapping (d : Device) (v : gmap string net.IP) : Device :=
  {| Name := Name d; IP := IP d; Reverse := Reverse d; Mapping := v;
     Aliases := Aliases d; Place := Place d; Model := Model d; Code := Code d;
     Latitude := Latitude d; Longitude := Longitude d; Height := Height d |}.

Definition set_Aliases (d : Device) (v : list string) : Device :=
  {| Name := Name d; IP := IP d; Reverse := Reverse d; Mapping := Mapping d;
     Aliases := v; Place := Place d; Model := Model d; Code := Code d;
     Latitude := Latitude d; Longitude := Longitude d; Height := Height d |}.

Definition set_Place (d : Device) (v : string) : Device :=
  {| Name := Name d; IP := IP d; Reverse := Reverse d; Mapping := Mapping d;
     Aliases := Aliases d; Place := v; Model := Model d; Code := Code d;
     Latitude := Latitude d; Longitude := Longitude d; Height := Height d |}.

Definition set_Model_Code (d : Device) (model code : string) : Device :=
  {| Name := Name d; IP := IP d; Reverse := Reverse d; Mapping := Mapping d;
     Aliases := Aliases d; Place := Place d; Model := model; Code := code;
     Latitude := Latitude d; Longitude := Longitude d; Height := Height d |}.

Definition CopyIP (ip : net.IP) : net.IP := ip.

(** Conversions between [uint32] and [float64]. A [uint32] converts
    exactly. A [float64] in range converts by truncation toward zero; out of
    range Go leaves the result to the implementation, and this is amd64's:
    the 64-bit truncation cut to its low 32 bits, 0 when even that
    overflows or the value is not a number. *)
Definition float64_of_uint32 (x : Z) : float := of_uint63 (Uint63.of_Z x).

Definition truncate (f : float) : option Z :=
  match Prim2SF f with
  | S754_zero _ => Some 0
  | S754_finite s m e =>
      let v := if 0 <=? e then Z.pos m * 2 ^ e else Z.pos m / 2 ^ (- e) in
      Some (if s then - v else v)
  | _ => None
  end.

Definition uint32_of_float64 (f : float) : Z :=
  match truncate f with
  | Some v => if (- 2 ^ 63 <? v) && (v <? 2 ^ 63) then v mod 2 ^ 32 else 0
  | None => 0
  end.

(** Subtraction of [uint32] values. *)
Definition sub32 (a b : Z) : Z := (a - b) mod 2 ^ 32.

(** The three fields [SetLocation] assigns, then the method. *)
Definition decode_latitude (lat : Z) : float :=
  if LOC_EQUATOR <? lat
  then (float64_of_uint32 (sub32 lat LOC_EQUATOR) / LOC_DEGREES)%float
  else (float64_of_uint32 (sub32 LOC_EQUATOR lat) / - LOC_DEGREES)%float.

Definition decode_longitude (lon : Z) : float :=
  if LOC_PRIMEMERIDIAN <? lon
  then (float64_of_uint32 (sub32 lon LOC_PRIMEMERIDIAN) / LOC_DEGREES)%float
  else (float64_of_uint32 (sub32 LOC_PRIMEMERIDIAN lon) / - LOC_DEGREES)%float.

Definition decode_height (alt : Z) : float :=
  (float64_of_uint32 alt / 100.0 - LOC_ALTITUDEBASE)%float.

Definition SetLocation (d : Device) (lat lon alt : Z) : Device :=
  {| Name := Name d; IP := IP d; Reverse := Reverse d; Mapping := Mapping d;
     Aliases := Aliases d; Place := Place d; Model := Model d; Code := Code d;
     Latitude := decode_latitude lat;
     Longitude := decode_longitude lon;
     Height := decode_height alt |}.

Definition Location (d : Device) : Z * Z * Z :=
  let lat := uint32_of_float64 (Latitude d * LOC_DEGREES + float64_of_uint32 LOC_EQUATOR)%float in
  let lon := uint32_of_float64 (Longitude d * LOC_DEGREES + float64_of_uint32 LOC_PRIMEMERIDIAN)%float in
  let alt := uint32_of_float64 ((Height d + LOC_ALTITUDEBASE) * 100.0)%float in
  (lat, lon, alt).

Definition HasName (d : Device) (name : string) : bool :=
  strings.EqualFold (Name d) name.

Definition HasAddress (d : Device) (ip : net.IP) : bool :=
  if net.Equal (IP d) ip then true
  else existsb (fun a => net.Equal a ip) (Reverse d).

Definition AtPlace (d : Device) (place : string) : bool :=
  strings.EqualFold (Place d) place.

Definition AtLocation (d : Device) (lat lon alt : Z) : bool :=
  let '(la, lo, a) := Location d in
  if negb (la =? lat) then false
  else if negb (lo =? lon) then false
  else if negb (a =? alt) then false
  else true.

Definition HasCode (d : Device) (code : string) : bool :=
  strings.EqualFold (Code d) code.

Definition HasModel (d : Device) (model : string) : bool :=
  String.eqb (Model d) model.

Definition Equal (d device : Device) : bool :=
  if negb (HasName d (Name device)) then false
  else if negb (HasAddress d (IP device)) then false
  else if negb (HasCode d (Code device)) then false
  else if negb (HasModel d (Model device)) then false
  else if negb (let '(lat, lon, alt) := Location device in AtLocation d lat lon alt)
       then false
  else true.

Definition HasAlias (d : Device) (alias : string) : bool :=
  existsb (fun a => String.eqb a alias) (Aliases d).

Definition HasReverse (d : Device) (ip : net.IP) : bool :=
  existsb (fun a => net.Equal a ip) (Reverse d).

Definition HasMapping {rt : Runtime} (d : Device) (name : string) (ip : net.IP) : bool :=
  existsb (fun '(n, i) => String.eqb n name && net.Equal i ip) (range (Mapping d)).

(** ** devices.go: the inventory *)

Record Devices : Type := { List : list Device }.

(** [Devices.Find]: the first device of that name, [None] for Go's nil. *)
Fixpoint find_name (l : list Device) (name : string) : option Device :=
  match l with
  | [] => None
  | s :: rest => if String.eqb (Name s) name then Some s else find_name rest name
  end.

Definition Find (d : Devices) (name : string) : option Device :=
  find_name (List d) name.

(** ** service.go: the directory service *)

Definition error : Type := string.

Record Service : Type := {
  Server : string;
  Key : string;
  Secret : string;
  Port : string
}.

(** A signed dynamic update: the zone, which of [Insert], [RemoveRRset] and
    [RemoveName] fills the message, and the records given. *)
Inductive UpdateKind : Type := KInsert | KRemoveRRset | KRemoveName.

Record Request : Type := {
  rq_zone : string;
  rq_kind : UpdateKind;
  rq_rr : list dns.RR
}.

(** The name server as seen from a [Service]: a zone transfer delivers the
    records of a zone or fails; an update exchange succeeds or fails
    (resolution of the server, the exchange itself, a response code other
    than success). Both may depend on and change the state of the world. *)
Class Network : Type := {
  World : Type;
  axfr : Service -> string -> World -> (error + list dns.RR) * World;
  update : Service -> Request -> World -> option error * World
}.

Record Net {nw : Network} : Type := { world : World; sent : list Request }.

Definition M {nw : Network} (A : Type) : Type := Net -> (error + A) * Net.

#[global] Instance M_ret {nw : Network} : MRet M := fun A x st => (inr x, st).

#[global] Instance M_bind {nw : Network} : MBind M := fun A B f m st =>
  match m st with
  | (inl err, st') => (inl err, st')
  | (inr x, st') => f x st'
  end.

(** A [for] loop that threads an accumulator and returns at the first
    error. *)
Fixpoint foldM {nw : Network} {A S : Type} (f : S -> A -> M S) (l : list A) (acc : S)
  : M S :=
  match l with
  | [] => mret acc
  | x :: rest => acc' ← f acc x; foldM f rest acc'
  end.

(** A [for] loop whose body either goes on ([continue], or the end of the
    body) or returns an error. *)
Definition for_each {nw : Network} {A : Type} (l : list A) (body : A -> M unit) : M unit :=
  foldM (fun _ x => body x) l ().

(** [cm2size], see RFC 1876: the loop, then the packing into a [uint8]. A
    [uint32] is below 10 after ten divisions at most. *)
Fixpoint cm2size_loop (fuel : nat) (v e : Z) : Z * Z :=
  match fuel with
  | O => (v, e)
  | S f => if 10 <=? v then cm2size_loop f (v / 10) ((e + 1) mod 2 ^ 32) else (v, e)
  end.

Definition cm2size (cms : Z) : Z :=
  let '(v, e) := cm2size_loop 10 cms 0 in
  Z.lor (Z.shiftl (v mod 2 ^ 8) 4 mod 2 ^ 8) (Z.land e 15 mod 2 ^ 8).

(** [Device.ToLOC]: a location record with the default size and precisions. *)
Definition ToLOC (d : Device) : dns.RR :=
  let '(la, lo, a) := Location d in
  {| dns.Hdr := {| dns.Name := dns.Fqdn (Name d); dns.Rrtype := dns.TypeLOC;
                   dns.Class := dns.ClassINET; dns.Ttl := 0 |};
     dns.Data := dns.LOC 0 (cm2size 10000) (cm2size 5000) (cm2size 5000) la lo a |}.

Definition findPrivateZone (ip : net.IP) (zone : string) : string :=
  if strings.HasPrefix (net.String ip) "10." then "10.in-addr.arpa."
  else if strings.HasPrefix (net.String ip) "172.16." then "16.172.in-addr.arpa."
  else if strings.HasPrefix (net.String ip) "192.168." then "168.192.in-addr.arpa."
  else zone.

Definition reverseAddress (ip : net.IP) : string :=
  strings.Join (rev (strings.Split (net.String ip) ".")) "." +:+ ".in-addr.arpa.".

(** The address text a PTR record of the reverse zone [z] stands for, as
    [List] computes it: the zone cut out of the owner name, the octets of the
    zone appended, the labels reversed. *)
Definition ptr_address (name z : string) : string :=
  strings.Join
    (rev (strings.Split
            (strings.Replace name z "" +:+ strings.Replace z ".in-addr.arpa." "")
            "."))
    ".".

(** ** The records of a device (service.go) *)

Definition set_Name (d : Device) (v : string) : Device :=
  {| Name := v; IP := IP d; Reverse := Reverse d; Mapping := Mapping d;
     Aliases := Aliases d; Place := Place d; Model := Model d; Code := Code d;
     Latitude := Latitude d; Longitude := Longitude d; Height := Height d |}.

Definition set_IP (d : Device) (v : net.IP) : Device :=
  {| Name := Name d; IP := v; Reverse := Reverse d; Mapping := Mapping d;
     Aliases := Aliases d; Place := Place d; Model := Model d; Code := Code d;
     Latitude := Latitude d; Longitude := Longitude d; Height := Height d |}.

(** [Device.ToOPT]: an OPT record to allow larger buffer sizes. *)
Definition ToOPT (d : Device) : dns.RR :=
  {| dns.Hdr := {| dns.Name := "."; dns.Rrtype := dns.TypeOPT;
                   dns.Class := dns.ClassINET; dns.Ttl := 0 |};
     dns.Data := dns.OPT |}.

(** [Device.ToHINFO]: the model and the code; the code is the [Os] field and
    the model the [Cpu] field. *)
Definition ToHINFO (d : Device) : dns.RR :=
  {| dns.Hdr := {| dns.Name := dns.Fqdn (Name d); dns.Rrtype := dns.TypeHINFO;
                   dns.Class := dns.ClassINET; dns.Ttl := 0 |};
     dns.Data := dns.HINFO (Model d) (Code d) |}.

(** [Device.ToTXT]: the place name, cut at its spaces. *)
Definition ToTXT (d : Device) : dns.RR :=
  {| dns.Hdr := {| dns.Name := dns.Fqdn (Name d); dns.Rrtype := dns.TypeTXT;
                   dns.Class := dns.ClassINET; dns.Ttl := 0 |};
     dns.Data := dns.TXT (strings.Split (Place d) " ") |}.

Module Service.
Section methods.
Context {nw : Network} {rt : Runtime}.
Variable s : Service.

(** [Service.Transfer]: every record of the zone, or the error. *)
Definition Transfer (zone : string) : M (list dns.RR) := fun st =>
  let '(r, w) := axfr s zone (world st) in
  (r, {| world := w; sent := sent st |}).

(** One signed update exchange; the request is recorded. *)
Definition exchange (rq : Request) : M unit := fun st =>
  let '(r, w) := update s rq (world st) in
  (match r with Some err => inl err | None => inr () end,
   {| world := w; sent := sent st ++ [rq] |}).

Definition Insert (zone : string) (rr : list dns.RR) : M unit :=
  exchange {| rq_zone := zone; rq_kind := KInsert; rq_rr := rr |}.

Definition RemoveRRset (zone : string) (rr : list dns.RR) : M unit :=
  exchange {| rq_zone := zone; rq_kind := KRemoveRRset; rq_rr := rr |}.

Definition RemoveName (zone : string) (rr : list dns.RR) : M unit :=
  exchange {| rq_zone := zone; rq_kind := KRemoveName; rq_rr := rr |}.

(** *** [Service.List] *)

(** reverse lookups: only PTR record details are collected. *)
Definition collect_ptr (z : string) (ptrs : gmap string string) (r : dns.RR)
  : gmap string string :=
  match dns.Data r with
  | dns.PTR ptr => <[ptr_address (dns.Name (dns.Hdr r)) z := ptr]> ptrs
  | _ => ptrs
  end.

Definition reverse_lookups (reverse : list string) : M (gmap string string) :=
  foldM (fun ptrs z => rr ← Transfer z; mret (fold_left (collect_ptr z) rr ptrs))
    reverse ∅.

(** recover dns entries *)
Definition recover_entries (zones : list string) : M (list dns.RR) :=
  foldM (fun rr z => r ← Transfer z; mret (rr ++ r)) zones [].

(** search for A and CNAME records *)
Definition search_record (acc : gmap string Device * gmap string string) (r : dns.RR)
  : gmap string Device * gmap string string :=
  let '(devices, cnames) := acc in
  let name := dns.Name (dns.Hdr r) in
  match dns.Data r with
  | dns.A a =>
      (<[name := {| Name := name; IP := CopyIP a; Reverse := []; Mapping := ∅;
                    Aliases := []; Place := ""; Model := ""; Code := "";
                    Latitude := 0%float; Longitude := 0%float; Height := 0%float |}]>
         devices, cnames)
  | dns.CNAME target => (devices, <[name := target]> cnames)
  | _ => (devices, cnames)
  end.

(** gather alias addresses *)
Definition gather_alias (devices : gmap string Device) (cn : string * string)
  : gmap string Device :=
  let '(c, n) := cn in
  match devices !! c with
  | Some _ => devices
  | None =>
      match devices !! n with
      | Some d => <[n := set_Aliases d (Aliases d ++ [c])]> devices
      | None => devices
      end
  end.

(** gather reverse lookups *)
Definition gather_reverse (devices : gmap string Device) (an : string * string)
  : gmap string Device :=
  let '(a, n) := an in
  match ParseIP a with
  | Some ip =>
      match devices !! n with
      | Some d => <[n := set_Reverse d (Reverse d ++ [ip])]> devices
      | None => devices
      end
  | None => devices
  end.

(** gather mappings *)
Definition gather_mapping (cnames : gmap string string)
  (devices : gmap string Device) (an : string * string) : gmap string Device :=
  let '(a, n) := an in
  match ParseIP a with
  | Some ip =>
      match cnames !! n with
      | Some c =>
          match devices !! c with
          | Some d => <[c := set_Mapping d (<[n := ip]> (Mapping d))]> devices
          | None => devices
          end
      | None => devices
      end
  | None => devices
  end.

(** gather other device details *)
Definition gather_detail (devices : gmap string Device) (r : dns.RR)
  : gmap string Device :=
  let name := dns.Name (dns.Hdr r) in
  match devices !! name with
  | None => devices
  | Some d =>
      let d :=
        match dns.Data r with
        | dns.TXT txt => set_Place d (strings.Join txt " ")
        | dns.HINFO cpu os => set_Model_Code d cpu os
        | dns.LOC _ _ _ _ latitude longitude altitude =>
            SetLocation d latitude longitude altitude
        | _ => d
        end in
      <[name := d]> devices
  end.

(** sort by device name, and build the resulting sorted array *)
Definition sorted_devices (devices : gmap string Device) : list Device :=
  let keys := sort.Strings ((range devices).*1) in
  (fun k => devices !!! k) <$> keys.

(** Everything [List] does once the transfers are done. *)
Definition correlate (ptrs : gmap string string) (rr : list dns.RR) : list Device :=
  let '(devices, cnames) := fold_left search_record rr (∅, ∅) in
  let devices := fold_left gather_alias (range cnames) devices in
  let devices := fold_left gather_reverse (range ptrs) devices in
  let devices := fold_left (gather_mapping cnames) (range ptrs) devices in
  let devices := fold_left gather_detail rr devices in
  sorted_devices devices.

(** The method, with Go's pair of results: the devices and the error. *)
Definition List (zones reverse : list string) (st : Net)
  : (list Device * option error) * Net :=
  match (ptrs ← reverse_lookups reverse;
         rr ← recover_entries zones;
         mret (correlate ptrs rr)) st with
  | (inl err, st') => (([], Some err), st')
  | (inr res, st') => ((res, None), st')
  end.

(** *** The differential update *)

Definition ptr_record (name : string) (ttl : Z) (ptr : string) : dns.RR :=
  {| dns.Hdr := {| dns.Name := name; dns.Rrtype := dns.TypePTR;
                   dns.Class := dns.ClassINET; dns.Ttl := ttl |};
     dns.Data := dns.PTR ptr |}.

Definition cname_record (name : string) (target : string) : dns.RR :=
  {| dns.Hdr := {| dns.Name := name; dns.Rrtype := dns.TypeCNAME;
                   dns.Class := dns.ClassINET; dns.Ttl := 0 |};
     dns.Data := dns.CNAME target |}.

Definition UpdateReverse (zone : string) (ttl : Z) (from to : Device) : M unit :=
  for_each (Reverse from) (fun r =>
    if HasReverse to r then mret ()
    else
      let z := findPrivateZone r zone in
      if String.eqb z zone then mret ()
      else RemoveRRset z [ptr_record (reverseAddress r) 0 (dns.Fqdn (Name from))]);;
  for_each (Reverse to) (fun r =>
    if HasReverse from r then mret ()
    else
      let z := findPrivateZone r zone in
      if String.eqb z zone then mret ()
      else
        RemoveRRset z [ptr_record (reverseAddress r) 0 ""];;
        Insert z [ptr_record (reverseAddress r) ttl (dns.Fqdn (Name to))]);;
  mret ().

Definition UpdateAlias (zone : string) (ttl : Z) (from to : Device) : M unit :=
  for_each (Aliases from) (fun r =>
    if HasAlias to r then mret ()
    else RemoveRRset zone [cname_record (dns.Fqdn r) (dns.Fqdn (Name to))]);;
  for_each (Aliases to) (fun r =>
    if HasAlias from r then mret ()
    else
      let cname := cname_record (dns.Fqdn r) (dns.Fqdn (Name from)) in
      RemoveRRset zone [cname];;
      Insert zone [cname]);;
  mret ().

Definition UpdateMapping (zone : string) (ttl : Z) (from to : Device) : M unit :=
  for_each (range (Mapping from)) (fun '(m, i) =>
    if HasMapping to m i then mret ()
    else
      let ptr := ptr_record (reverseAddress i) 0 (dns.Fqdn m) in
      let z := findPrivateZone i zone in
      if String.eqb z zone then mret ()
      else RemoveRRset z [ptr]);;
  for_each (range (Mapping to)) (fun '(m, i) =>
    if HasMapping from m i then mret ()
    else
      let ptr := ptr_record (reverseAddress i) 0 (dns.Fqdn m) in
      let z := findPrivateZone i zone in
      if String.eqb z zone then mret ()
      else
        RemoveRRset z [ptr];;
        Insert z [ptr]);;
  mret ().

Definition Update (zone : string) (ttl : Z) (from to : Device) : M unit :=
  UpdateReverse zone ttl from to;;
  UpdateAlias zone ttl from to;;
  UpdateMapping zone ttl from to;;
  mret ().


(** *** The records of one device *)

(** [Service.Decode]: a device from the records of an answer. Every
    record gives the device its owner name. *)
Definition Decode (records : list dns.RR) : Device :=
  fold_left
    (fun d r =>
       let d := set_Name d (dns.Name (dns.Hdr r)) in
       match dns.Data r with
       | dns.A a => set_IP d (CopyIP a)
       | dns.TXT txt => set_Place d (strings.Join txt " ")
       | dns.HINFO cpu os => set_Model_Code d cpu os
       | dns.LOC _ _ _ _ latitude longitude altitude =>
           SetLocation d latitude longitude altitude
       | _ => d
       end)
    records Device_zero.

(** [Service.UpdateInfo], [Service.RemoveInfo] and [Service.RemoveAll]. *)
Definition UpdateInfo (zone : string) (device : Device) : M unit :=
  Insert zone [ToOPT device; ToTXT device; ToHINFO device; ToLOC device].

Definition RemoveInfo (zone : string) (device : Device) : M unit :=
  RemoveRRset zone [ToOPT device; ToTXT device; ToHINFO device; ToLOC device].

Definition RemoveAll (zone : string) (device : Device) : M unit :=
  RemoveName zone
    [{| dns.Hdr := {| dns.Name := dns.Fqdn (Name device); dns.Rrtype := dns.TypeANY;
                      dns.Class := dns.ClassANY; dns.Ttl := 0 |};
        dns.Data := dns.ANY |}].

End methods.
End Service.

(** ** Notions of the description, stated on their own *)

(** Two names that differ at most in the case of ASCII letters: letter by
    letter, the same byte or the two cases of one letter. *)
Definition is_upper (c : ascii) : bool :=
  let n := N_of_ascii c in ((65 <=? n) && (n <=? 90))%N.

Definition is_lower (c : ascii) : bool :=
  let n := N_of_ascii c in ((97 <=? n) && (n <=? 122))%N.

Definition swap_case (c : ascii) : ascii :=
  let n := N_of_ascii c in
  if is_upper c then ascii_of_N (n + 32)
  else if is_lower c then ascii_of_N (n - 32)
  else c.

Inductive case_variant : string -> string -> Prop :=
| cv_empty : case_variant "" ""
| cv_same (c : ascii) (s t : string) :
    case_variant s t -> case_variant (String c s) (String c t)
| cv_swap (c : ascii) (s t : string) :
    case_variant s t -> case_variant (String c s) (String (swap_case c) t).

(** The decoding of RFC 1876 coordinates in the words of the description,
    on numbers below [2 ^ 32]. *)
Definition milliarcsecondsPerDegree : float := 3600000.0%float.

Definition spec_latitude (lat32 : Z) : float :=
  if 2 ^ 31 <? lat32
  then (float64_of_uint32 (lat32 - 2 ^ 31) / milliarcsecondsPerDegree)%float
  else (- (float64_of_uint32 (2 ^ 31 - lat32) / milliarcsecondsPerDegree))%float.

Definition spec_longitude (lon32 : Z) : float :=
  if 2 ^ 31 <? lon32
  then (float64_of_uint32 (lon32 - 2 ^ 31) / milliarcsecondsPerDegree)%float
  else (- (float64_of_uint32 (2 ^ 31 - lon32) / milliarcsecondsPerDegree))%float.

Definition spec_height (alt32 : Z) : float :=
  (float64_of_uint32 alt32 / 100.0 - 100000.0)%float.

(** The device of the package's test of [ToLOC]. *)
Definition test_device : Device :=
  {| Name := ""; IP := []; Reverse := []; Mapping := ∅; Aliases := [];
     Place := ""; Model := ""; Code := "";
     Latitude := (-41.290438888888886)%float;
     Longitude := 174.7815961111111%float;
     Height := 21%float |}.

(** The text of a location record, from its data. *)
Definition record_text (r : dns.RR) : string :=
  match dns.Data r with
  | dns.LOC _ size horizPre vertPre latitude longitude altitude =>
      dns.LOC_text size horizPre vertPre latitude longitude altitude
  | _ => ""
  end.

(** Membership of an address in an IPv4 network, given by its number and
    its mask, as [net.IPNet.Contains] decides it: the address in its 4-byte
    form agrees with the network number on the bits of the mask. *)
Fixpoint masked_eqb (nn m ip : list byte) : bool :=
  match nn, m, ip with
  | [], [], [] => true
  | n :: nn', k :: m', b :: ip' =>
      (N.land (Byte.to_N n) (Byte.to_N k) =? N.land (Byte.to_N b) (Byte.to_N k))%N
      && masked_eqb nn' m' ip'
  | _, _, _ => false
  end.

Definition in_network (nn m : list byte) (ip : net.IP) : bool :=
  match net.To4 ip with
  | Some ip4 => masked_eqb nn m ip4
  | None => false
  end.

(** 10.0.0.0/8, 172.16.0.0/12, 172.16.0.0/16 and 192.168.0.0/16. *)
Definition in_10_8 : net.IP -> bool :=
  in_network [x0a; x00; x00; x00] [xff; x00; x00; x00].
Definition in_172_16_12 : net.IP -> bool :=
  in_network [xac; x10; x00; x00] [xff; xf0; x00; x00].
Definition in_172_16_16 : net.IP -> bool :=
  in_network [xac; x10; x00; x00] [xff; xff; x00; x00].
Definition in_192_168_16 : net.IP -> bool :=
  in_network [xc0; xa8; x00; x00] [xff; xff; x00; x00].

(** A computation extends the record of update requests by requests that
    all satisfy [P], whatever state it starts from and however it ends. *)
Definition sends {nw : Network} {A : Type} (P : Request -> Prop) (m : M A) : Prop :=
  forall st, exists new, sent (m st).2 = sent st ++ new /\ Forall P new.

(** An update of the reverse record of one of the addresses [addrs]: it
    goes to the private zone of the address, which is not the zone of the
    caller, and carries one PTR record at the reverse name of the address. *)
Definition reverse_update (zone : string) (addrs : net.IP -> Prop) (rq : Request)
  : Prop :=
  exists r, addrs r /\
    findPrivateZone r zone <> zone /\
    rq_zone rq = findPrivateZone r zone /\
    exists ttl ptr, rq_rr rq = [Service.ptr_record (reverseAddress r) ttl ptr].

(** The table of devices [List] builds is well keyed: every device sits at
    its own name, and none of its aliases is the key of a device. *)
Definition well_keyed (devices : gmap string Device) : Prop :=
  forall k d, devices !! k = Some d ->
    Name d = k /\ forall c, c ∈ Aliases d -> devices !! c = None.

(** The transfers of a list of zones, one after the other: the records of
    each zone, or the error of the first transfer that fails. *)
Fixpoint transfers {nw : Network} (s : Service) (zs : list string)
  : M (list (list dns.RR)) :=
  match zs with
  | [] => mret []
  | z :: rest =>
      rr ← Service.Transfer s z; rrs ← transfers s rest; mret (rr :: rrs)
  end.

(** Whether a text has a dot, and the dotted-decimal text of four octets. *)
Definition has_dot (s : string) : bool :=
  existsb (Ascii.eqb ".") (list_ascii_of_string s).

Definition dotted (a b c d : byte) : string :=
  net.uitoa (Byte.to_N a) +:+ "." +:+ net.uitoa (Byte.to_N b) +:+ "." +:+
  net.uitoa (Byte.to_N c) +:+ "." +:+ net.uitoa (Byte.to_N d).

(** The shape of the two transfer loops of [List]: transfer the zone, then
    fold its records into the accumulator. *)
Definition transfer_step {nw : Network} (s : Service) {S : Type}
  (g : S -> string -> list dns.RR -> S) (acc : S) (z : string) : M S :=
  rr ← Service.Transfer s z; mret (g acc z rr).

(** The records of a transfer that [List] looks at: every record but those
    of the types it does not name (the SOA and NS records of a zone). *)
Definition significant (r : dns.RR) : bool :=
  match dns.Data r with
  | dns.Other => false
  | _ => true
  end.

(** The table of devices that [correlate] sorts at its end. *)
Definition correlated {rt : Runtime} (ptrs : gmap string string) (rr : list dns.RR)
  : gmap string Device :=
  let '(devices, cnames) := fold_left Service.search_record rr (∅, ∅) in
  let devices := fold_left Service.gather_alias (range cnames) devices in
  let devices := fold_left Service.gather_reverse (range ptrs) devices in
  let devices := fold_left (Service.gather_mapping cnames) (range ptrs) devices in
  fold_left Service.gather_detail rr devices.

(** ** A concrete runtime and a concrete name server, for the examples *)

(** Dotted-decimal IPv4 text as [net.ParseIP] reads it ([parseIPv4]): four
    decimal numbers up to 255 without leading zeros, separated by dots. The
    result has the 16-byte form. IPv6 text is refused by this instance. *)
Module parse.

Definition digit (c : ascii) : option Z :=
  let n := Z.of_N (N_of_ascii c) in
  if (48 <=? n) && (n <=? 57) then Some (n - 48) else None.

Definition big : Z := 16777215.

(** [dtoi(s)]: the number read, the rest of the text, the count of digits. *)
Fixpoint dtoi (s : string) (n : Z) (i : nat) : option (Z * nat * string) :=
  match s with
  | EmptyString => if Nat.eqb i 0 then None else Some (n, i, s)
  | String c s' =>
      match digit c with
      | Some d =>
          let n := n * 10 + d in
          if big <=? n then None else dtoi s' n (S i)
      | None => if Nat.eqb i 0 then None else Some (n, i, s)
      end
  end.

Fixpoint octets (k : nat) (first : bool) (s : string) : option (list byte) :=
  match k with
  | O => match s with EmptyString => Some [] | _ => None end
  | S k' =>
      let after_dot :=
        if first then Some s
        else match s with
             | String "." s' => Some s'
             | _ => None
             end in
      match after_dot with
      | None => None
      | Some s1 =>
          match dtoi s1 0 0 with
          | None => None
          | Some (n, c, rest) =>
              if 255 <? n then None
              else if Nat.ltb 1 c && String.prefix "0" s1 then None
              else
                match Byte.of_N (Z.to_N n), octets k' false rest with
                | Some b, Some bs => Some (b :: bs)
                | _, _ => None
                end
          end
      end
  end.

Definition parseIPv4 (s : string) : option net.IP :=
  match octets 4 true s with
  | Some [a; b; c; d] => Some (net.IPv4 a b c d)
  | _ => None
  end.

End parse.

Definition dotted_runtime : Runtime := {|
  ParseIP := parse.parseIPv4;
  range := fun V m => map_to_list m;
  range_perm := fun V m => reflexivity _
|}.

(** A name server that serves a fixed table of zones, refuses the transfer
    of any other zone and accepts every update. *)
Definition table_server (zones : list (string * list dns.RR)) : Network := {|
  World := unit;
  axfr := fun _ z w =>
    match list_find (fun e => e.1 = z) zones with
    | Some (_, (_, rr)) => (inr rr, w)
    | None => (inl ("transfer refused: " +:+ z), w)
    end;
  update := fun _ _ w => (None, w)
|}.

Definition a_service : Service :=
  {| Server := "localhost"; Key := "key"; Secret := "secret"; Port := "53" |}.

(** The state in which nothing has been sent to it yet. *)
Definition idle (zones : list (string * list dns.RR)) : Net (nw := table_server zones) :=
  Build_Net (table_server zones) tt [].

(** The zones of the examples: a forward zone with one host and one alias,
    and the reverse zone of 192.168.0.0/16 with a pointer to the alias. As
    in a zone transfer, the SOA record of the zone comes first and last. *)
Definition header (name : string) (rrtype : Z) : dns.RR_Header :=
  {| dns.Name := name; dns.Rrtype := rrtype; dns.Class := dns.ClassINET;
     dns.Ttl := 3600 |}.

Definition soa (zone : string) : dns.RR :=
  {| dns.Hdr := header zone 6; dns.Data := dns.Other |}.

Definition example_zones : list (string * list dns.RR) :=
  [("zone.",
    [soa "zone.";
     {| dns.Hdr := header "host.zone." dns.TypeA;
        dns.Data := dns.A [x0a; x00; x00; x01] |};
     {| dns.Hdr := header "alt.zone." dns.TypeCNAME;
        dns.Data := dns.CNAME "host.zone." |};
     soa "zone."]);
   ("168.192.in-addr.arpa.",
    [soa "168.192.in-addr.arpa.";
     {| dns.Hdr := header "5.1.168.192.in-addr.arpa." dns.TypePTR;
        dns.Data := dns.PTR "alt.zone." |};
     soa "168.192.in-addr.arpa."])].

(** A device with a name and aliases, every other field zero. *)
Definition named (name : string) (aliases : list string) : Device :=
  {| Name := name; IP := []; Reverse := []; Mapping := ∅; Aliases := aliases;
     Place := ""; Model := ""; Code := "";
     Latitude := 0%float; Longitude := 0%float; Height := 0%float |}.


(** ** The rest of the inventory queries (devices.go) *)

(** [net.IPNet] and its [Contains]: the network number and the mask are
    brought to the length of the address first ([networkNumberAndMask]); a
    network the library cannot read has no number and no mask. *)
Module ipnet.

Record IPNet : Type := { IP : net.IP; Mask : list byte }.

Definition networkNumberAndMask (n : IPNet) : list byte * list byte :=
  let ip4 := net.To4 (IP n) in
  let ip := match ip4 with Some x => x | None => IP n end in
  if match ip4 with None => negb (Nat.eqb (length ip) net.IPv6len) | Some _ => false end
  then ([], [])
  else
    let m := Mask n in
    if Nat.eqb (length m) net.IPv4len then
      if negb (Nat.eqb (length ip) net.IPv4len) then ([], []) else (ip, m)
    else if Nat.eqb (length m) net.IPv6len then
      if Nat.eqb (length ip) net.IPv4len then (ip, drop 12 m) else (ip, m)
    else ([], []).

(** The loop of [Contains] over the bytes of the address. *)
Fixpoint same_masked (nn m ip : list byte) : bool :=
  match ip with
  | [] => true
  | b :: ip' =>
      let n := hd x00 nn in
      let k := hd x00 m in
      if negb (N.land (Byte.to_N n) (Byte.to_N k) =? N.land (Byte.to_N b) (Byte.to_N k))%N
      then false
      else same_masked (tl nn) (tl m) ip'
  end.

Definition Contains (n : IPNet) (ip : net.IP) : bool :=
  let '(nn, m) := networkNumberAndMask n in
  let ip := match net.To4 ip with Some x => x | None => ip end in
  if negb (Nat.eqb (length ip) (length nn)) then false
  else same_masked nn m ip.

End ipnet.

Definition InNetwork (d : Device) (network : ipnet.IPNet) : bool :=
  if ipnet.Contains network (IP d) then true
  else existsb (fun a => ipnet.Contains network a) (Reverse d).

Definition HasIP {rt : Runtime} (d : Device) (ip : net.IP) : bool :=
  existsb (fun '(_, a) => net.Equal a ip) (range (Mapping d)).

(** [Devices.FindByIP]: the first device whose primary address is [ip]. *)
Fixpoint find_ip (l : list Device) (ip : net.IP) : option Device :=
  match l with
  | [] => None
  | s :: rest => if net.Equal (IP s) ip then Some s else find_ip rest ip
  end.

Definition FindByIP (d : Devices) (ip : net.IP) : option Device :=
  find_ip (List d) ip.

(** The list queries: the devices that pass the test, in the order of the
    inventory. *)
Definition ListByModel (d : Devices) (model : string) : list Device :=
  List.filter (fun s => HasModel s model) (List d).

Definition ListByCode (d : Devices) (code : string) : list Device :=
  List.filter (fun s => HasCode s code) (List d).

Definition ListByPlace (d : Devices) (place : string) : list Device :=
  List.filter (fun s => AtPlace s place) (List d).

Definition ListByModelAndCode (d : Devices) (model code : string) : list Device :=
  List.filter (fun s => HasModel s model && HasCode s code) (List d).

Definition ListByNetwork (d : Devices) (network : ipnet.IPNet) : list Device :=
  List.filter (fun s => InNetwork s network) (List d).

(** [LoadLocal]: the inventory of a server, or the error of [List]. *)
Definition LoadLocal {nw : Network} {rt : Runtime} (server : string)
  (zones reverse : list string) (st : Net) : (option Devices * option error) * Net :=
  let s := {| Server := server; Key := ""; Secret := ""; Port := "53" |} in
  match Service.List s zones reverse st with
  | ((_, Some err), st') => ((None, Some err), st')
  | ((l, None), st') => ((Some {| List := l |}, None), st')
  end.

(** ** [List] as a function of the records transferred *)

(** The table of pointers [List] collects from the records of the reverse
    zones, each zone with its name. *)
Definition ptr_table (zs : list (string * list dns.RR)) : gmap string string :=
  fold_left (fun ptrs zr => fold_left (Service.collect_ptr zr.1) zr.2 ptrs) zs ∅.

(** The devices [List] builds when the transfers of the reverse zones
    deliver [rev], zone by zone, and those of the forward zones [fwd]. *)
Definition inventory {rt : Runtime} (reverse : list string)
  (rev fwd : list (list dns.RR)) : list Device :=
  Service.correlate (ptr_table (zip reverse rev)) (concat fwd).

(** The tables of the first pass over the forward records. *)
Definition first_pass (rr : list dns.RR) : gmap string Device * gmap string string :=
  fold_left Service.search_record rr (∅, ∅).

(** A pass that, for each item, rewrites the device at one key, if there is
    a device at that key. *)
Definition keyed_step {X : Type} (key : X -> option string)
  (u : X -> Device -> Device) (m : gmap string Device) (x : X) : gmap string Device :=
  match key x with
  | Some k =>
      match m !! k with
      | Some d => <[k := u x d]> m
      | None => m
      end
  | None => m
  end.

(** The items of a pass that rewrite the device at [k]. *)
Definition items_at {X : Type} (key : X -> option string) (k : string) (l : list X)
  : list X :=
  List.filter (fun x => bool_decide (key x = Some k)) l.

(** ** What an update sends *)

(** A computation extends the record of update requests by a sequence of
    requests that satisfies [P], whatever state it starts from and however
    it ends. *)
Definition emits {nw : Network} {A : Type} (P : list Request -> Prop) (m : M A) : Prop :=
  forall st, exists new, sent (m st).2 = sent st ++ new /\ P new.

(** The owner name and the type of each record of a request. *)
Definition subjects (rq : Request) : list (string * Z) :=
  (fun r => (dns.Name (dns.Hdr r), dns.Rrtype (dns.Hdr r))) <$> rq_rr rq.

(** A sequence of replacements: every request removes the record set of one
    record or inserts one record, and an insertion comes right after the
    removal, from the same zone, of the record set of the same owner and
    type. *)
Inductive replacements : list Request -> Prop :=
| replacements_nil : replacements []
| replacements_remove (rm : Request) (l : list Request) :
    rq_kind rm = KRemoveRRset -> length (rq_rr rm) = 1%nat ->
    replacements l -> replacements (rm :: l)
| replacements_insert (rm ins : Request) (l : list Request) :
    rq_kind rm = KRemoveRRset -> length (rq_rr rm) = 1%nat ->
    rq_kind ins = KInsert -> rq_zone ins = rq_zone rm ->
    subjects ins = subjects rm ->
    replacements l -> replacements (rm :: ins :: l).

(** The update of one alias: a request to the zone of the caller, with one
    alias record of ttl 0 whose owner is an alias of one of the two devices
    that the other has not. *)
Definition alias_update (zone : string) (from to : Device) (rq : Request) : Prop :=
  rq_zone rq = zone /\
  exists a target,
    HasAlias from a <> HasAlias to a /\
    rq_rr rq = [Service.cname_record (dns.Fqdn a) target].

(** A name server that refuses every transfer and every insertion, and
    accepts the removals. *)
Definition insert_refusing_server : Network := {|
  World := unit;
  axfr := fun _ z w => (inl ("transfer refused: " +:+ z), w);
  update := fun _ rq w =>
    match rq_kind rq with
    | KInsert => (Some "insert refused", w)
    | _ => (None, w)
    end
|}.

Definition untouched : Net (nw := insert_refusing_server) :=
  Build_Net insert_refusing_server tt [].

(** The three requests [Update] sends to insert what [to] has and [from]
    has not. *)
Definition insert_reverse (zone : string) (ttl : Z) (to : Device) (r : net.IP) : Request :=
  {| rq_zone := findPrivateZone r zone; rq_kind := KInsert;
     rq_rr := [Service.ptr_record (reverseAddress r) ttl (dns.Fqdn (Name to))] |}.

Definition insert_alias (zone : string) (from : Device) (a : string) : Request :=
  {| rq_zone := zone; rq_kind := KInsert;
     rq_rr := [Service.cname_record (dns.Fqdn a) (dns.Fqdn (Name from))] |}.

Definition insert_mapping (zone : string) (m : string) (i : net.IP) : Request :=
  {| rq_zone := findPrivateZone i zone; rq_kind := KInsert;
     rq_rr := [Service.ptr_record (reverseAddress i) 0 (dns.Fqdn m)] |}.

(** And the three it sends to remove what [from] has and [to] has not. *)
Definition remove_reverse (zone : string) (from : Device) (r : net.IP) : Request :=
  {| rq_zone := findPrivateZone r zone; rq_kind := KRemoveRRset;
     rq_rr := [Service.ptr_record (reverseAddress r) 0 (dns.Fqdn (Name from))] |}.

Definition remove_alias (zone : string) (to : Device) (a : string) : Request :=
  {| rq_zone := zone; rq_kind := KRemoveRRset;
     rq_rr := [Service.cname_record (dns.Fqdn a) (dns.Fqdn (Name to))] |}.

Definition remove_mapping (zone : string) (m : string) (i : net.IP) : Request :=
  {| rq_zone := findPrivateZone i zone; rq_kind := KRemoveRRset;
     rq_rr := [Service.ptr_record (reverseAddress i) 0 (dns.Fqdn m)] |}.

(** A computation fails only in an update exchange, with the error of
    the exchange, and ends there: the state it returns is the state the
    exchange left. *)
Definition fails_in_exchange {nw : Network} (s : Service) {A : Type} (m : M A) : Prop :=
  forall st err st', m st = (inl err, st') ->
    exists rq st0 new, sent st0 = sent st ++ new /\
      Service.exchange s rq st0 = (inl err, st').

(** The requests [Update] has to send, in the order in which it sends
    them: those of the reverse addresses, then those of the aliases, then
    those of the mapping; in each part the removals of what [from] has and
    [to] has not, then the replacements of what [to] has and [from] has
    not. *)
Definition reverse_plan (zone : string) (ttl : Z) (from to : Device) : list Request :=
  flat_map (fun r =>
      if HasReverse to r then []
      else if String.eqb (findPrivateZone r zone) zone then []
      else [remove_reverse zone from r])
    (Reverse from) ++
  flat_map (fun r =>
      if HasReverse from r then []
      else if String.eqb (findPrivateZone r zone) zone then []
      else [{| rq_zone := findPrivateZone r zone; rq_kind := KRemoveRRset;
               rq_rr := [Service.ptr_record (reverseAddress r) 0 ""] |};
            insert_reverse zone ttl to r])
    (Reverse to).

Definition alias_plan (zone : string) (from to : Device) : list Request :=
  flat_map (fun a => if HasAlias to a then [] else [remove_alias zone to a])
    (Aliases from) ++
  flat_map (fun a =>
      if HasAlias from a then []
      else [{| rq_zone := zone; rq_kind := KRemoveRRset;
               rq_rr := [Service.cname_record (dns.Fqdn a) (dns.Fqdn (Name from))] |};
            insert_alias zone from a])
    (Aliases to).

Definition mapping_plan {rt : Runtime} (zone : string) (from to : Device)
  : list Request :=
  flat_map (fun '(m, i) =>
      if HasMapping to m i then []
      else if String.eqb (findPrivateZone i zone) zone then []
      else [remove_mapping zone m i])
    (range (Mapping from)) ++
  flat_map (fun '(m, i) =>
      if HasMapping from m i then []
      else if String.eqb (findPrivateZone i zone) zone then []
      else [remove_mapping zone m i; insert_mapping zone m i])
    (range (Mapping to)).

Definition Update_plan {rt : Runtime} (zone : string) (ttl : Z) (from to : Device)
  : list Request :=
  reverse_plan zone ttl from to ++ alias_plan zone from to ++ mapping_plan zone from to.

(** ** The records [List] reads, by owner name *)

(** The data of the records of one owner, in the order of the transfer. *)
Definition records_at (rr : list dns.RR) (name : string) : list dns.RData :=
  dns.Data <$> List.filter (fun r => String.eqb (dns.Name (dns.Hdr r)) name) rr.

(** What each kind of record says about a device. *)
Definition address_of (x : dns.RData) : option net.IP :=
  match x with dns.A a => Some a | _ => None end.

Definition target_of (x : dns.RData) : option string :=
  match x with dns.CNAME target => Some target | _ => None end.

Definition place_of (x : dns.RData) : option string :=
  match x with dns.TXT txt => Some (strings.Join txt " ") | _ => None end.

Definition model_code_of (x : dns.RData) : option (string * string) :=
  match x with dns.HINFO cpu os => Some (cpu, os) | _ => None end.

Definition location_of (x : dns.RData) : option (float * float * float) :=
  match x with
  | dns.LOC _ _ _ _ latitude longitude altitude =>
      Some (decode_latitude latitude, decode_longitude longitude, decode_height altitude)
  | _ => None
  end.

(** The last record of one kind of an owner. *)
Definition last_of {V : Type} (g : dns.RData -> option V) (rr : list dns.RR)
  (name : string) : option V :=
  last (omap g (records_at rr name)).

(** The device [List] makes of an address record. *)
Definition fresh (name : string) (a : net.IP) : Device :=
  {| Name := name; IP := a; Reverse := []; Mapping := ∅; Aliases := [];
     Place := ""; Model := ""; Code := "";
     Latitude := 0%float; Longitude := 0%float; Height := 0%float |}.

(** The four passes of [List] over the table of devices, each as the
    rewriting of the device at one key: the key an item rewrites, and what
    it does to the device there. For the aliases the key depends on which
    names are devices, given by a table [base]. *)
Definition alias_key (base : gmap string Device) (cn : string * string)
  : option string :=
  match base !! cn.1 with Some _ => None | None => Some cn.2 end.

Definition alias_add (cn : string * string) (d : Device) : Device :=
  set_Aliases d (Aliases d ++ [cn.1]).

Definition reverse_key {rt : Runtime} (an : string * string) : option string :=
  match ParseIP an.1 with Some _ => Some an.2 | None => None end.

Definition reverse_add {rt : Runtime} (an : string * string) (d : Device) : Device :=
  match ParseIP an.1 with
  | Some ip => set_Reverse d (Reverse d ++ [ip])
  | None => d
  end.

Definition mapping_key {rt : Runtime} (cnames : gmap string string)
  (an : string * string) : option string :=
  match ParseIP an.1 with Some _ => cnames !! an.2 | None => None end.

Definition mapping_add {rt : Runtime} (an : string * string) (d : Device) : Device :=
  match ParseIP an.1 with
  | Some ip => set_Mapping d (<[an.2 := ip]> (Mapping d))
  | None => d
  end.

Definition detail_key (r : dns.RR) : option string := Some (dns.Name (dns.Hdr r)).

Definition detail_set (r : dns.RR) (d : Device) : Device :=
  match dns.Data r with
  | dns.TXT txt => set_Place d (strings.Join txt " ")
  | dns.HINFO cpu os => set_Model_Code d cpu os
  | dns.LOC _ _ _ _ latitude longitude altitude =>
      SetLocation d latitude longitude altitude
  | _ => d
  end.

(** The items of a pass applied one after the other to one device. *)
Definition rewrite_all {X : Type} (u : X -> Device -> Device) (l : list X)
  (d : Device) : Device :=
  fold_left (fun d x => u x d) l d.

(** The device [List] assembles at the key [k] from the address [a] of the
    first pass. *)
Definition assembled {rt : Runtime} (ptrs : gmap string string) (rr : list dns.RR)
  (k : string) (a : net.IP) : Device :=
  rewrite_all detail_set (items_at detail_key k rr)
    (rewrite_all mapping_add
       (items_at (mapping_key (first_pass rr).2) k (range ptrs))
       (rewrite_all reverse_add (items_at reverse_key k (range ptrs))
          (rewrite_all alias_add
             (items_at (alias_key (first_pass rr).1) k (range (first_pass rr).2))
             (fresh k a)))).

(** ** Reverse names *)

(** Whether a text has a given byte. *)
Definition has_char (c : ascii) (s : string) : bool :=
  existsb (Ascii.eqb c) (list_ascii_of_string s).

(** ** Decoding the records of a device *)

(** What one record does to the device [Decode] builds. *)
Definition decode_record (r : dns.RR) (d : Device) : Device :=
  let d := set_Name d (dns.Name (dns.Hdr r)) in
  match dns.Data r with
  | dns.A a => set_IP d (CopyIP a)
  | dns.TXT txt => set_Place d (strings.Join txt " ")
  | dns.HINFO cpu os => set_Model_Code d cpu os
  | dns.LOC _ _ _ _ latitude longitude altitude =>
      SetLocation d latitude longitude altitude
  | _ => d
  end.

(** The records of a request describe a device: decoded, they give its
    fully qualified name, its place, its model and its code. *)
Definition describes (d : Device) (rq : Request) : Prop :=
  Name (Service.Decode (rq_rr rq)) = dns.Fqdn (Name d) /\
  Place (Service.Decode (rq_rr rq)) = Place d /\
  Model (Service.Decode (rq_rr rq)) = Model d /\
  Code (Service.Decode (rq_rr rq)) = Code d.

(** ** The pointer table *)

(** The pointer of a record of the reverse zone [z] whose owner name reads
    as the address text [a]. *)
Definition pointer_of (z a : string) (r : dns.RR) : option string :=
  match dns.Data r with
  | dns.PTR ptr =>
      if String.eqb (ptr_address (dns.Name (dns.Hdr r)) z) a then Some ptr else None
  | _ => None
  end.

(** The pointers for an address text, in the order of the zones and of
    their transfers. *)
Definition pointers (zs : list (string * list dns.RR)) (a : string) : list string :=
  concat ((fun zr : string * list dns.RR => omap (pointer_of zr.1 a) zr.2) <$> zs).

(** ** Two devices for the comparison *)

(** A device with one reverse address besides its own, and the device that
    has that address as its own. *)
Definition multihomed : Device :=
  {| Name := "host.zone."; IP := [x0a; x00; x00; x01];
     Reverse := [[x0a; x00; x00; x02]]; Mapping := ∅; Aliases := [];
     Place := ""; Model := ""; Code := "";
     Latitude := 0%float; Longitude := 0%float; Height := 0%float |}.

Definition second_home : Device :=
  {| Name := "host.zone."; IP := [x0a; x00; x00; x02];
     Reverse := []; Mapping := ∅; Aliases := [];
     Place := ""; Model := ""; Code := "";
     Latitude := 0%float; Longitude := 0%float; Height := 0%float |}.

(** ** A site for the examples *)

(** The records of a forward zone: a host with its address, an alias, its
    place, its model and code and its location; and those of the reverse
    zone of 10.0.0.0/8: a pointer to the host and a pointer to the alias. *)
Definition site_forward : list dns.RR :=
  [soa "zone.";
   {| dns.Hdr := header "host.zone." dns.TypeA;
      dns.Data := dns.A [x0a; x00; x00; x01] |};
   {| dns.Hdr := header "alt.zone." dns.TypeCNAME;
      dns.Data := dns.CNAME "host.zone." |};
   {| dns.Hdr := header "host.zone." dns.TypeTXT;
      dns.Data := dns.TXT ["Main"; "Street"] |};
   {| dns.Hdr := header "host.zone." dns.TypeHINFO;
      dns.Data := dns.HINFO "model" "code" |};
   {| dns.Hdr := header "host.zone." dns.TypeLOC;
      dns.Data := dns.LOC 0 0x14 0x53 0x53 1998838068 2776697394 10002100 |};
   soa "zone."].

Definition site_reverse : list dns.RR :=
  [soa "10.in-addr.arpa.";
   {| dns.Hdr := header "1.0.0.10.in-addr.arpa." dns.TypePTR;
      dns.Data := dns.PTR "host.zone." |};
   {| dns.Hdr := header "2.0.0.10.in-addr.arpa." dns.TypePTR;
      dns.Data := dns.PTR "alt.zone." |};
   soa "10.in-addr.arpa."].

Definition site_ptrs : gmap string string :=
  ptr_table [("10.in-addr.arpa.", site_reverse)].

(** The first device [List] makes of them. *)
Definition site_device : Device :=
  default Device_zero
    (head (Service.correlate (rt := dotted_runtime) site_ptrs site_forward)).

(** Two devices that differ in their reverse addresses, aliases and
    mappings, for the examples of the update. *)
Definition before : Device :=
  {| Name := "host.zone."; IP := [x0a; x00; x00; x01];
     Reverse := [[x0a; x00; x00; x01]];
     Mapping := {["old.zone." := [xc0; xa8; x01; x05]]};
     Aliases := ["old.zone."];
     Place := ""; Model := ""; Code := "";
     Latitude := 0%float; Longitude := 0%float; Height := 0%float |}.

Definition after : Device :=
  {| Name := "host.zone."; IP := [x0a; x00; x00; x01];
     Reverse := [[x0a; x00; x00; x02]];
     Mapping := {["new.zone." := [xc0; xa8; x01; x06]]};
     Aliases := ["new.zone."];
     Place := ""; Model := ""; Code := "";
     Latitude := 0%float; Longitude := 0%float; Height := 0%float |}.

(** ** Two orders of iteration *)

(** A runtime whose [range] runs over the entries of a map in the reverse
    of the order of [dotted_runtime]. *)
Definition reversed_runtime : Runtime := {|
  ParseIP := parse.parseIPv4;
  range := fun V m => reverse (map_to_list m);
  range_perm := fun V m => reverse_Permutation _
|}.

(** Two addresses that point to one alias of a host. *)
Definition two_pointers : gmap string string :=
  {["10.0.0.2" := "alt.zone."; "10.0.0.3" := "alt.zone."]}.

Definition alias_forward : list dns.RR :=
  [{| dns.Hdr := header "host.zone." dns.TypeA;
      dns.Data := dns.A [x0a; x00; x00; x01] |};
   {| dns.Hdr := header "alt.zone." dns.TypeCNAME;
      dns.Data := dns.CNAME "host.zone." |}].

(** ** Zones for the examples of the correlation *)

(** The zones of [example_zones] with the alias record before the address
    record. *)
Definition alias_first_zones : list (string * list dns.RR) :=
  [("zone.",
    [soa "zone.";
     {| dns.Hdr := header "alt.zone." dns.TypeCNAME;
        dns.Data := dns.CNAME "host.zone." |};
     {| dns.Hdr := header "host.zone." dns.TypeA;
        dns.Data := dns.A [x0a; x00; x00; x01] |};
     soa "zone."]);
   ("168.192.in-addr.arpa.",
    [soa "168.192.in-addr.arpa.";
     {| dns.Hdr := header "5.1.168.192.in-addr.arpa." dns.TypePTR;
        dns.Data := dns.PTR "alt.zone." |};
     soa "168.192.in-addr.arpa."])].

(** The site as two zones of a name server. *)
Definition site_zones : list (string * list dns.RR) :=
  [("zone.", site_forward); ("10.in-addr.arpa.", site_reverse)].
(** * Properties *)

(** ** Equality of names, codes and addresses *)

Lemma EqualFold_refl (s : string) : strings.EqualFold s s = true.
Proof.
  induction s as [|c s IH]; simpl; [reflexivity|].
  rewrite Ascii.eqb_refl. exact IH.
Qed.

Lemma lower_swap_case (c : ascii) : strings.lower (swap_case c) = strings.lower c.
Proof.
  destruct c as [[] [] [] [] [] [] [] []]; reflexivity.
Qed.

Lemma EqualFold_case_variant (s t : string) :
  case_variant s t -> strings.EqualFold s t = true.
Proof.
  induction 1 as [|c s t _ IH|c s t _ IH]; simpl.
  - reflexivity.
  - now rewrite Ascii.eqb_refl.
  - now rewrite lower_swap_case, Ascii.eqb_refl.
Qed.

Lemma byte_eqb_refl (b : byte) : Byte.eqb b b = true.
Proof. now apply byte_dec_lb. Qed.

Lemma bytes_eqb_refl (x : list byte) : net.bytes_eqb x x = true.
Proof.
  induction x as [|b x IH]; simpl; [reflexivity|].
  now rewrite byte_eqb_refl.
Qed.

Lemma bytes_eqb_eq (x y : list byte) : net.bytes_eqb x y = true <-> x = y.
Proof.
  split; [|intros ->; apply bytes_eqb_refl].
  revert y; induction x as [|a x IH]; intros [|b y]; simpl; try discriminate; auto.
  intros [Hab Hxy]%andb_prop. apply byte_dec_bl in Hab. f_equal; auto.
Qed.

Lemma IP_Equal_refl (ip : net.IP) : net.Equal ip ip = true.
Proof.
  unfold net.Equal. rewrite Nat.eqb_refl. apply bytes_eqb_refl.
Qed.

(** ** C10: reflexivity of [Device.Equal] *)

(** C10. For every device [d], [d.Equal(d)] is true: the name, the primary
    address, the code, the model and the encoded location of a device each
    match themselves. *)
Theorem Equal_reflexive (d : Device) : Equal d d = true.
Proof.
  unfold Equal, HasName, HasAddress, HasCode, HasModel, AtLocation.
  rewrite !EqualFold_refl, IP_Equal_refl, String.eqb_refl. simpl.
  destruct (Location d) as [[la lo] a].
  now rewrite !Z.eqb_refl.
Qed.

(** ** C9: [Devices.Find] compares names exactly *)

Lemma find_name_first (l : list Device) (name : string) :
  match find_name l name with
  | Some d =>
      exists l1 l2, l = l1 ++ d :: l2 /\ Name d = name /\
                    Forall (fun x => Name x <> name) l1
  | None => Forall (fun x => Name x <> name) l
  end.
Proof.
  induction l as [|s rest IH]; simpl; [constructor|].
  destruct (String.eqb_spec (Name s) name) as [Heq|Hne].
  - exists [], rest. repeat split; [exact Heq | constructor].
  - destruct (find_name rest name) as [d|].
    + destruct IH as (l1 & l2 & -> & Hd & Hl1).
      exists (s :: l1), l2. repeat split; [exact Hd | now constructor].
    + now constructor.
Qed.

Lemma find_name_none (l : list Device) (name : string) :
  Forall (fun x => Name x <> name) l -> find_name l name = None.
Proof.
  induction 1 as [|s rest Hs _ IH]; simpl; [reflexivity|].
  now apply String.eqb_neq in Hs as ->.
Qed.

(** C9, as the code has it. [Find] returns the first device whose [Name] is
    the argument, byte for byte; when no device has exactly that name, and so
    when the devices differ from it in the case of letters, it returns none,
    while [HasName] accepts a name that differs in the case of letters. *)
Theorem Find_exact_match (inv : Devices) (name : string) :
  match Find inv name with
  | Some d =>
      exists l1 l2, List inv = l1 ++ d :: l2 /\ Name d = name /\
                    Forall (fun x => Name x <> name) l1
  | None => Forall (fun x => Name x <> name) (List inv)
  end
  /\ (Forall (fun x => Name x <> name) (List inv) -> Find inv name = None)
  /\ (forall d, case_variant (Name d) name -> HasName d name = true).
Proof.
  split; [apply find_name_first|].
  split; [apply find_name_none|].
  intros d Hcv. now apply EqualFold_case_variant.
Qed.

(** ** C6: decoding the RFC 1876 coordinates *)

Lemma SFdiv_opp_r (prec emax : Z) (x y : spec_float) :
  SFdiv prec emax x (SFopp y) = SFopp (SFdiv prec emax x y).
Proof.
  destruct x as [sx|sx| |sx mx ex], y as [sy|sy| |sy my ey]; simpl;
    rewrite <- ?negb_xorb_r; try reflexivity.
  destruct (SFdiv_core_binary prec emax (Z.pos mx) ex (Z.pos my) ey) as [[mz ez] lz].
  unfold binary_round_aux.
  destruct (shr_fexp prec emax mz ez lz) as [mrs' e'].
  destruct (shr_fexp prec emax _ e' loc_Exact) as [mrs'' e''].
  destruct (shr_m mrs'') as [|m|m]; simpl; try reflexivity.
  now destruct (e'' <=? emax - prec).
Qed.

Lemma float_div_opp_r (x y : float) : (x / - y = - (x / y))%float.
Proof.
  apply Prim2SF_inj.
  rewrite FloatAxioms.div_spec, !FloatAxioms.opp_spec, FloatAxioms.div_spec. apply SFdiv_opp_r.
Qed.

Lemma sub32_small (a b : Z) : 0 <= a - b < 2 ^ 32 -> sub32 a b = a - b.
Proof. intros Hr. unfold sub32. now apply Z.mod_small. Qed.

Lemma decode_latitude_spec (lat : Z) :
  0 <= lat < 2 ^ 32 -> decode_latitude lat = spec_latitude lat.
Proof.
  intros Hr. unfold decode_latitude, spec_latitude, LOC_EQUATOR.
  destruct (Z.ltb_spec (2 ^ 31) lat).
  - rewrite sub32_small by lia. reflexivity.
  - rewrite sub32_small by lia.
    change LOC_DEGREES with milliarcsecondsPerDegree. apply float_div_opp_r.
Qed.

Lemma decode_longitude_spec (lon : Z) :
  0 <= lon < 2 ^ 32 -> decode_longitude lon = spec_longitude lon.
Proof.
  intros Hr. unfold decode_longitude, spec_longitude, LOC_PRIMEMERIDIAN.
  destruct (Z.ltb_spec (2 ^ 31) lon).
  - rewrite sub32_small by lia. reflexivity.
  - rewrite sub32_small by lia.
    change LOC_DEGREES with milliarcsecondsPerDegree. apply float_div_opp_r.
Qed.

(** C6. For 32-bit unsigned [lat32], [lon32] and [alt32], [SetLocation] sets
    the latitude to [(lat32 - 2^31) / 3600000.0] when [lat32 > 2^31] and to
    [-((2^31 - lat32) / 3600000.0)] otherwise, the longitude by the same rule
    around [2^31], and the height to [alt32 / 100.0 - 100000.0], in binary64
    arithmetic; the other fields are left as they are. *)
Theorem SetLocation_decodes (d : Device) (lat32 lon32 alt32 : Z) :
  0 <= lat32 < 2 ^ 32 -> 0 <= lon32 < 2 ^ 32 -> 0 <= alt32 < 2 ^ 32 ->
  Latitude (SetLocation d lat32 lon32 alt32) = spec_latitude lat32 /\
  Longitude (SetLocation d lat32 lon32 alt32) = spec_longitude lon32 /\
  Height (SetLocation d lat32 lon32 alt32) = spec_height alt32 /\
  Name (SetLocation d lat32 lon32 alt32) = Name d /\
  IP (SetLocation d lat32 lon32 alt32) = IP d.
Proof.
  intros Hlat Hlon Halt. simpl.
  rewrite decode_latitude_spec, decode_longitude_spec by assumption.
  repeat split.
Qed.

Lemma SetLocation_decodes_witness :
  Latitude (SetLocation Device_zero 1998838068 2776697394 10002100)
  = spec_latitude 1998838068 /\
  spec_latitude 1998838068 = (-41.290438888888886)%float /\
  spec_longitude 2776697394 = 174.7815961111111%float /\
  spec_height 10002100 = 21%float.
Proof.
  split; [|repeat split; vm_compute; reflexivity].
  apply (SetLocation_decodes Device_zero 1998838068 2776697394 10002100); lia.
Defined.

(** ** C5: the size and precision bytes of a location record *)

Lemma cm2size_loop_spec (fuel : nat) (v e : Z) :
  0 <= v < 10 ^ Z.of_nat fuel -> 0 <= e -> e + Z.of_nat fuel < 2 ^ 32 ->
  exists k, 0 <= k <= Z.of_nat fuel /\
    cm2size_loop fuel v e = (v / 10 ^ k, e + k) /\
    v / 10 ^ k < 10 /\
    (forall j, 0 <= j < k -> 10 <= v / 10 ^ j).
Proof.
  revert v e. induction fuel as [|fuel IH]; intros v e Hv He Hfuel.
  - exists 0. simpl in *. rewrite Z.div_1_r, Z.add_0_r.
    repeat split; try lia.
  - simpl cm2size_loop. destruct (Z.leb_spec 10 v) as [Hge|Hlt].
    + assert (Hdiv : 0 <= v / 10 < 10 ^ Z.of_nat fuel).
      { split; [apply Z.div_pos; lia|].
        apply Z.div_lt_upper_bound; [lia|].
        rewrite <- Z.pow_succ_r by lia. now rewrite <- Nat2Z.inj_succ. }
      rewrite (Z.mod_small (e + 1)) by lia.
      destruct (IH (v / 10) (e + 1) Hdiv) as (k & Hk & Hloop & Hsmall & Hbig); [lia..|].
      assert (Hpow : forall j, 0 <= j -> v / 10 / 10 ^ j = v / 10 ^ (j + 1)).
      { intros j Hj. rewrite Z.div_div by lia.
        now rewrite Z.add_1_r, Z.pow_succ_r. }
      exists (k + 1). rewrite Hloop, Hpow in * by lia.
      repeat split; try lia.
      * f_equal. lia.
      * intros j Hj. destruct (Z.eq_dec j 0) as [->|Hj0].
        -- now rewrite Z.div_1_r.
        -- replace j with (j - 1 + 1) by lia. rewrite <- Hpow by lia.
           apply Hbig. lia.
    + exists 0. rewrite Z.div_1_r, Z.add_0_r. repeat split; try lia.
Qed.

Lemma cm2size_spec (cms : Z) :
  0 <= cms < 2 ^ 32 ->
  exists e, 0 <= e <= 9 /\ cms / 10 ^ e < 10 /\
    (forall j, 0 <= j < e -> 10 <= cms / 10 ^ j) /\
    cm2size cms = Z.lor (Z.shiftl (cms / 10 ^ e) 4) e.
Proof.
  intros Hr. unfold cm2size.
  destruct (cm2size_loop_spec 10 cms 0) as (k & Hk & -> & Hsmall & Hbig); [simpl; lia..|].
  assert (Hpos : 0 <= cms / 10 ^ k) by (apply Z.div_pos; lia).
  assert (Hk9 : k <= 9).
  { destruct (Z.eq_dec k 10) as [->|]; [|lia].
    specialize (Hbig 9 ltac:(lia)).
    assert (cms / 10 ^ 9 < 10) by (apply Z.div_lt_upper_bound; lia). lia. }
  exists k. repeat split; try lia; try assumption.
  simpl Z.add.
  set (m := cms / 10 ^ k) in *.
  assert (Hm : m = 0 \/ m = 1 \/ m = 2 \/ m = 3 \/ m = 4 \/ m = 5 \/ m = 6 \/
               m = 7 \/ m = 8 \/ m = 9) by lia.
  assert (Hke : k = 0 \/ k = 1 \/ k = 2 \/ k = 3 \/ k = 4 \/ k = 5 \/ k = 6 \/
               k = 7 \/ k = 8 \/ k = 9) by lia.
  clearbody m. clear -Hm Hke.
  repeat (destruct Hm as [->|Hm]); try subst m;
    repeat (destruct Hke as [->|Hke]); try subst k; reflexivity.
Qed.

(** C5, as the code has it. [cm2size] divides by 10 while the value is at
    least 10, counts the divisions as the exponent [e] and packs
    [(mantissa << 4) | e]. With the default values (size 10000 cm, precisions
    5000 cm) the location record of the device at latitude
    -41.290438888888886, longitude 174.7815961111111 and height 21 has size
    byte [0x14] and precision bytes [0x53], and its text is
    [41 17 25.580 S 174 46 53.746 E 21m 100m 50m 50m]. *)
Theorem ToLOC_default_size_and_precision :
  (forall cms, 0 <= cms < 2 ^ 32 ->
     exists e, 0 <= e <= 9 /\ cms / 10 ^ e < 10 /\
       (forall j, 0 <= j < e -> 10 <= cms / 10 ^ j) /\
       cm2size cms = Z.lor (Z.shiftl (cms / 10 ^ e) 4) e) /\
  dns.Data (ToLOC test_device)
  = dns.LOC 0 0x14 0x53 0x53 1998838068 2776697394 10002100 /\
  record_text (ToLOC test_device)
  = "41 17 25.580 S 174 46 53.746 E 21m 100m 50m 50m".
Proof.
  split; [exact cm2size_spec|].
  split; vm_compute; reflexivity.
Qed.

Lemma ToLOC_default_size_and_precision_witness :
  exists e, 0 <= e <= 9 /\ 10000 / 10 ^ e < 10 /\
    (forall j, 0 <= j < e -> 10 <= 10000 / 10 ^ j) /\
    cm2size 10000 = Z.lor (Z.shiftl (10000 / 10 ^ e) 4) e.
Proof.
  apply (proj1 ToLOC_default_size_and_precision 10000). lia.
Defined.

(** The bytes are not [0x19] and [0x13]. *)
Lemma ToLOC_size_bytes_counterexample :
  ~ (exists version latitude longitude altitude,
       dns.Data (ToLOC test_device)
       = dns.LOC version 0x19 0x13 0x13 latitude longitude altitude).
Proof.
  intros (v & la & lo & a & Heq). vm_compute in Heq. discriminate Heq.
Qed.

(** ** The loops of the update *)

Section update_loops.
Context {nw : Network} {rt : Runtime}.

Lemma bind_unfold {A B : Type} (m : M A) (f : A -> M B) (st : Net) :
  (m ≫= f) st =
  match m st with
  | (inl err, st') => (inl err, st')
  | (inr x, st') => f x st'
  end.
Proof. reflexivity. Qed.

Lemma bind_skip {B : Type} (m : M unit) (f : unit -> M B) (st : Net) :
  m st = (inr (), st) -> (m ≫= f) st = f () st.
Proof. intros Hm. now rewrite bind_unfold, Hm. Qed.

Lemma for_each_cons {A : Type} (x : A) (l : list A) (body : A -> M unit) (st : Net) :
  for_each (x :: l) body st =
  match body x st with
  | (inl err, st') => (inl err, st')
  | (inr _, st') => for_each l body st'
  end.
Proof.
  unfold for_each. simpl. rewrite bind_unfold.
  now destruct (body x st) as [[err|[]] st'].
Qed.

(** A loop whose body does nothing on every element does nothing. *)
Lemma for_each_skip {A : Type} (l : list A) (body : A -> M unit) (st : Net) :
  (forall x, x ∈ l -> body x st = (inr (), st)) ->
  for_each l body st = (inr (), st).
Proof.
  induction l as [|x l IH]; intros Hbody; [reflexivity|].
  rewrite for_each_cons, Hbody by set_solver.
  apply IH. intros y Hy. apply Hbody. set_solver.
Qed.

Lemma HasReverse_self (d : Device) (r : net.IP) :
  r ∈ Reverse d -> HasReverse d r = true.
Proof.
  intros Hr. apply existsb_exists. exists r.
  split; [now apply list_elem_of_In | apply IP_Equal_refl].
Qed.

Lemma HasAlias_self (d : Device) (a : string) :
  a ∈ Aliases d -> HasAlias d a = true.
Proof.
  intros Ha. apply existsb_exists. exists a.
  split; [now apply list_elem_of_In | apply String.eqb_refl].
Qed.

Lemma HasMapping_self (d : Device) (m : string) (i : net.IP) :
  (m, i) ∈ range (Mapping d) -> HasMapping d m i = true.
Proof.
  intros Hm. apply existsb_exists. exists (m, i).
  split; [now apply list_elem_of_In|].
  now rewrite String.eqb_refl, IP_Equal_refl.
Qed.

(** ** C3: nothing to do between a device and itself *)

(** C3. For every device [d], zone and ttl, [Update(zone, ttl, d, d)]
    attempts no insert and no remove in any of its three parts (reverse
    addresses, aliases, mappings) and returns a nil error: the state,
    with its record of the update requests, is the one it started from. *)
Theorem Update_same_device (s : Service) (zone : string) (ttl : Z) (d : Device)
  (st : Net) :
  Service.UpdateReverse s zone ttl d d st = (inr (), st) /\
  Service.UpdateAlias s zone ttl d d st = (inr (), st) /\
  Service.UpdateMapping s zone ttl d d st = (inr (), st) /\
  Service.Update s zone ttl d d st = (inr (), st).
Proof.
  assert (Hrev : Service.UpdateReverse s zone ttl d d st = (inr (), st)).
  { unfold Service.UpdateReverse.
    rewrite bind_skip; [rewrite bind_skip; [reflexivity|] |];
      apply for_each_skip;
      intros r Hr; now rewrite HasReverse_self. }
  assert (Hali : Service.UpdateAlias s zone ttl d d st = (inr (), st)).
  { unfold Service.UpdateAlias.
    rewrite bind_skip; [rewrite bind_skip; [reflexivity|] |];
      apply for_each_skip;
      intros r Hr; now rewrite HasAlias_self. }
  assert (Hmap : Service.UpdateMapping s zone ttl d d st = (inr (), st)).
  { unfold Service.UpdateMapping.
    rewrite bind_skip; [rewrite bind_skip; [reflexivity|] |];
      apply for_each_skip;
      intros [m i] Hm; now rewrite HasMapping_self. }
  repeat split; try assumption.
  unfold Service.Update. now rewrite !bind_skip.
Qed.

(** What [UpdateAlias] does for one alias that [to] has and [from] has
    not: the removal of the record set, then the insertion, of an alias
    record whose target is the name of [from]. *)
Lemma UpdateAlias_one_missing_alias (s : Service) (zone : string) (ttl : Z)
  (from to : Device) (r : string) (st : Net) :
  Aliases from = [] -> Aliases to = [r] ->
  Service.UpdateAlias s zone ttl from to st =
  (let cname := Service.cname_record (dns.Fqdn r) (dns.Fqdn (Name from)) in
   Service.RemoveRRset s zone [cname];; Service.Insert s zone [cname]) st.
Proof.
  intros Hfrom Hto. unfold Service.UpdateAlias, HasAlias.
  rewrite Hfrom, Hto. cbv zeta.
  rewrite bind_skip by reflexivity.
  rewrite bind_unfold, for_each_cons.
  change (existsb _ []) with false. cbv iota.
  rewrite !bind_unfold.
  destruct (Service.RemoveRRset s zone _ st) as [[err|[]] st1]; [reflexivity|].
  now destruct (Service.Insert s zone _ st1) as [[err|[]] st2].
Qed.

End update_loops.

(** ** C2: the private reverse zones *)

Lemma has_dot_cons (c : ascii) (s : string) :
  has_dot (String c s) = Ascii.eqb "." c || has_dot s.
Proof. reflexivity. Qed.

Lemma has_dot_app (a b : string) : has_dot (a +:+ b) = has_dot a || has_dot b.
Proof.
  induction a as [|c a IH]; simpl; [reflexivity|].
  unfold has_dot in *. simpl. now rewrite IH, orb_assoc.
Qed.

Lemma prefix_has_dot (p s : string) :
  has_dot p = true -> has_dot s = false -> String.prefix p s = false.
Proof.
  revert s. induction p as [|a p IH]; intros s Hp Hs; [discriminate|].
  destruct s as [|b s]; [reflexivity|]. simpl.
  unfold has_dot in *. simpl in *.
  apply orb_false_elim in Hs as [Hb Hs].
  destruct (ascii_dec a b) as [->|]; [|reflexivity].
  rewrite Hb in Hp. now apply IH.
Qed.

Lemma hex_at_not_dot (v : N) : Ascii.eqb "." (net.hex_at v) = false.
Proof.
  unfold net.hex_at. generalize (N.to_nat (N.land v 15)). intros n.
  do 17 (destruct n as [|n]; [reflexivity|]). reflexivity.
Qed.

Lemma has_dot_appendHex (dst : string) (i : N) :
  has_dot (net.appendHex dst i) = has_dot dst.
Proof.
  unfold net.appendHex. destruct (i =? 0)%N.
  - now rewrite has_dot_app, orb_false_r.
  - generalize [7; 6; 5; 4; 3; 2; 1; 0]%N. intros js. revert dst.
    induction js as [|j js IH]; intros dst; [reflexivity|]. simpl.
    rewrite IH. destruct (0 <? N.shiftr i (j * 4))%N; [|reflexivity].
    now rewrite has_dot_app, has_dot_cons, hex_at_not_dot, orb_false_r.
Qed.

Lemma has_dot_print_groups (fuel : nat) (p : net.IP) (e0 e1 i : Z) (b : string) :
  has_dot (net.print_groups fuel p e0 e1 i b) = has_dot b.
Proof.
  revert i b. induction fuel as [|fuel IH]; intros i b; [reflexivity|]. simpl.
  destruct (i <? 16); [|reflexivity].
  destruct (i =? e0).
  - destruct (16 <=? e1).
    + now rewrite has_dot_app, orb_false_r.
    + now rewrite IH, has_dot_appendHex, has_dot_app, orb_false_r.
  - rewrite IH, has_dot_appendHex.
    destruct (0 <? i); [|reflexivity].
    now rewrite has_dot_app, orb_false_r.
Qed.

Lemma has_dot_string6 (p : net.IP) : has_dot (net.string6 p) = false.
Proof.
  unfold net.string6.
  destruct (net.longest_zeros 8 p 0 (-1) (-1)) as [e0 e1].
  destruct (e1 - e0 <=? 2); apply has_dot_print_groups.
Qed.

Lemma has_dot_hexString (b : list byte) : has_dot (net.hexString b) = false.
Proof.
  induction b as [|tn b IH]; [reflexivity|]. simpl.
  now rewrite !has_dot_cons, !hex_at_not_dot, IH.
Qed.

(** The text of an address that is not IPv4 has no dot, and so starts with
    none of the three prefixes. *)
Lemma String_not_v4 (ip : net.IP) (p : string) :
  net.To4 ip = None -> has_dot p = true ->
  strings.HasPrefix (net.String ip) p = false.
Proof.
  intros Hv4 Hp. apply prefix_has_dot; [exact Hp|].
  unfold net.String. rewrite Hv4.
  destruct ip as [|b0 ip]; [reflexivity|].
  destruct (Nat.eqb _ _); [apply has_dot_string6|].
  rewrite has_dot_app. apply has_dot_hexString.
Qed.

Lemma To4_length (ip x : net.IP) : net.To4 ip = Some x -> length x = 4%nat.
Proof.
  unfold net.To4. destruct (Nat.eqb_spec (length ip) net.IPv4len) as [Hl|_].
  - now intros [= <-].
  - destruct (Nat.eqb_spec (length ip) net.IPv6len) as [Hl|_]; [|discriminate].
    simpl. destruct (net.bytes_eqb _ _); [|discriminate].
    intros [= <-]. rewrite length_drop, Hl. reflexivity.
Qed.

Lemma String_v4 (ip : net.IP) (a b c d : byte) :
  net.To4 ip = Some [a; b; c; d] -> net.String ip = dotted a b c d.
Proof.
  intros Hv4. unfold net.String. rewrite Hv4.
  destruct ip; [discriminate | reflexivity].
Qed.

(** Comparing the first decimal octet of a text with 10, 172, 16, 192 or
    168: by cases on the octet. *)
Lemma prefix_octet (k a : byte) (p rest : string) :
  In k [x0a; xac; x10; xc0; xa8] ->
  String.prefix (net.uitoa (Byte.to_N k) +:+ "." +:+ p)
                (net.uitoa (Byte.to_N a) +:+ "." +:+ rest)
  = Byte.eqb k a && String.prefix p rest.
Proof.
  intros [<-|[<-|[<-|[<-|[<-|[]]]]]]; destruct a; vm_compute; reflexivity.
Qed.

Lemma masked_ff (k a : byte) :
  (N.land (Byte.to_N k) (Byte.to_N xff) =? N.land (Byte.to_N a) (Byte.to_N xff))%N
  = Byte.eqb k a.
Proof.
  assert (Hff : forall b, N.land (Byte.to_N b) (Byte.to_N xff) = Byte.to_N b)
    by (intros b; destruct b; reflexivity).
  rewrite !Hff.
  destruct (Byte.eqb k a) eqn:Heq.
  - apply byte_dec_bl in Heq as ->. apply N.eqb_refl.
  - apply N.eqb_neq. intros Hn. apply eqb_false in Heq. apply Heq.
    apply (f_equal Byte.of_N) in Hn. rewrite !Byte.of_to_N in Hn. congruence.
Qed.

Lemma masked_00 (k a : byte) :
  (N.land (Byte.to_N k) (Byte.to_N x00) =? N.land (Byte.to_N a) (Byte.to_N x00))%N
  = true.
Proof. change (Byte.to_N x00) with 0%N. now rewrite !N.land_0_r. Qed.

Lemma masked_eqb_8 (n1 n2 n3 n4 a b c d : byte) :
  masked_eqb [n1; n2; n3; n4] [xff; x00; x00; x00] [a; b; c; d] = Byte.eqb n1 a.
Proof.
  change (masked_eqb [n1; n2; n3; n4] [xff; x00; x00; x00] [a; b; c; d]) with
    ((N.land (Byte.to_N n1) (Byte.to_N xff) =? N.land (Byte.to_N a) (Byte.to_N xff))%N
     && ((N.land (Byte.to_N n2) (Byte.to_N x00) =? N.land (Byte.to_N b) (Byte.to_N x00))%N
     && ((N.land (Byte.to_N n3) (Byte.to_N x00) =? N.land (Byte.to_N c) (Byte.to_N x00))%N
     && ((N.land (Byte.to_N n4) (Byte.to_N x00) =? N.land (Byte.to_N d) (Byte.to_N x00))%N
     && true)))).
  now rewrite masked_ff, !masked_00, andb_true_r.
Qed.

Lemma masked_eqb_16 (n1 n2 n3 n4 a b c d : byte) :
  masked_eqb [n1; n2; n3; n4] [xff; xff; x00; x00] [a; b; c; d]
  = Byte.eqb n1 a && Byte.eqb n2 b.
Proof.
  change (masked_eqb [n1; n2; n3; n4] [xff; xff; x00; x00] [a; b; c; d]) with
    ((N.land (Byte.to_N n1) (Byte.to_N xff) =? N.land (Byte.to_N a) (Byte.to_N xff))%N
     && ((N.land (Byte.to_N n2) (Byte.to_N xff) =? N.land (Byte.to_N b) (Byte.to_N xff))%N
     && ((N.land (Byte.to_N n3) (Byte.to_N x00) =? N.land (Byte.to_N c) (Byte.to_N x00))%N
     && ((N.land (Byte.to_N n4) (Byte.to_N x00) =? N.land (Byte.to_N d) (Byte.to_N x00))%N
     && true)))).
  now rewrite !masked_ff, !masked_00, andb_true_r.
Qed.

(** The routing on IPv4 addresses, octet by octet. *)
Lemma findPrivateZone_v4 (a b c d : byte) (ip : net.IP) (zone : string) :
  net.To4 ip = Some [a; b; c; d] ->
  findPrivateZone ip zone =
  if Byte.eqb x0a a then "10.in-addr.arpa."
  else if Byte.eqb xac a && Byte.eqb x10 b then "16.172.in-addr.arpa."
  else if Byte.eqb xc0 a && Byte.eqb xa8 b then "168.192.in-addr.arpa."
  else zone.
Proof.
  intros Hv4. unfold findPrivateZone, strings.HasPrefix.
  rewrite (String_v4 _ _ _ _ _ Hv4). unfold dotted.
  change "10." with (net.uitoa (Byte.to_N x0a) +:+ "." +:+ "").
  change "172.16." with
    (net.uitoa (Byte.to_N xac) +:+ "." +:+ net.uitoa (Byte.to_N x10) +:+ "." +:+ "").
  change "192.168." with
    (net.uitoa (Byte.to_N xc0) +:+ "." +:+ net.uitoa (Byte.to_N xa8) +:+ "." +:+ "").
  rewrite !prefix_octet by (simpl; tauto).
  assert (Hnil : forall x, String.prefix "" x = true) by (now intros []).
  rewrite !Hnil, !andb_true_r. reflexivity.
Qed.

Lemma findPrivateZone_not_v4 (ip : net.IP) (zone : string) :
  net.To4 ip = None -> findPrivateZone ip zone = zone.
Proof.
  intros Hv4. unfold findPrivateZone.
  now rewrite !String_not_v4.
Qed.

Lemma findPrivateZone_networks (ip : net.IP) (zone : string) :
  findPrivateZone ip zone =
  if in_10_8 ip then "10.in-addr.arpa."
  else if in_172_16_16 ip then "16.172.in-addr.arpa."
  else if in_192_168_16 ip then "168.192.in-addr.arpa."
  else zone.
Proof.
  unfold in_10_8, in_172_16_16, in_192_168_16, in_network.
  destruct (net.To4 ip) as [x|] eqn:Hv4; [|now apply findPrivateZone_not_v4].
  pose proof (To4_length _ _ Hv4) as Hlen.
  destruct x as [|a [|b [|c [|d [|? ?]]]]]; try discriminate Hlen.
  rewrite (findPrivateZone_v4 _ _ _ _ _ _ Hv4).
  now rewrite masked_eqb_8, !masked_eqb_16.
Qed.

Section sent_requests.
Context {nw : Network} {rt : Runtime}.

Lemma sends_ret {A : Type} (P : Request -> Prop) (x : A) : sends P (mret x).
Proof. intros st. exists []. now rewrite app_nil_r. Qed.

Lemma sends_bind {A B : Type} (P : Request -> Prop) (m : M A) (f : A -> M B) :
  sends P m -> (forall x, sends P (f x)) -> sends P (m ≫= f).
Proof.
  intros Hm Hf st. rewrite bind_unfold.
  destruct (Hm st) as (new1 & Hsent1 & Hnew1).
  destruct (m st) as [[err|x] st1]; [now exists new1|].
  destruct (Hf x st1) as (new2 & Hsent2 & Hnew2).
  exists (new1 ++ new2). simpl in *.
  rewrite Hsent2, Hsent1, app_assoc. split; [reflexivity|].
  now apply Forall_app.
Qed.

Lemma sends_for_each {A : Type} (P : Request -> Prop) (l : list A)
  (body : A -> M unit) :
  (forall x, x ∈ l -> sends P (body x)) -> sends P (for_each l body).
Proof.
  induction l as [|x l IH]; intros Hbody; [apply (sends_ret P ())|].
  intros st. rewrite for_each_cons.
  destruct (Hbody x ltac:(set_solver) st) as (new1 & Hsent1 & Hnew1).
  destruct (body x st) as [[err|[]] st1]; [now exists new1|].
  destruct (IH ltac:(intros y Hy; apply Hbody; set_solver) st1)
    as (new2 & Hsent2 & Hnew2).
  exists (new1 ++ new2). simpl in *.
  rewrite Hsent2, Hsent1, app_assoc. split; [reflexivity|].
  now apply Forall_app.
Qed.

Lemma sends_exchange (P : Request -> Prop) (s : Service) (rq : Request) :
  P rq -> sends P (Service.exchange s rq).
Proof.
  intros Hrq st. exists [rq]. unfold Service.exchange.
  destruct (update s rq (world st)) as [r w]. simpl.
  split; [reflexivity | now constructor].
Qed.

Lemma range_lookup {V : Type} (m : gmap string V) (k : string) (v : V) :
  (k, v) ∈ range m <-> m !! k = Some v.
Proof. rewrite (range_perm V m). apply elem_of_map_to_list. Qed.

(** C2, as the code has it. The routing maps an address of 10.0.0.0/8 to
    [10.in-addr.arpa.], an address of 172.16.0.0/16 (not of the whole of
    172.16.0.0/12) to [16.172.in-addr.arpa.], an address of 192.168.0.0/16
    to [168.192.in-addr.arpa.], and returns the zone of the caller for
    every other address. Every request [UpdateReverse] and [UpdateMapping]
    send is for an address whose computed zone differs from the zone of
    the caller: an address whose computed zone is that zone is skipped.
    When that is so of every address of the two devices, nothing is sent
    and the result is nil. *)
Theorem findPrivateZone_routing (s : Service) (zone : string) (ttl : Z)
  (from to : Device) (ip : net.IP) :
  findPrivateZone ip zone =
    (if in_10_8 ip then "10.in-addr.arpa."
     else if in_172_16_16 ip then "16.172.in-addr.arpa."
     else if in_192_168_16 ip then "168.192.in-addr.arpa."
     else zone) /\
  sends (reverse_update zone (fun r => r ∈ Reverse from \/ r ∈ Reverse to))
    (Service.UpdateReverse s zone ttl from to) /\
  sends (reverse_update zone
           (fun r => exists m, Mapping from !! m = Some r \/ Mapping to !! m = Some r))
    (Service.UpdateMapping s zone ttl from to) /\
  ((forall r, r ∈ Reverse from \/ r ∈ Reverse to -> findPrivateZone r zone = zone) ->
   forall st, Service.UpdateReverse s zone ttl from to st = (inr (), st)) /\
  ((forall m r, Mapping from !! m = Some r \/ Mapping to !! m = Some r ->
                findPrivateZone r zone = zone) ->
   forall st, Service.UpdateMapping s zone ttl from to st = (inr (), st)).
Proof.
  split; [apply findPrivateZone_networks|].
  split; [|split; [|split]]; cycle 2.
  - intros Hskip st. unfold Service.UpdateReverse.
    rewrite bind_skip; [rewrite bind_skip; [reflexivity|] |];
      apply for_each_skip; intros r Hr;
      destruct (HasReverse _ r); try reflexivity;
      rewrite (Hskip r) by tauto; now rewrite String.eqb_refl.
  - intros Hskip st. unfold Service.UpdateMapping.
    rewrite bind_skip; [rewrite bind_skip; [reflexivity|] |];
      apply for_each_skip; intros [m i] Hm%range_lookup;
      destruct (HasMapping _ m i); try reflexivity;
      rewrite (Hskip m i) by tauto; now rewrite String.eqb_refl.
  - unfold Service.UpdateReverse.
    apply sends_bind;
      [|intros _; apply sends_bind; [|intros _; apply sends_ret]].
    + apply sends_for_each. intros r Hr.
      destruct (HasReverse to r); [apply sends_ret|].
      destruct (String.eqb_spec (findPrivateZone r zone) zone) as [|Hz];
        [apply sends_ret|].
      apply sends_exchange. exists r. repeat split; eauto.
    + apply sends_for_each. intros r Hr.
      destruct (HasReverse from r); [apply sends_ret|].
      destruct (String.eqb_spec (findPrivateZone r zone) zone) as [|Hz];
        [apply sends_ret|].
      apply sends_bind; [|intros _];
        apply sends_exchange; exists r; repeat split; eauto.
  - unfold Service.UpdateMapping.
    apply sends_bind;
      [|intros _; apply sends_bind; [|intros _; apply sends_ret]].
    + apply sends_for_each. intros [m i] Hm%range_lookup.
      destruct (HasMapping to m i); [apply sends_ret|].
      destruct (String.eqb_spec (findPrivateZone i zone) zone) as [|Hz];
        [apply sends_ret|].
      apply sends_exchange. exists i. repeat split; eauto.
    + apply sends_for_each. intros [m i] Hm%range_lookup.
      destruct (HasMapping from m i); [apply sends_ret|].
      destruct (String.eqb_spec (findPrivateZone i zone) zone) as [|Hz];
        [apply sends_ret|].
      apply sends_bind; [|intros _];
        apply sends_exchange; exists i; repeat split; eauto.
Qed.

End sent_requests.

(** 172.17.0.1 is an address of 172.16.0.0/12 that is not routed to
    [16.172.in-addr.arpa.]. *)
Lemma findPrivateZone_172_17_counterexample :
  ~ (forall (ip : net.IP) (zone : string),
       in_172_16_12 ip = true -> findPrivateZone ip zone = "16.172.in-addr.arpa.").
Proof.
  intros Hclaim.
  specialize (Hclaim [xac; x11; x00; x01] "example.org." eq_refl).
  vm_compute in Hclaim. discriminate Hclaim.
Qed.

(** ** C8: a failed transfer aborts the build *)

Section transfers.
Context {nw : Network} {rt : Runtime}.
Variable s : Service.

Lemma foldM_cons {A S : Type} (f : S -> A -> M S) (x : A) (l : list A) (acc : S)
  (st : Net) :
  foldM f (x :: l) acc st =
  match f acc x st with
  | (inl err, st') => (inl err, st')
  | (inr acc', st') => foldM f l acc' st'
  end.
Proof. reflexivity. Qed.

Lemma transfer_step_unfold {S : Type} (g : S -> string -> list dns.RR -> S)
  (acc : S) (z : string) (st : Net) :
  transfer_step s g acc z st =
  match Service.Transfer s z st with
  | (inl err, st') => (inl err, st')
  | (inr rr, st') => (inr (g acc z rr), st')
  end.
Proof. reflexivity. Qed.

Lemma transfers_cons (z : string) (zs : list string) (st : Net) :
  transfers s (z :: zs) st =
  match Service.Transfer s z st with
  | (inl err, st') => (inl err, st')
  | (inr rr, st') =>
      match transfers s zs st' with
      | (inl err, st'') => (inl err, st'')
      | (inr rrs, st'') => (inr (rr :: rrs), st'')
      end
  end.
Proof.
  simpl. rewrite bind_unfold.
  destruct (Service.Transfer s z st) as [[err|rr] st']; [reflexivity|].
  now rewrite bind_unfold.
Qed.

Lemma foldM_transfers_ok {S : Type} (g : S -> string -> list dns.RR -> S)
  (zs : list string) (acc : S) (st st1 : Net) (rrs : list (list dns.RR)) :
  transfers s zs st = (inr rrs, st1) ->
  exists acc', foldM (transfer_step s g) zs acc st = (inr acc', st1).
Proof.
  revert acc st rrs. induction zs as [|z zs IH]; intros acc st rrs.
  - intros [= _ <-]. now exists acc.
  - rewrite transfers_cons, foldM_cons, transfer_step_unfold.
    destruct (Service.Transfer s z st) as [[err|rr] st0]; [discriminate|].
    destruct (transfers s zs st0) as [[err|rrs0] st2] eqn:Hrest; [discriminate|].
    intros [= _ <-]. eapply IH, Hrest.
Qed.

Lemma foldM_transfers_fail {S : Type} (g : S -> string -> list dns.RR -> S)
  (pre post : list string) (z : string) (acc : S) (st st1 st2 : Net)
  (rrs : list (list dns.RR)) (err : error) :
  transfers s pre st = (inr rrs, st1) ->
  Service.Transfer s z st1 = (inl err, st2) ->
  foldM (transfer_step s g) (pre ++ z :: post) acc st = (inl err, st2).
Proof.
  revert acc st rrs. induction pre as [|z0 pre IH]; intros acc st rrs.
  - intros [= _ <-] Hz. simpl app.
    now rewrite foldM_cons, transfer_step_unfold, Hz.
  - simpl app. rewrite transfers_cons, foldM_cons, transfer_step_unfold.
    destruct (Service.Transfer s z0 st) as [[e0|rr] st0]; [discriminate|].
    destruct (transfers s pre st0) as [[e0|rrs0] st3] eqn:Hrest; [discriminate|].
    intros [= _ <-] Hz. eapply IH; eauto.
Qed.

Lemma transfers_app (l1 l2 : list string) (st st1 : Net)
  (rrs : list (list dns.RR)) :
  transfers s (l1 ++ l2) st = (inr rrs, st1) ->
  exists rrs1 rrs2 stm,
    transfers s l1 st = (inr rrs1, stm) /\ transfers s l2 stm = (inr rrs2, st1).
Proof.
  revert st rrs. induction l1 as [|z l1 IH]; intros st rrs.
  - intros Hl2. now exists [], rrs, st.
  - simpl app. rewrite !transfers_cons.
    destruct (Service.Transfer s z st) as [[e0|rr] st0]; [discriminate|].
    destruct (transfers s (l1 ++ l2) st0) as [[e0|rrs0] st3] eqn:Hrest;
      [discriminate|].
    intros [= _ <-].
    destruct (IH _ _ Hrest) as (rrs1 & rrs2 & stm & H1 & H2).
    exists (rr :: rrs1), rrs2, stm. rewrite H1. now split.
Qed.

Lemma reverse_lookups_step (reverse : list string) :
  Service.reverse_lookups s reverse =
  foldM (transfer_step s (fun ptrs z rr => fold_left (Service.collect_ptr z) rr ptrs))
    reverse ∅.
Proof. reflexivity. Qed.

Lemma recover_entries_step (zones : list string) :
  Service.recover_entries s zones =
  foldM (transfer_step s (fun rr _ r => rr ++ r)) zones [].
Proof. reflexivity. Qed.

(** [List], from its two loops. *)
Lemma List_unfold (zones reverse : list string) (st : Net) :
  Service.List s zones reverse st =
  match Service.reverse_lookups s reverse st with
  | (inl err, st1) => (([], Some err), st1)
  | (inr ptrs, st1) =>
      match Service.recover_entries s zones st1 with
      | (inl err, st2) => (([], Some err), st2)
      | (inr rr, st2) => ((Service.correlate ptrs rr, None), st2)
      end
  end.
Proof.
  unfold Service.List. rewrite bind_unfold.
  destruct (Service.reverse_lookups s reverse st) as [[err|ptrs] st1];
    [reflexivity|].
  rewrite bind_unfold.
  now destruct (Service.recover_entries s zones st1) as [[err|rr] st2].
Qed.

(** C8. When a zone transfer fails during [List], of a reverse zone or of
    a forward zone, after the transfers before it went through, [List]
    returns that error and no device: the list is nil. The zones are
    transferred in the order [reverse], then [zones]. *)
Theorem List_aborts_on_failed_transfer (zones reverse pre post : list string)
  (z : string) (err : error) (rrs : list (list dns.RR)) (st st1 st2 : Net) :
  reverse ++ zones = pre ++ z :: post ->
  transfers s pre st = (inr rrs, st1) ->
  Service.Transfer s z st1 = (inl err, st2) ->
  Service.List s zones reverse st = (([], Some err), st2).
Proof.
  intros Hsplit Hpre Hz. rewrite List_unfold.
  rewrite reverse_lookups_step, recover_entries_step.
  apply app_eq_app in Hsplit as [l [[-> Hzones]|[-> Hzones]]].
  - (* the failing zone is a reverse zone, or the first forward zone *)
    destruct l as [|z' l].
    + rewrite app_nil_r in *. simpl in Hzones. subst zones.
      destruct (foldM_transfers_ok
                  (fun ptrs z rr => fold_left (Service.collect_ptr z) rr ptrs)
                  pre ∅ st st1 rrs Hpre) as [ptrs ->].
      now rewrite (foldM_transfers_fail _ [] post z [] st1 st1 st2 [] err eq_refl Hz).
    + injection Hzones as <- ->.
      now rewrite (foldM_transfers_fail _ pre l z ∅ st st1 st2 rrs err Hpre Hz).
  - (* every reverse zone is in [pre] *)
    apply transfers_app in Hpre as (rrs1 & rrs2 & stm & Hrev & Hl).
    destruct (foldM_transfers_ok
                (fun ptrs z rr => fold_left (Service.collect_ptr z) rr ptrs)
                reverse ∅ st stm rrs1 Hrev) as [ptrs ->].
    rewrite Hzones.
    now rewrite (foldM_transfers_fail _ l post z [] stm st1 st2 rrs2 err Hl Hz).
Qed.
End transfers.

(** ** The order of names *)

Lemma string_le_iff (a b : string) :
  string_le a b <-> a = b \/ String_as_OT.lt a b.
Proof.
  unfold string_le, String.leb.
  change (String.compare a b) with (String_as_OT.cmp a b).
  destruct (String_as_OT.cmp a b) eqn:Hc.
  - apply String_as_OT.cmp_eq in Hc. tauto.
  - apply String_as_OT.cmp_lt in Hc. tauto.
  - split; [discriminate|]. intros [->|Hlt].
    + assert (String_as_OT.cmp b b = Eq) by now apply String_as_OT.cmp_eq.
      congruence.
    + apply String_as_OT.cmp_lt in Hlt. congruence.
Qed.

#[local] Instance string_le_trans : Transitive string_le.
Proof.
  intros a b c [->|Hab]%string_le_iff [->|Hbc]%string_le_iff;
    apply string_le_iff; auto.
  right. eapply String_as_OT.lt_trans; eauto.
Qed.

#[local] Instance string_le_total : Total string_le.
Proof. intros a b. apply String.leb_total. Qed.

#[local] Instance string_le_antisym : AntiSymm (=) string_le.
Proof. intros a b. apply String.leb_antisym. Qed.

(** The order is the lexicographic one on the codes of the bytes: a proper
    prefix comes first, and otherwise the first bytes that differ decide. *)
Lemma string_le_lexicographic (a b : ascii) (s t : string) :
  string_le "" s /\
  ~ string_le (String a s) "" /\
  (string_le (String a s) (String b t) <->
   (N_of_ascii a < N_of_ascii b)%N \/ (a = b /\ string_le s t)).
Proof.
  unfold string_le, String.leb. split; [now destruct s|]. split; [discriminate|].
  simpl. unfold Ascii.compare.
  destruct (N.compare_spec (N_of_ascii a) (N_of_ascii b)) as [Heq|Hlt|Hgt].
  - apply (f_equal ascii_of_N) in Heq. rewrite !ascii_N_embedding in Heq.
    subst b. split; [intros Hst; right; now split | intros [Hlt|[_ Hst]]]; [lia|exact Hst].
  - split; [now left | reflexivity].
  - split; [discriminate|]. intros [Hlt|[-> _]]; lia.
Qed.

(** Whatever the sorting algorithm, the result is this list: the sorted
    permutation of the keys is unique. *)
Lemma Strings_unique (keys sorted : list string) :
  StronglySorted string_le sorted -> sorted ≡ₚ keys -> sorted = sort.Strings keys.
Proof.
  intros Hsorted Hperm. apply (StronglySorted_unique string_le); [exact Hsorted| |].
  - apply StronglySorted_merge_sort; apply _.
  - unfold sort.Strings. now rewrite merge_sort_Permutation.
Qed.

Lemma Strings_sorted (keys : list string) :
  StronglySorted string_le (sort.Strings keys) /\ sort.Strings keys ≡ₚ keys.
Proof.
  split; [apply StronglySorted_merge_sort; apply _ | apply merge_sort_Permutation].
Qed.

(** ** The correlation of [List] *)

Section correlation.
Context {nw : Network} {rt : Runtime}.

Lemma fold_left_inv {A B : Type} (P : A -> Prop) (f : A -> B -> A) (l : list B)
  (a : A) :
  P a -> (forall a b, P a -> P (f a b)) -> P (fold_left f l a).
Proof.
  intros Ha Hf. revert a Ha. induction l as [|b l IH]; intros a Ha; simpl; auto.
Qed.

Lemma well_keyed_update (devices : gmap string Device) (n : string) (d d' : Device) :
  well_keyed devices -> devices !! n = Some d ->
  Name d' = Name d ->
  (forall c, c ∈ Aliases d' -> devices !! c = None) ->
  well_keyed (<[n := d']> devices).
Proof.
  intros Hwk Hn Hname Hali k x Hk.
  destruct (decide (n = k)) as [->|Hne].
  - rewrite lookup_insert_eq in Hk. injection Hk as <-.
    split; [rewrite Hname; now apply (Hwk k d)|].
    intros c Hc. specialize (Hali c Hc).
    rewrite lookup_insert_ne; [exact Hali | congruence].
  - rewrite lookup_insert_ne in Hk by exact Hne.
    destruct (Hwk k x Hk) as [Hkn Hka]. split; [exact Hkn|].
    intros c Hc. specialize (Hka c Hc).
    rewrite lookup_insert_ne; [exact Hka | congruence].
Qed.

Lemma well_keyed_same_aliases (devices : gmap string Device) (n : string)
  (d d' : Device) :
  well_keyed devices -> devices !! n = Some d ->
  Name d' = Name d -> Aliases d' = Aliases d ->
  well_keyed (<[n := d']> devices).
Proof.
  intros Hwk Hn Hname Hali. eapply well_keyed_update; eauto.
  rewrite Hali. now apply (Hwk n d).
Qed.

(** After the search for A and CNAME records: every device sits at its
    name and has no alias yet. *)
Lemma search_record_fresh (rr : list dns.RR) :
  forall k d, (fold_left Service.search_record rr (∅, ∅)).1 !! k = Some d ->
              Name d = k /\ Aliases d = [].
Proof.
  apply (fold_left_inv
           (fun acc => forall k d, acc.1 !! k = Some d -> Name d = k /\ Aliases d = [])).
  - intros k d Hk. simpl in Hk. now rewrite lookup_empty in Hk.
  - intros [devices cnames] r Hacc k d. unfold Service.search_record.
    destruct (dns.Data r); simpl; try apply Hacc.
    destruct (decide (dns.Name (dns.Hdr r) = k)) as [->|Hne].
    + rewrite lookup_insert_eq. now intros [= <-].
    + rewrite lookup_insert_ne by exact Hne. apply Hacc.
Qed.

Lemma gather_alias_well_keyed (devices : gmap string Device) (cn : string * string) :
  well_keyed devices -> well_keyed (Service.gather_alias devices cn).
Proof.
  intros Hwk. destruct cn as [c n]. unfold Service.gather_alias.
  destruct (devices !! c) eqn:Hc; [exact Hwk|].
  destruct (devices !! n) as [d|] eqn:Hn; [|exact Hwk].
  eapply well_keyed_update; eauto.
  intros c' [Hc'|Hc']%elem_of_app.
  - now apply (Hwk n d).
  - apply list_elem_of_singleton in Hc' as ->. exact Hc.
Qed.

Lemma gather_reverse_well_keyed (devices : gmap string Device) (an : string * string) :
  well_keyed devices -> well_keyed (Service.gather_reverse devices an).
Proof.
  intros Hwk. destruct an as [a n]. unfold Service.gather_reverse.
  destruct (ParseIP a); [|exact Hwk].
  destruct (devices !! n) as [d|] eqn:Hn; [|exact Hwk].
  eapply well_keyed_same_aliases; eauto.
Qed.

Lemma gather_mapping_well_keyed (cnames : gmap string string)
  (devices : gmap string Device) (an : string * string) :
  well_keyed devices -> well_keyed (Service.gather_mapping cnames devices an).
Proof.
  intros Hwk. destruct an as [a n]. unfold Service.gather_mapping.
  destruct (ParseIP a); [|exact Hwk].
  destruct (cnames !! n) as [c|]; [|exact Hwk].
  destruct (devices !! c) as [d|] eqn:Hc; [|exact Hwk].
  eapply well_keyed_same_aliases; eauto.
Qed.

Lemma gather_detail_well_keyed (devices : gmap string Device) (r : dns.RR) :
  well_keyed devices -> well_keyed (Service.gather_detail devices r).
Proof.
  intros Hwk. unfold Service.gather_detail.
  destruct (devices !! dns.Name (dns.Hdr r)) as [d|] eqn:Hn; [|exact Hwk].
  eapply well_keyed_same_aliases; eauto; now destruct (dns.Data r).
Qed.

Lemma correlate_sorted_devices (ptrs : gmap string string) (rr : list dns.RR) :
  Service.correlate ptrs rr = Service.sorted_devices (correlated ptrs rr).
Proof.
  unfold Service.correlate, correlated.
  now destruct (fold_left Service.search_record rr (∅, ∅)).
Qed.

Lemma correlated_well_keyed (ptrs : gmap string string) (rr : list dns.RR) :
  well_keyed (correlated ptrs rr).
Proof.
  unfold correlated.
  pose proof (search_record_fresh rr) as Hfresh.
  destruct (fold_left Service.search_record rr (∅, ∅)) as [devices cnames].
  simpl in Hfresh.
  apply fold_left_inv; [|intros; now apply gather_detail_well_keyed].
  apply fold_left_inv; [|intros; now apply gather_mapping_well_keyed].
  apply fold_left_inv; [|intros; now apply gather_reverse_well_keyed].
  apply fold_left_inv; [|intros; now apply gather_alias_well_keyed].
  intros k d Hk. destruct (Hfresh k d Hk) as [Hname Hali].
  split; [exact Hname|]. rewrite Hali. intros c Hc. inversion Hc.
Qed.

Lemma range_keys {V : Type} (m : gmap string V) :
  NoDup (range m).*1 /\ forall k, k ∈ (range m).*1 <-> is_Some (m !! k).
Proof.
  split.
  - rewrite (range_perm V m). apply NoDup_fst_map_to_list.
  - intros k. rewrite (range_perm V m), list_elem_of_fmap. split.
    + intros ([k' v] & -> & Hkv%elem_of_map_to_list). now exists v.
    + intros [v Hv]. exists (k, v). split; [reflexivity|].
      now apply elem_of_map_to_list.
Qed.

(** The sorted array holds, for each key in ascending order, the device
    at that key. *)
Lemma sorted_devices_names (devices : gmap string Device) :
  well_keyed devices ->
  Name <$> Service.sorted_devices devices = sort.Strings (range devices).*1 /\
  forall d, d ∈ Service.sorted_devices devices -> devices !! Name d = Some d.
Proof.
  intros Hwk. unfold Service.sorted_devices.
  destruct (Strings_sorted (range devices).*1) as [_ Hperm].
  destruct (range_keys devices) as [_ Hkeys].
  assert (Hin : forall k, k ∈ sort.Strings (range devices).*1 ->
                          exists d, devices !! k = Some d /\ devices !!! k = d /\ Name d = k).
  { intros k Hk. rewrite Hperm in Hk. apply Hkeys in Hk as [d Hd].
    exists d. split; [exact Hd|]. split; [now apply lookup_total_correct|].
    now apply (Hwk k d). }
  split.
  - rewrite <- list_fmap_compose.
    rewrite <- (list_fmap_id (sort.Strings _)) at 2.
    apply list_fmap_ext. intros i k Hik.
    destruct (Hin k) as (d & _ & Hd & Hname);
      [now apply list_elem_of_lookup_2 in Hik|].
    simpl. now rewrite Hd.
  - intros d (k & -> & Hk)%list_elem_of_fmap.
    destruct (Hin k Hk) as (d & Hlook & -> & <-). exact Hlook.
Qed.

(** C7. For every record set the transfers deliver, the device list
    [List] returns is sorted by name in ascending byte-wise lexicographic
    order, and no name occurs twice in it. *)
Theorem List_sorted_by_name (s : Service) (zones reverse : list string) (st : Net) :
  StronglySorted string_le (Name <$> (Service.List s zones reverse st).1.1) /\
  NoDup (Name <$> (Service.List s zones reverse st).1.1).
Proof.
  rewrite List_unfold.
  destruct (Service.reverse_lookups s reverse st) as [[err|ptrs] st1];
    [split; constructor|].
  destruct (Service.recover_entries s zones st1) as [[err|rr] st2];
    [split; constructor|].
  simpl. rewrite correlate_sorted_devices.
  destruct (sorted_devices_names _ (correlated_well_keyed ptrs rr)) as [-> _].
  destruct (Strings_sorted (range (correlated ptrs rr)).*1) as [Hsorted Hperm].
  split; [exact Hsorted|].
  rewrite Hperm. apply range_keys.
Qed.

Lemma range_singleton {V : Type} (k : string) (v : V) :
  range ({[k := v]} : gmap string V) = [(k, v)].
Proof.
  apply Permutation_singleton_r.
  now rewrite (range_perm V), map_to_list_singleton.
Qed.

Lemma Strings_singleton (k : string) : sort.Strings [k] = [k].
Proof.
  apply Permutation_singleton_r. apply merge_sort_Permutation.
Qed.

(** ** Records of types that [List] does not look at *)

Lemma fold_left_significant {A : Type} (f : A -> dns.RR -> A) (rr : list dns.RR)
  (a : A) :
  (forall a r, significant r = false -> f a r = a) ->
  fold_left f rr a = fold_left f (List.filter significant rr) a.
Proof.
  intros Hskip. revert a. induction rr as [|r rr IH]; intros a; [reflexivity|].
  simpl. destruct (significant r) eqn:Hr; simpl.
  - apply IH.
  - rewrite (Hskip a r Hr). apply IH.
Qed.

Lemma collect_ptr_other (z : string) (ptrs : gmap string string) (r : dns.RR) :
  significant r = false -> Service.collect_ptr z ptrs r = ptrs.
Proof.
  unfold significant, Service.collect_ptr. now destruct (dns.Data r).
Qed.

Lemma search_record_other (acc : gmap string Device * gmap string string)
  (r : dns.RR) :
  significant r = false -> Service.search_record acc r = acc.
Proof.
  unfold significant, Service.search_record. destruct acc.
  now destruct (dns.Data r).
Qed.

Lemma gather_detail_other (devices : gmap string Device) (r : dns.RR) :
  significant r = false -> Service.gather_detail devices r = devices.
Proof.
  unfold significant, Service.gather_detail. intros Hr.
  destruct (devices !! dns.Name (dns.Hdr r)) as [d|] eqn:Hd; [|reflexivity].
  destruct (dns.Data r); try discriminate Hr. now apply insert_id.
Qed.

(** [List] builds the same devices from the significant records alone. *)
Lemma correlate_significant (ptrs : gmap string string) (rr : list dns.RR) :
  Service.correlate ptrs rr = Service.correlate ptrs (List.filter significant rr).
Proof.
  unfold Service.correlate.
  rewrite (fold_left_significant Service.search_record rr)
    by apply search_record_other.
  destruct (fold_left Service.search_record _ _) as [devices cnames].
  now rewrite (fold_left_significant Service.gather_detail rr)
    by apply gather_detail_other.
Qed.

End correlation.

(** * The properties on concrete inputs *)

Example String_ipv4 : net.String [xc0; xa8; x01; x05] = "192.168.1.5".
Proof. reflexivity. Qed.

Example String_ipv4_in_ipv6 : net.String (net.IPv4 x0a x00 x00 x01) = "10.0.0.1".
Proof. reflexivity. Qed.

Example String_ipv6 :
  net.String [x20; x01; x0d; xb8; x00; x00; x00; x00;
              x00; x00; x00; x00; x00; x00; x00; x01] = "2001:db8::1".
Proof. vm_compute. reflexivity. Qed.

Example String_ipv6_one_zero_group :
  net.String [x00; x01; x00; x00; x00; x02; x00; x00;
              x00; x00; x00; x00; x00; x03; x00; x04] = "1:0:2::3:4".
Proof. vm_compute. reflexivity. Qed.

Example reverseAddress_example :
  reverseAddress [xc0; xa8; x01; x05] = "5.1.168.192.in-addr.arpa.".
Proof. vm_compute. reflexivity. Qed.

Example ptr_address_example :
  ptr_address "5.1.168.192.in-addr.arpa." "168.192.in-addr.arpa." = "192.168.1.5".
Proof. vm_compute. reflexivity. Qed.

Example parseIPv4_example :
  parse.parseIPv4 "192.168.1.5" = Some (net.IPv4 xc0 xa8 x01 x05) /\
  parse.parseIPv4 "192.168.1" = None /\
  parse.parseIPv4 "192.168.1.256" = None.
Proof. repeat split; vm_compute; reflexivity. Qed.

Example cm2size_examples :
  cm2size 10000 = 0x14 /\ cm2size 5000 = 0x53 /\ cm2size 9 = 0x90 /\
  cm2size 4294967295 = 0x49.
Proof. repeat split; vm_compute; reflexivity. Qed.

(** ** C1: the alias inserted by [UpdateAlias] *)

(** C1, at a pair of devices with different names. For the alias
    [alt.zone.] that [to] has and [from] has not, [UpdateAlias] first removes
    the alias record set at that name, then inserts an alias record at that
    name; the target of the record it inserts is the name of [from],
    [old.zone.], where the names differ, and not the name of [to]. *)
Theorem UpdateAlias_inserts_target_of_from :
  Service.UpdateAlias (nw := table_server []) a_service
    "zone." 300 (named "old.zone." []) (named "new.zone." ["alt.zone."]) (idle [])
  = (inr (),
     {| world := world (idle []);
        sent :=
          [{| rq_zone := "zone."; rq_kind := KRemoveRRset;
              rq_rr := [Service.cname_record "alt.zone." "old.zone."] |};
           {| rq_zone := "zone."; rq_kind := KInsert;
              rq_rr := [Service.cname_record "alt.zone." "old.zone."] |}] |}).
Proof. vm_compute. reflexivity. Qed.

(** ** The theorems at the examples *)

Lemma findPrivateZone_routing_witness :
  Service.UpdateReverse (nw := table_server []) a_service "example.org." 300
    (set_Reverse (named "host.example.org." []) [[x08; x08; x08; x08]])
    (set_Reverse (named "host.example.org." []) [[x01; x01; x01; x01]])
    (idle [])
  = (inr (), idle []).
Proof.
  apply (proj1 (proj2 (proj2 (proj2
           (findPrivateZone_routing (nw := table_server []) (rt := dotted_runtime)
              a_service "example.org." 300
              (set_Reverse (named "host.example.org." []) [[x08; x08; x08; x08]])
              (set_Reverse (named "host.example.org." []) [[x01; x01; x01; x01]])
              []))))).
  intros r [Hr|Hr]; apply list_elem_of_singleton in Hr; subst r;
    vm_compute; reflexivity.
Defined.

Lemma List_aborts_on_failed_transfer_witness :
  Service.List (nw := table_server [("168.192.in-addr.arpa.", [])])
    (rt := dotted_runtime) a_service ["zone."] ["168.192.in-addr.arpa."]
    (idle [("168.192.in-addr.arpa.", [])])
  = (([], Some "transfer refused: zone."), idle [("168.192.in-addr.arpa.", [])]).
Proof.
  apply (List_aborts_on_failed_transfer (nw := table_server [("168.192.in-addr.arpa.", [])])
           (rt := dotted_runtime) a_service
           ["zone."] ["168.192.in-addr.arpa."] ["168.192.in-addr.arpa."] [] "zone."
           "transfer refused: zone." [[]] (idle _) (idle _) (idle _)).
  - reflexivity.
  - reflexivity.
  - reflexivity.
Defined.

Lemma Find_exact_match_witness :
  Find {| List := [named "Host.zone." []] |} "host.zone." = None /\
  HasName (named "Host.zone." []) "host.zone." = true.
Proof.
  destruct (Find_exact_match {| List := [named "Host.zone." []] |} "host.zone.")
    as (_ & Hnone & Hfold).
  split.
  - apply Hnone. repeat constructor. discriminate.
  - apply Hfold. apply (cv_swap "H"). repeat apply cv_same. apply cv_empty.
Defined.

(** An inventory that holds a device whose name differs from the argument
    in the case of a letter, and the device of that very name: [Find]
    returns the latter. *)
Lemma Find_case_variant_counterexample :
  ~ (forall (inv : Devices) (name : string),
       (exists d, d ∈ List inv /\ Name d <> name /\ case_variant (Name d) name) ->
       Find inv name = None).
Proof.
  intros Hclaim.
  specialize (Hclaim {| List := [named "Host.zone." []; named "host.zone." []] |}
                "host.zone.").
  assert (Hnone : Find {| List := [named "Host.zone." []; named "host.zone." []] |}
                    "host.zone." = None).
  { apply Hclaim. exists (named "Host.zone." []). split; [constructor|].
    split; [discriminate|].
    apply (cv_swap "H"). repeat apply cv_same. apply cv_empty. }
  vm_compute in Hnone. discriminate Hnone.
Qed.

(** * More of the package *)

(** ** The inventory queries *)

Lemma filter_filter_andb {A : Type} (f g : A -> bool) (l : list A) :
  List.filter g (List.filter f l) = List.filter (fun x => f x && g x) l.
Proof.
  induction l as [|x l IH]; [reflexivity|]. simpl.
  destruct (f x); simpl; [|exact IH].
  destruct (g x); now rewrite IH.
Qed.

Lemma filter_ext_bool {A : Type} (f g : A -> bool) (l : list A) :
  (forall x, f x = g x) -> List.filter f l = List.filter g l.
Proof.
  intros Hfg. induction l as [|x l IH]; [reflexivity|]. simpl.
  now rewrite Hfg, IH.
Qed.

(** X1. [ListByModelAndCode] is [ListByCode] on the result of
    [ListByModel], and [ListByModel] on the result of [ListByCode]. *)
Theorem ListByModelAndCode_composes (inv : Devices) (model code : string) :
  ListByModelAndCode inv model code
  = ListByCode {| List := ListByModel inv model |} code /\
  ListByModelAndCode inv model code
  = ListByModel {| List := ListByCode inv code |} model.
Proof.
  unfold ListByModelAndCode, ListByCode, ListByModel. simpl.
  rewrite !filter_filter_andb. split; [reflexivity|].
  apply filter_ext_bool. intros x. apply andb_comm.
Qed.

Lemma filter_sublist {A : Type} (f : A -> bool) (l : list A) :
  sublist (List.filter f l) l.
Proof.
  induction l as [|x l IH]; simpl; [constructor|].
  destruct (f x); now constructor.
Qed.

Lemma sublist_StronglySorted {A : Type} (R : relation A) (l1 l2 : list A) :
  sublist l1 l2 -> StronglySorted R l2 -> StronglySorted R l1.
Proof.
  induction 1 as [|x l1 l2 Hsub IH|x l1 l2 Hsub IH]; intros Hsorted.
  - constructor.
  - apply StronglySorted_inv in Hsorted as [Hs Hall]. constructor; [now apply IH|].
    rewrite Forall_forall in *. intros y Hy. apply Hall.
    eapply elem_of_sublist; eauto.
  - apply StronglySorted_inv in Hsorted as [Hs _]. now apply IH.
Qed.

Lemma sublist_names_sorted (l k : list Device) :
  sublist l k ->
  StronglySorted string_le (Name <$> k) -> NoDup (Name <$> k) ->
  sublist l k /\ StronglySorted string_le (Name <$> l) /\ NoDup (Name <$> l).
Proof.
  intros Hsub Hsorted Hnodup.
  assert (Hnames : sublist (Name <$> l) (Name <$> k)) by now apply fmap_sublist.
  split; [exact Hsub|]. split.
  - eapply sublist_StronglySorted; eauto.
  - eapply sublist_NoDup; eauto.
Qed.

(** X2. Each list query returns devices of the inventory in the order of
    the inventory, whatever the inventory; when the inventory is sorted by
    name without a name twice, as [List] builds it, so is the result. *)
Theorem list_queries_keep_order (inv : Devices) (model code place : string)
  (network : ipnet.IPNet) :
  Forall (fun l => sublist l (List inv))
    [ListByModel inv model; ListByCode inv code; ListByPlace inv place;
     ListByModelAndCode inv model code; ListByNetwork inv network] /\
  (StronglySorted string_le (Name <$> List inv) -> NoDup (Name <$> List inv) ->
   Forall (fun l => StronglySorted string_le (Name <$> l) /\ NoDup (Name <$> l))
     [ListByModel inv model; ListByCode inv code; ListByPlace inv place;
      ListByModelAndCode inv model code; ListByNetwork inv network]).
Proof.
  split.
  - repeat (apply List.Forall_cons; [apply filter_sublist|]). apply List.Forall_nil.
  - intros Hsorted Hnodup.
    repeat (apply List.Forall_cons;
      [apply (sublist_names_sorted _ (List inv));
         [apply filter_sublist | assumption | assumption]|]).
    apply List.Forall_nil.
Qed.

Lemma EqualFold_case_variant_r (s t t' : string) :
  case_variant t t' -> strings.EqualFold s t = strings.EqualFold s t'.
Proof.
  intros Hcv. revert s. induction Hcv as [|c t t' _ IH|c t t' _ IH]; intros s.
  - reflexivity.
  - destruct s as [|a s]; [reflexivity|]. simpl. now rewrite IH.
  - destruct s as [|a s]; [reflexivity|]. simpl.
    now rewrite lower_swap_case, IH.
Qed.

(** X3. The queries by code and by place do not depend on the case of the
    letters of their argument; neither does [HasName]. *)
Theorem queries_fold_case (inv : Devices) (d : Device) (a b : string) :
  case_variant a b ->
  ListByCode inv a = ListByCode inv b /\
  ListByPlace inv a = ListByPlace inv b /\
  HasName d a = HasName d b.
Proof.
  intros Hcv. unfold ListByCode, ListByPlace, HasCode, AtPlace, HasName.
  repeat split; try apply filter_ext_bool; intros;
    now apply EqualFold_case_variant_r.
Qed.

(** ** The two forms of an IPv4 address *)

Lemma bytes_eqb_app (x p q : list byte) :
  net.bytes_eqb x (p ++ q)
  = net.bytes_eqb (take (length p) x) p && net.bytes_eqb (drop (length p) x) q.
Proof.
  revert x. induction p as [|b p IH]; intros x; simpl.
  - now destruct x.
  - destruct x as [|a x]; simpl.
    + reflexivity.
    + rewrite IH. now rewrite andb_assoc.
Qed.

Lemma bytes_eqb_length (x y : list byte) :
  net.bytes_eqb x y = true -> length x = length y.
Proof. intros Heq. apply bytes_eqb_eq in Heq. now subst. Qed.

Lemma IP_Equal_forms (x : net.IP) (a b c d : byte) :
  net.Equal x [a; b; c; d] = net.Equal x (net.IPv4 a b c d).
Proof.
  assert (Hv4 : forall y,
             net.Equal x y =
             if Nat.eqb (length x) (length y) then net.bytes_eqb x y
             else if Nat.eqb (length x) 4 && Nat.eqb (length y) 16
                  then net.bytes_eqb (take 12 y) net.v4InV6Prefix
                       && net.bytes_eqb x (drop 12 y)
             else if Nat.eqb (length x) 16 && Nat.eqb (length y) 4
                  then net.bytes_eqb (take 12 x) net.v4InV6Prefix
                       && net.bytes_eqb (drop 12 x) y
             else false) by reflexivity.
  rewrite !Hv4. clear Hv4. unfold net.IPv4.
  change (length [a; b; c; d]) with 4%nat.
  change (length (net.v4InV6Prefix ++ [a; b; c; d])) with 16%nat.
  change (take 12 (net.v4InV6Prefix ++ [a; b; c; d])) with net.v4InV6Prefix.
  change (drop 12 (net.v4InV6Prefix ++ [a; b; c; d])) with [a; b; c; d].
  rewrite (bytes_eqb_refl net.v4InV6Prefix), bytes_eqb_app.
  change (length net.v4InV6Prefix) with 12%nat.
  destruct (Nat.eqb_spec (length x) 4) as [H4|H4].
  - rewrite H4. reflexivity.
  - destruct (Nat.eqb_spec (length x) 16) as [H16|H16]; reflexivity.
Qed.

Lemma existsb_ext_bool {A : Type} (f g : A -> bool) (l : list A) :
  (forall x, f x = g x) -> existsb f l = existsb g l.
Proof.
  intros Hfg. induction l as [|x l IH]; [reflexivity|]. simpl.
  now rewrite Hfg, IH.
Qed.

(** X4. The lookups by address give the same answer for the 4-byte form of
    an IPv4 address and for its 16-byte form: [FindByIP] on the inventory,
    [HasAddress], [HasReverse], [HasIP] and [HasMapping] on a device. A
    device that [FindByIP] returns has the address. *)
Theorem address_lookups_both_forms {rt : Runtime} (inv : Devices) (dev : Device)
  (name : string) (a b c d : byte) (ip : net.IP) :
  FindByIP inv [a; b; c; d] = FindByIP inv (net.IPv4 a b c d) /\
  HasAddress dev [a; b; c; d] = HasAddress dev (net.IPv4 a b c d) /\
  HasReverse dev [a; b; c; d] = HasReverse dev (net.IPv4 a b c d) /\
  HasIP dev [a; b; c; d] = HasIP dev (net.IPv4 a b c d) /\
  HasMapping dev name [a; b; c; d] = HasMapping dev name (net.IPv4 a b c d) /\
  match FindByIP inv ip with
  | Some s => s ∈ List inv /\ HasAddress s ip = true
  | None => True
  end.
Proof.
  repeat split.
  - unfold FindByIP. induction (List inv) as [|s l IH]; [reflexivity|]. simpl.
    now rewrite IP_Equal_forms, IH.
  - unfold HasAddress. rewrite IP_Equal_forms.
    now rewrite (existsb_ext_bool _ _ _ (fun x => IP_Equal_forms x a b c d)).
  - unfold HasReverse.
    now rewrite (existsb_ext_bool _ _ _ (fun x => IP_Equal_forms x a b c d)).
  - unfold HasIP. apply existsb_ext_bool. intros [n i]. apply IP_Equal_forms.
  - unfold HasMapping. apply existsb_ext_bool. intros [n i].
    now rewrite IP_Equal_forms.
  - unfold FindByIP. induction (List inv) as [|s l IH]; [exact I|]. simpl.
    destruct (net.Equal (IP s) ip) eqn:Heq.
    + split; [apply list_elem_of_here|]. unfold HasAddress. now rewrite Heq.
    + destruct (find_ip l ip); [|exact I].
      destruct IH as [Hin Hhas]. split; [now apply list_elem_of_further | exact Hhas].
Qed.

(** ** A loaded inventory *)

Lemma find_name_NoDup (l : list Device) (d : Device) :
  NoDup (Name <$> l) -> d ∈ l -> find_name l (Name d) = Some d.
Proof.
  induction l as [|s l IH]; intros Hnodup Hd; [inversion Hd|].
  simpl in *. apply NoDup_cons in Hnodup as [Hs Hl].
  apply elem_of_cons in Hd as [->|Hd].
  - now rewrite String.eqb_refl.
  - destruct (String.eqb_spec (Name s) (Name d)) as [Heq|_]; [|now apply IH].
    exfalso. apply Hs. rewrite Heq. apply list_elem_of_fmap. now exists d.
Qed.

Section loaded.
Context {nw : Network} {rt : Runtime}.

Lemma List_names_distinct (s : Service) (zones reverse : list string) (st : Net) :
  NoDup (Name <$> (Service.List s zones reverse st).1.1).
Proof.
  rewrite List_unfold.
  destruct (Service.reverse_lookups s reverse st) as [[err|ptrs] st1]; [constructor|].
  destruct (Service.recover_entries s zones st1) as [[err|rr] st2]; [constructor|].
  simpl. rewrite correlate_sorted_devices.
  destruct (sorted_devices_names _ (correlated_well_keyed ptrs rr)) as [-> _].
  destruct (Strings_sorted (range (correlated ptrs rr)).*1) as [_ Hperm].
  rewrite Hperm. apply range_keys.
Qed.

(** X5. [LoadLocal] asks a service of the server given, on port 53 and
    without a key, for its list: it returns the devices as an inventory
    when [List] returns no error, and no inventory with the error of [List]
    otherwise. In a loaded inventory every device is the one [Find] returns
    for its name. *)
Theorem LoadLocal_Find (server : string) (zones reverse : list string) (st : Net) :
  match LoadLocal server zones reverse st with
  | ((Some inv, None), st') =>
      Service.List {| Server := server; Key := ""; Secret := ""; Port := "53" |}
        zones reverse st = ((List inv, None), st') /\
      forall d, d ∈ List inv -> Find inv (Name d) = Some d
  | ((None, Some err), st') =>
      Service.List {| Server := server; Key := ""; Secret := ""; Port := "53" |}
        zones reverse st = (([], Some err), st')
  | _ => False
  end.
Proof.
  unfold LoadLocal.
  pose proof (List_names_distinct
                {| Server := server; Key := ""; Secret := ""; Port := "53" |}
                zones reverse st) as Hnodup.
  pose proof (List_unfold
                {| Server := server; Key := ""; Secret := ""; Port := "53" |}
                zones reverse st) as Hunfold.
  destruct (Service.List _ zones reverse st) as [[l [err|]] st'] eqn:HList.
  - destruct (Service.reverse_lookups _ reverse st) as [[e|ptrs] st1];
      [now injection Hunfold as -> _ _|].
    destruct (Service.recover_entries _ zones st1) as [[e|rr] st2];
      [now injection Hunfold as -> _ _ | discriminate Hunfold].
  - split; [reflexivity|]. intros d Hd. now apply find_name_NoDup.
Qed.

End loaded.

(** ** The transfers of [List] *)

Section outcome.
Context {nw : Network} {rt : Runtime}.
Variable s : Service.

Lemma foldM_transfers {S : Type} (g : S -> string -> list dns.RR -> S)
  (zs : list string) (acc : S) (st : Net) :
  foldM (transfer_step s g) zs acc st =
  match transfers s zs st with
  | (inl err, st') => (inl err, st')
  | (inr rrs, st') =>
      (inr (fold_left (fun acc zr => g acc zr.1 zr.2) (zip zs rrs) acc), st')
  end.
Proof.
  revert acc st. induction zs as [|z zs IH]; intros acc st; [reflexivity|].
  rewrite foldM_cons, transfer_step_unfold, transfers_cons.
  destruct (Service.Transfer s z st) as [[err|rr] st1]; [reflexivity|].
  rewrite IH. destruct (transfers s zs st1) as [[err|rrs] st2]; reflexivity.
Qed.

Lemma transfers_append (l1 l2 : list string) (st : Net) :
  transfers s (l1 ++ l2) st =
  match transfers s l1 st with
  | (inl err, st') => (inl err, st')
  | (inr r1, st1) =>
      match transfers s l2 st1 with
      | (inl err, st') => (inl err, st')
      | (inr r2, st2) => (inr (r1 ++ r2), st2)
      end
  end.
Proof.
  revert st. induction l1 as [|z l1 IH]; intros st.
  - simpl app. change (transfers s [] st) with (@inr error _ (@nil (list dns.RR)), st).
    cbv beta iota.
    destruct (transfers s l2 st) as [[err|r2] st2]; reflexivity.
  - simpl app. rewrite !transfers_cons.
    destruct (Service.Transfer s z st) as [[err|rr] st1]; [reflexivity|].
    rewrite IH. destruct (transfers s l1 st1) as [[err|r1] st2]; [reflexivity|].
    destruct (transfers s l2 st2) as [[err|r2] st3]; reflexivity.
Qed.

Lemma transfers_length (zs : list string) (st st' : Net) (rrs : list (list dns.RR)) :
  transfers s zs st = (inr rrs, st') -> length rrs = length zs.
Proof.
  revert st st' rrs. induction zs as [|z zs IH]; intros st st' rrs.
  - now intros [= <- _].
  - rewrite transfers_cons.
    destruct (Service.Transfer s z st) as [[err|rr] st1]; [discriminate|].
    destruct (transfers s zs st1) as [[err|rrs0] st2] eqn:Hrest; [discriminate|].
    intros [= <- _]. simpl. f_equal. eapply IH, Hrest.
Qed.

Lemma fold_left_append_concat (rrs : list (list dns.RR)) (zs : list string)
  (acc : list dns.RR) :
  length rrs = length zs ->
  fold_left (fun (acc : list dns.RR) (zr : string * list dns.RR) => acc ++ zr.2)
    (zip zs rrs) acc
  = acc ++ concat rrs.
Proof.
  revert zs acc. induction rrs as [|rr rrs IH]; intros [|z zs] acc Hlen;
    try discriminate Hlen; simpl.
  - now rewrite app_nil_r.
  - rewrite IH by (simpl in Hlen; congruence). now rewrite app_assoc.
Qed.

(** X6. [List] returns an error exactly when one of the transfers fails,
    the reverse zones first and then the forward zones, each transferred
    once and none after a failure; when they all go through it returns no
    error, and the devices are a function of the records transferred. *)
Theorem List_outcome (zones reverse : list string) (st : Net) :
  match transfers s (reverse ++ zones) st with
  | (inl err, st') => Service.List s zones reverse st = (([], Some err), st')
  | (inr rrs, st') =>
      Service.List s zones reverse st
      = ((inventory reverse (take (length reverse) rrs) (drop (length reverse) rrs),
          None), st')
  end.
Proof.
  rewrite List_unfold, reverse_lookups_step, recover_entries_step.
  rewrite !foldM_transfers, transfers_append.
  destruct (transfers s reverse st) as [[err|r1] st1] eqn:Hrev; [reflexivity|].
  rewrite foldM_transfers.
  destruct (transfers s zones st1) as [[err|r2] st2] eqn:Hfwd; [reflexivity|].
  apply transfers_length in Hrev. apply transfers_length in Hfwd.
  rewrite <- Hrev, take_app_length, drop_app_length.
  rewrite fold_left_append_concat by exact Hfwd.
  reflexivity.
Qed.

End outcome.

(** ** The requests of [Update] *)

Section update_requests.
Context {nw : Network} {rt : Runtime}.

Lemma emits_ret {A : Type} (P : list Request -> Prop) (x : A) :
  P [] -> emits P (mret x).
Proof. intros HP st. exists []. now rewrite app_nil_r. Qed.

Lemma emits_bind {A B : Type} (P : list Request -> Prop) (m : M A) (f : A -> M B) :
  (forall l1 l2, P l1 -> P l2 -> P (l1 ++ l2)) ->
  emits P m -> (forall x, emits P (f x)) -> emits P (m ≫= f).
Proof.
  intros Happ Hm Hf st. rewrite bind_unfold.
  destruct (Hm st) as (new1 & Hsent1 & Hnew1).
  destruct (m st) as [[err|x] st1]; [now exists new1|].
  destruct (Hf x st1) as (new2 & Hsent2 & Hnew2).
  exists (new1 ++ new2). simpl in *.
  rewrite Hsent2, Hsent1, app_assoc. split; [reflexivity|].
  now apply Happ.
Qed.

Lemma emits_for_each {A : Type} (P : list Request -> Prop) (l : list A)
  (body : A -> M unit) :
  P [] -> (forall l1 l2, P l1 -> P l2 -> P (l1 ++ l2)) ->
  (forall x, x ∈ l -> emits P (body x)) -> emits P (for_each l body).
Proof.
  intros Hnil Happ. induction l as [|x l IH]; intros Hbody;
    [now apply (emits_ret P ())|].
  intros st. rewrite for_each_cons.
  destruct (Hbody x ltac:(set_solver) st) as (new1 & Hsent1 & Hnew1).
  destruct (body x st) as [[err|[]] st1]; [now exists new1|].
  destruct (IH ltac:(intros y Hy; apply Hbody; set_solver) st1)
    as (new2 & Hsent2 & Hnew2).
  exists (new1 ++ new2). simpl in *.
  rewrite Hsent2, Hsent1, app_assoc. split; [reflexivity|].
  now apply Happ.
Qed.

Lemma exchange_sent (s : Service) (rq : Request) (st : Net) :
  sent (Service.exchange s rq st).2 = sent st ++ [rq].
Proof.
  unfold Service.exchange. now destruct (update s rq (world st)) as [r w].
Qed.

Lemma replacements_app (l1 l2 : list Request) :
  replacements l1 -> replacements l2 -> replacements (l1 ++ l2).
Proof.
  intros H1 H2. induction H1; simpl.
  - exact H2.
  - now apply replacements_remove.
  - now apply replacements_insert.
Qed.

Lemma emits_remove (s : Service) (z : string) (r : dns.RR) :
  emits replacements (Service.RemoveRRset s z [r]).
Proof.
  intros st. exists [ {| rq_zone := z; rq_kind := KRemoveRRset; rq_rr := [r] |} ].
  split; [apply exchange_sent|].
  apply replacements_remove; [reflexivity | reflexivity | constructor].
Qed.

Lemma emits_replace (s : Service) (z : string) (r r' : dns.RR) :
  dns.Name (dns.Hdr r') = dns.Name (dns.Hdr r) ->
  dns.Rrtype (dns.Hdr r') = dns.Rrtype (dns.Hdr r) ->
  emits replacements (Service.RemoveRRset s z [r];; Service.Insert s z [r']).
Proof.
  intros Hname Htype st. rewrite bind_unfold.
  pose proof (exchange_sent s {| rq_zone := z; rq_kind := KRemoveRRset; rq_rr := [r] |} st)
    as Hrm.
  fold (Service.RemoveRRset s z [r]) in Hrm.
  destruct (Service.RemoveRRset s z [r] st) as [[err|[]] st1].
  - eexists; split; [exact Hrm|].
    apply replacements_remove; [reflexivity | reflexivity | constructor].
  - pose proof (exchange_sent s {| rq_zone := z; rq_kind := KInsert; rq_rr := [r'] |} st1)
      as Hins.
    fold (Service.Insert s z [r']) in Hins.
    eexists; split.
    + rewrite Hins. simpl in Hrm. rewrite Hrm, <- app_assoc. reflexivity.
    + apply replacements_insert; try reflexivity; [|constructor].
      unfold subjects. simpl. now rewrite Hname, Htype.
Qed.

(** X7. Every request [Update] sends removes the record set of one record
    or inserts one record; it never removes a whole name; and it inserts a
    record only right after it has removed, from the same zone, the record
    set of the same owner and type. *)
Theorem Update_replaces (s : Service) (zone : string) (ttl : Z) (from to : Device) :
  emits replacements (Service.Update s zone ttl from to).
Proof.
  assert (Hnil : replacements []) by constructor.
  pose proof replacements_app as Happ.
  unfold Service.Update.
  apply emits_bind; [exact Happ| |intros _].
  { unfold Service.UpdateReverse.
    apply emits_bind; [exact Happ| |intros _; apply emits_bind;
      [exact Happ| |intros _; now apply emits_ret]];
      apply emits_for_each; try assumption; intros r Hr.
    - destruct (HasReverse to r); [now apply emits_ret|].
      destruct (String.eqb _ zone); [now apply emits_ret|].
      apply emits_remove.
    - destruct (HasReverse from r); [now apply emits_ret|].
      destruct (String.eqb _ zone); [now apply emits_ret|].
      now apply emits_replace. }
  apply emits_bind; [exact Happ| |intros _].
  { unfold Service.UpdateAlias.
    apply emits_bind; [exact Happ| |intros _; apply emits_bind;
      [exact Happ| |intros _; now apply emits_ret]];
      apply emits_for_each; try assumption; intros r Hr.
    - destruct (HasAlias to r); [now apply emits_ret|].
      apply emits_remove.
    - destruct (HasAlias from r); [now apply emits_ret|].
      now apply emits_replace. }
  apply emits_bind; [exact Happ| |intros _; now apply emits_ret].
  unfold Service.UpdateMapping.
  apply emits_bind; [exact Happ| |intros _; apply emits_bind;
    [exact Happ| |intros _; now apply emits_ret]];
    apply emits_for_each; try assumption; intros [m i] Hr.
  - destruct (HasMapping to m i); [now apply emits_ret|].
    destruct (String.eqb _ zone); [now apply emits_ret|].
    apply emits_remove.
  - destruct (HasMapping from m i); [now apply emits_ret|].
    destruct (String.eqb _ zone); [now apply emits_ret|].
    now apply emits_replace.
Qed.

End update_requests.

(** ** What [Update] leaves alone, what it sends and when it fails *)

Section update_outcome.
Context {nw : Network} {rt : Runtime}.
Variable s : Service.

(** X8. [Update] compares the reverse addresses, the aliases and the
    mapping of the two devices and nothing else: when the two devices have
    the same reverse addresses and the same aliases, in whatever order and
    number, and the same mapping, it sends nothing and returns nil, whatever
    their names, addresses, places, models, codes and locations. *)
Theorem Update_compares_lists_only (zone : string) (ttl : Z) (from to : Device)
  (st : Net) :
  (forall r, r ∈ Reverse from <-> r ∈ Reverse to) ->
  (forall a, a ∈ Aliases from <-> a ∈ Aliases to) ->
  Mapping from = Mapping to ->
  Service.Update s zone ttl from to st = (inr (), st).
Proof.
  intros Hrev Hali Hmap.
  assert (HR : Service.UpdateReverse s zone ttl from to st = (inr (), st)).
  { unfold Service.UpdateReverse.
    rewrite bind_skip; [rewrite bind_skip; [reflexivity|] |];
      apply for_each_skip; intros r Hr;
      now rewrite HasReverse_self by now apply Hrev. }
  assert (HA : Service.UpdateAlias s zone ttl from to st = (inr (), st)).
  { unfold Service.UpdateAlias.
    rewrite bind_skip; [rewrite bind_skip; [reflexivity|] |];
      apply for_each_skip; intros r Hr;
      now rewrite HasAlias_self by now apply Hali. }
  assert (HM : Service.UpdateMapping s zone ttl from to st = (inr (), st)).
  { unfold Service.UpdateMapping.
    rewrite bind_skip; [rewrite bind_skip; [reflexivity|] |];
      apply for_each_skip; intros [m i] Hm;
      now rewrite HasMapping_self by first [exact Hm | rewrite <- Hmap; exact Hm | rewrite Hmap; exact Hm]. }
  unfold Service.Update. now rewrite !bind_skip.
Qed.

Lemma existsb_eqb_elem_of (l : list string) (a : string) :
  existsb (fun x => String.eqb x a) l = true <-> a ∈ l.
Proof.
  rewrite existsb_exists. split.
  - intros (x & Hx & Heq). apply String.eqb_eq in Heq as ->.
    now apply list_elem_of_In.
  - intros Ha. exists a. split; [now apply list_elem_of_In | apply String.eqb_refl].
Qed.

(** X9. [UpdateAlias] sends its requests to the zone of the caller only,
    each with one alias record of ttl 0 (the ttl given is not used), and
    only for an alias that one of the two devices has and the other has
    not. *)
Theorem UpdateAlias_requests (zone : string) (ttl : Z) (from to : Device) :
  sends (alias_update zone from to) (Service.UpdateAlias s zone ttl from to).
Proof.
  unfold Service.UpdateAlias.
  apply sends_bind; [|intros _; apply sends_bind; [|intros _; apply sends_ret]];
    apply sends_for_each; intros r Hr.
  - destruct (HasAlias to r) eqn:Hto; [apply sends_ret|].
    apply sends_exchange. split; [reflexivity|].
    exists r, (dns.Fqdn (Name to)). split; [|reflexivity].
    rewrite Hto. unfold HasAlias.
    rewrite (proj2 (existsb_eqb_elem_of (Aliases from) r) Hr). discriminate.
  - destruct (HasAlias from r) eqn:Hfrom; [apply sends_ret|].
    assert (Hne : HasAlias from r <> HasAlias to r).
    { rewrite Hfrom. unfold HasAlias.
      rewrite (proj2 (existsb_eqb_elem_of (Aliases to) r) Hr). discriminate. }
    apply sends_bind; [|intros _]; apply sends_exchange;
      (split; [reflexivity|]); exists r, (dns.Fqdn (Name from)); now split.
Qed.

(** *** Failure *)

Lemma bind_inl {A B : Type} (m : M A) (f : A -> M B) (st st' : Net) (err : error) :
  (m ≫= f) st = (inl err, st') ->
  m st = (inl err, st') \/ exists x st1, m st = (inr x, st1) /\ f x st1 = (inl err, st').
Proof.
  rewrite bind_unfold. destruct (m st) as [[e|x] st1]; [intros [= -> ->]; now left|].
  intros Hf. right. now exists x, st1.
Qed.

Lemma bind_inr {A B : Type} (m : M A) (f : A -> M B) (st st' : Net) (y : B) :
  (m ≫= f) st = (inr y, st') ->
  exists x st1, m st = (inr x, st1) /\ f x st1 = (inr y, st').
Proof.
  rewrite bind_unfold. destruct (m st) as [[e|x] st1]; [discriminate|].
  intros Hf. now exists x, st1.
Qed.

Lemma fails_ret {A : Type} (x : A) : fails_in_exchange s (mret x).
Proof. intros st err st' H. discriminate H. Qed.

Lemma fails_exchange (rq : Request) : fails_in_exchange s (Service.exchange s rq).
Proof. intros st err st' H. exists rq, st, []. now rewrite app_nil_r. Qed.

Lemma fails_bind {A B : Type} (m : M A) (f : A -> M B) :
  sends (fun _ => True) m ->
  fails_in_exchange s m -> (forall x, fails_in_exchange s (f x)) ->
  fails_in_exchange s (m ≫= f).
Proof.
  intros Hgrow Hm Hf st err st' [H|(x & st1 & Hx & H)]%bind_inl.
  - now apply Hm.
  - destruct (Hf x st1 err st' H) as (rq & st0 & new & Hsent & Hrq).
    destruct (Hgrow st) as (new1 & Hsent1 & _). rewrite Hx in Hsent1. simpl in Hsent1.
    exists rq, st0, (new1 ++ new). split; [|exact Hrq].
    now rewrite Hsent, Hsent1, app_assoc.
Qed.

Lemma fails_for_each {A : Type} (l : list A) (body : A -> M unit) :
  (forall x, x ∈ l -> sends (fun _ => True) (body x)) ->
  (forall x, x ∈ l -> fails_in_exchange s (body x)) ->
  fails_in_exchange s (for_each l body).
Proof.
  induction l as [|x l IH]; intros Hgrow Hbody; [apply (fails_ret ())|].
  intros st err st'. rewrite for_each_cons.
  destruct (Hgrow x ltac:(set_solver) st) as (new1 & Hsent1 & _).
  destruct (body x st) as [[e|[]] st1] eqn:Hx.
  - intros H. apply (Hbody x ltac:(set_solver) st). now rewrite Hx.
  - intros H.
    destruct (IH ltac:(intros y Hy; apply Hgrow; set_solver)
                 ltac:(intros y Hy; apply Hbody; set_solver) st1 err st' H)
      as (rq & st0 & new & Hsent & Hrq).
    exists rq, st0, (new1 ++ new). split; [|exact Hrq].
    simpl in Hsent1. now rewrite Hsent, Hsent1, app_assoc.
Qed.

Lemma grows_elem_of {A : Type} (m : M A) (st : Net) (rq : Request) :
  sends (fun _ => True) m -> rq ∈ sent st -> rq ∈ sent (m st).2.
Proof.
  intros Hgrow Hrq. destruct (Hgrow st) as (new & -> & _).
  apply elem_of_app. now left.
Qed.

Ltac grows :=
  repeat first
    [ progress cbv beta zeta
    | apply sends_ret
    | apply sends_exchange; exact I
    | apply sends_bind; [|intros ?]
    | apply sends_for_each; intros ? ?
    | match goal with |- sends _ (if ?b then _ else _) => destruct b end
    | match goal with |- sends _ (let '(_, _) := ?p in _) => destruct p end ].

Lemma UpdateReverse_grows (zone : string) (ttl : Z) (from to : Device) :
  sends (fun _ => True) (Service.UpdateReverse s zone ttl from to).
Proof. unfold Service.UpdateReverse. grows. Qed.

Lemma UpdateAlias_grows (zone : string) (ttl : Z) (from to : Device) :
  sends (fun _ => True) (Service.UpdateAlias s zone ttl from to).
Proof. unfold Service.UpdateAlias. grows. Qed.

Lemma UpdateMapping_grows (zone : string) (ttl : Z) (from to : Device) :
  sends (fun _ => True) (Service.UpdateMapping s zone ttl from to).
Proof. unfold Service.UpdateMapping. grows. Qed.

Ltac no_other_failure :=
  repeat first
    [ progress cbv beta zeta
    | apply fails_ret
    | apply fails_exchange
    | apply fails_bind; [grows| |intros ?]
    | apply fails_for_each; [intros ? ?; grows|intros ? ?]
    | match goal with |- fails_in_exchange _ (if ?b then _ else _) => destruct b end
    | match goal with |- fails_in_exchange _ (let '(_, _) := ?p in _) => destruct p end ].

Lemma Update_fails_in_exchange (zone : string) (ttl : Z) (from to : Device) :
  fails_in_exchange s (Service.Update s zone ttl from to).
Proof.
  unfold Service.Update.
  apply fails_bind; [apply UpdateReverse_grows| |intros _].
  { unfold Service.UpdateReverse. no_other_failure. }
  apply fails_bind; [apply UpdateAlias_grows| |intros _].
  { unfold Service.UpdateAlias. no_other_failure. }
  apply fails_bind; [apply UpdateMapping_grows| |intros _; apply fails_ret].
  unfold Service.UpdateMapping. no_other_failure.
Qed.

(** *** [Update] as the sending of a plan *)

Lemma for_each_app {A : Type} (l1 l2 : list A) (f : A -> M unit) (st : Net) :
  for_each (l1 ++ l2) f st =
  match for_each l1 f st with
  | (inl err, st') => (inl err, st')
  | (inr _, st') => for_each l2 f st'
  end.
Proof.
  revert st. induction l1 as [|x l1 IH]; intros st; [reflexivity|].
  rewrite <- app_comm_cons, !for_each_cons.
  destruct (f x st) as [[err|[]] st1]; [reflexivity | apply IH].
Qed.

Lemma for_each_one (rq : Request) (st : Net) :
  for_each [rq] (Service.exchange s) st = Service.exchange s rq st.
Proof.
  rewrite for_each_cons. now destruct (Service.exchange s rq st) as [[err|[]] st1].
Qed.

Lemma for_each_two (rq1 rq2 : Request) (st : Net) :
  for_each [rq1; rq2] (Service.exchange s) st
  = (Service.exchange s rq1;; Service.exchange s rq2) st.
Proof.
  rewrite for_each_cons, bind_unfold.
  destruct (Service.exchange s rq1 st) as [[err|[]] st1]; [reflexivity|].
  apply for_each_one.
Qed.

Lemma for_each_flat_map {A : Type} (l : list A) (body : A -> M unit)
  (g : A -> list Request) (st : Net) :
  (forall x st, body x st = for_each (g x) (Service.exchange s) st) ->
  for_each l body st = for_each (flat_map g l) (Service.exchange s) st.
Proof.
  intros Hbody. revert st. induction l as [|x l IH]; intros st; [reflexivity|].
  cbn [flat_map]. rewrite for_each_cons, for_each_app, Hbody.
  destruct (for_each (g x) (Service.exchange s) st) as [[err|[]] st1];
    [reflexivity | apply IH].
Qed.

Lemma two_loops (m1 m2 : M unit) (p1 p2 : list Request) (st : Net) :
  (forall st, m1 st = for_each p1 (Service.exchange s) st) ->
  (forall st, m2 st = for_each p2 (Service.exchange s) st) ->
  (m1;; m2;; mret ()) st = for_each (p1 ++ p2) (Service.exchange s) st.
Proof.
  intros H1 H2. rewrite bind_unfold, for_each_app, H1.
  destruct (for_each p1 (Service.exchange s) st) as [[err|[]] st1]; [reflexivity|].
  rewrite bind_unfold, H2.
  now destruct (for_each p2 (Service.exchange s) st1) as [[err|[]] st2].
Qed.

Lemma UpdateReverse_plan (zone : string) (ttl : Z) (from to : Device) (st : Net) :
  Service.UpdateReverse s zone ttl from to st
  = for_each (reverse_plan zone ttl from to) (Service.exchange s) st.
Proof.
  unfold Service.UpdateReverse, reverse_plan.
  apply two_loops; intros st0; apply for_each_flat_map; intros r st1;
    destruct (HasReverse _ r); try reflexivity;
    cbv zeta; destruct (String.eqb _ zone); try reflexivity.
  - symmetry. apply for_each_one.
  - symmetry. apply for_each_two.
Qed.

Lemma UpdateAlias_plan (zone : string) (ttl : Z) (from to : Device) (st : Net) :
  Service.UpdateAlias s zone ttl from to st
  = for_each (alias_plan zone from to) (Service.exchange s) st.
Proof.
  unfold Service.UpdateAlias, alias_plan.
  apply two_loops; intros st0; apply for_each_flat_map; intros r st1;
    destruct (HasAlias _ r); try reflexivity.
  - symmetry. apply for_each_one.
  - symmetry. apply for_each_two.
Qed.

Lemma UpdateMapping_plan (zone : string) (ttl : Z) (from to : Device) (st : Net) :
  Service.UpdateMapping s zone ttl from to st
  = for_each (mapping_plan zone from to) (Service.exchange s) st.
Proof.
  unfold Service.UpdateMapping, mapping_plan.
  apply two_loops; intros st0; apply for_each_flat_map; intros [m i] st1;
    destruct (HasMapping _ m i); try reflexivity;
    cbv zeta; destruct (String.eqb _ zone); try reflexivity.
  - symmetry. apply for_each_one.
  - symmetry. apply for_each_two.
Qed.

Lemma Update_sends_plan (zone : string) (ttl : Z) (from to : Device) (st : Net) :
  Service.Update s zone ttl from to st
  = for_each (Update_plan zone ttl from to) (Service.exchange s) st.
Proof.
  unfold Service.Update, Update_plan.
  rewrite bind_unfold, for_each_app, UpdateReverse_plan.
  destruct (for_each (reverse_plan zone ttl from to) _ st) as [[err|[]] st1];
    [reflexivity|].
  rewrite bind_unfold, for_each_app, UpdateAlias_plan.
  destruct (for_each (alias_plan zone from to) _ st1) as [[err|[]] st2];
    [reflexivity|].
  rewrite bind_unfold, UpdateMapping_plan.
  now destruct (for_each (mapping_plan zone from to) _ st2) as [[err|[]] st3].
Qed.

(** X10. [Update] sends the requests of its plan one after the other and
    stops at the first exchange that fails: the plan depends on the two
    devices and the zone only, not on the answers of the server; when the
    requests before one of the plan are accepted and that one is refused,
    [Update] returns its error and the state that exchange left, so that
    nothing of the plan after it is sent; and an error [Update] returns is
    the error of an exchange, the last request sent, never one of its
    own. *)
Theorem Update_error_is_exchange_error (zone : string) (ttl : Z) (from to : Device) :
  (forall st,
     Service.Update s zone ttl from to st
     = for_each (Update_plan zone ttl from to) (Service.exchange s) st) /\
  (forall (st st1 st2 : Net) (pre post : list Request) (rq : Request) (err : error),
     Update_plan zone ttl from to = pre ++ rq :: post ->
     for_each pre (Service.exchange s) st = (inr (), st1) ->
     Service.exchange s rq st1 = (inl err, st2) ->
     Service.Update s zone ttl from to st = (inl err, st2)) /\
  (forall (st st' : Net) (err : error),
     Service.Update s zone ttl from to st = (inl err, st') ->
     exists rq st0 new,
       sent st0 = sent st ++ new /\
       Service.exchange s rq st0 = (inl err, st')).
Proof.
  split; [apply Update_sends_plan|]. split.
  - intros st st1 st2 pre post rq err Hplan Hpre Hrq.
    now rewrite Update_sends_plan, Hplan, for_each_app, Hpre, for_each_cons, Hrq.
  - intros st st' err. apply (Update_fails_in_exchange zone ttl from to st err st').
Qed.

(** *** Completeness *)

Lemma for_each_reaches {A : Type} (l : list A) (body : A -> M unit) (x : A)
  (rq : Request) (st st' : Net) :
  (forall y, y ∈ l -> sends (fun _ => True) (body y)) ->
  (forall st0 st1, body x st0 = (inr (), st1) -> rq ∈ sent st1) ->
  x ∈ l -> for_each l body st = (inr (), st') -> rq ∈ sent st'.
Proof.
  intros Hgrow Hx. revert st. induction l as [|y l IH]; intros st Hin;
    [inversion Hin|].
  rewrite for_each_cons. destruct (body y st) as [[e|[]] st1] eqn:Hy; [discriminate|].
  intros Hrest. apply elem_of_cons in Hin as [->|Hin].
  - apply Hx in Hy.
    assert (Hl : sends (fun _ => True) (for_each l body)).
    { apply sends_for_each. intros z Hz. apply Hgrow. set_solver. }
    apply (grows_elem_of _ st1 rq Hl) in Hy. now rewrite Hrest in Hy.
  - apply (IH ltac:(intros z Hz; apply Hgrow; set_solver) st1 Hin Hrest).
Qed.

Lemma exchange_reaches (rq : Request) (st0 st1 : Net) (r : error + unit) :
  Service.exchange s rq st0 = (r, st1) -> rq ∈ sent st1.
Proof.
  intros H. pose proof (exchange_sent s rq st0) as Hsent. rewrite H in Hsent.
  simpl in Hsent. rewrite Hsent. apply elem_of_app. right. apply list_elem_of_here.
Qed.

Lemma loops_inr (l1 l2 : M unit) (st st' : Net) :
  (l1;; l2;; mret ()) st = (inr (), st') ->
  exists st1, l1 st = (inr (), st1) /\ l2 st1 = (inr (), st').
Proof.
  intros ([] & st1 & H1 & ([] & st2 & H2 & [= <-])%bind_inr)%bind_inr.
  now exists st1.
Qed.

(** X11. When [Update] returns nil it has sent a request for every
    difference it looks for: the removal of each reverse address, alias and
    mapping entry that [from] has and [to] has not, and the insertion of
    each that [to] has and [from] has not; for the reverse addresses and the
    mapping, those of a private zone other than the zone of the caller. The
    alias records it removes point to the name of [to], those it inserts to
    the name of [from]. *)
Theorem Update_sends_every_difference (zone : string) (ttl : Z) (from to : Device)
  (st st' : Net) :
  Service.Update s zone ttl from to st = (inr (), st') ->
  (forall r, r ∈ Reverse from -> HasReverse to r = false ->
     findPrivateZone r zone <> zone -> remove_reverse zone from r ∈ sent st') /\
  (forall r, r ∈ Reverse to -> HasReverse from r = false ->
     findPrivateZone r zone <> zone -> insert_reverse zone ttl to r ∈ sent st') /\
  (forall a, a ∈ Aliases from -> HasAlias to a = false ->
     remove_alias zone to a ∈ sent st') /\
  (forall a, a ∈ Aliases to -> HasAlias from a = false ->
     insert_alias zone from a ∈ sent st') /\
  (forall m i, Mapping from !! m = Some i -> HasMapping to m i = false ->
     findPrivateZone i zone <> zone -> remove_mapping zone m i ∈ sent st') /\
  (forall m i, Mapping to !! m = Some i -> HasMapping from m i = false ->
     findPrivateZone i zone <> zone -> insert_mapping zone m i ∈ sent st').
Proof.
  unfold Service.Update.
  intros ([] & st1 & HR & ([] & st2 & HA & ([] & st3 & HM & [= <-])%bind_inr)%bind_inr)%bind_inr.
  assert (H12 : forall rq, rq ∈ sent st1 -> rq ∈ sent st2).
  { intros rq Hrq.
    apply (grows_elem_of _ st1 rq (UpdateAlias_grows zone ttl from to)) in Hrq.
    now rewrite HA in Hrq. }
  assert (H23 : forall rq, rq ∈ sent st2 -> rq ∈ sent st3).
  { intros rq Hrq.
    apply (grows_elem_of _ st2 rq (UpdateMapping_grows zone ttl from to)) in Hrq.
    now rewrite HM in Hrq. }
  apply loops_inr in HR as (sa & HR1 & HR2).
  apply loops_inr in HA as (sb & HA1 & HA2).
  apply loops_inr in HM as (sc & HM1 & HM2).
  repeat split.
  - intros r Hr Hto Hz. apply H23, H12.
    assert (Hsa : remove_reverse zone from r ∈ sent sa).
    { eapply for_each_reaches; [| |exact Hr|exact HR1].
      - intros y Hy. grows.
      - intros st0 st4. cbv beta zeta. rewrite Hto. apply String.eqb_neq in Hz. rewrite Hz.
        apply exchange_reaches. }
    assert (Hl : sends (fun _ => True)
              (for_each (Reverse to) (fun r =>
                 if HasReverse from r then mret ()
                 else
                   let z := findPrivateZone r zone in
                   if String.eqb z zone then mret ()
                   else
                     Service.RemoveRRset s z [Service.ptr_record (reverseAddress r) 0 ""];;
                     Service.Insert s z
                       [Service.ptr_record (reverseAddress r) ttl (dns.Fqdn (Name to))])))
      by grows.
    apply (grows_elem_of _ sa _ Hl) in Hsa. now rewrite HR2 in Hsa.
  - intros r Hr Hfrom Hz. apply H23, H12.
    eapply for_each_reaches; [| |exact Hr|exact HR2].
    + intros y Hy. grows.
    + intros st0 st4. cbv beta zeta. rewrite Hfrom. apply String.eqb_neq in Hz. cbv zeta. rewrite Hz.
      intros ([] & st5 & _ & Hins)%bind_inr. revert Hins. apply exchange_reaches.
  - intros a Ha Hto. apply H23.
    assert (Hsb : remove_alias zone to a ∈ sent sb).
    { eapply for_each_reaches; [| |exact Ha|exact HA1].
      - intros y Hy. grows.
      - intros st0 st4. cbv beta zeta. rewrite Hto. apply exchange_reaches. }
    assert (Hl : sends (fun _ => True)
              (for_each (Aliases to) (fun r =>
                 if HasAlias from r then mret ()
                 else
                   let cname :=
                     Service.cname_record (dns.Fqdn r) (dns.Fqdn (Name from)) in
                   Service.RemoveRRset s zone [cname];;
                   Service.Insert s zone [cname])))
      by grows.
    apply (grows_elem_of _ sb _ Hl) in Hsb. now rewrite HA2 in Hsb.
  - intros a Ha Hfrom. apply H23.
    eapply for_each_reaches; [| |exact Ha|exact HA2].
    + intros y Hy. grows.
    + intros st0 st4. cbv beta zeta. rewrite Hfrom. cbv zeta.
      intros ([] & st5 & _ & Hins)%bind_inr. revert Hins. apply exchange_reaches.
  - intros m i Hm%range_lookup Hto Hz.
    assert (Hsc : remove_mapping zone m i ∈ sent sc).
    { eapply for_each_reaches; [| |exact Hm|exact HM1].
      - intros y Hy. grows.
      - intros st0 st4. cbv beta iota zeta. rewrite Hto. apply String.eqb_neq in Hz.
        cbv zeta. rewrite Hz. apply exchange_reaches. }
    assert (Hl : sends (fun _ => True)
              (for_each (range (Mapping to)) (fun '(m, i) =>
                 if HasMapping from m i then mret ()
                 else
                   let ptr := Service.ptr_record (reverseAddress i) 0 (dns.Fqdn m) in
                   let z := findPrivateZone i zone in
                   if String.eqb z zone then mret ()
                   else
                     Service.RemoveRRset s z [ptr];;
                     Service.Insert s z [ptr])))
      by grows.
    apply (grows_elem_of _ sc _ Hl) in Hsc. now rewrite HM2 in Hsc.
  - intros m i Hm%range_lookup Hfrom Hz.
    eapply for_each_reaches; [| |exact Hm|exact HM2].
    + intros y Hy. grows.
    + intros st0 st4. cbv beta iota zeta. rewrite Hfrom. apply String.eqb_neq in Hz.
      cbv zeta. rewrite Hz.
      intros ([] & st5 & _ & Hins)%bind_inr. revert Hins. apply exchange_reaches.
Qed.

End update_outcome.

(** ** The devices of [List], field by field *)

Section inventory_contents.
Context {rt : Runtime}.

Lemma keyed_fold {X : Type} (key : X -> option string) (u : X -> Device -> Device)
  (l : list X) (m : gmap string Device) (k : string) :
  fold_left (keyed_step key u) l m !! k
  = rewrite_all u (items_at key k l) <$> (m !! k).
Proof.
  revert m. induction l as [|x l IH]; intros m.
  - simpl. now destruct (m !! k).
  - change (fold_left (keyed_step key u) (x :: l) m)
      with (fold_left (keyed_step key u) l (keyed_step key u m x)).
    rewrite IH. unfold items_at, keyed_step. simpl List.filter.
    destruct (key x) as [k'|] eqn:Hkey.
    + destruct (decide (k' = k)) as [->|Hne].
      * rewrite bool_decide_eq_true_2 by reflexivity.
        destruct (m !! k) as [d|] eqn:Hm.
        -- now rewrite lookup_insert_eq.
        -- now rewrite Hm.
      * rewrite bool_decide_eq_false_2 by congruence.
        destruct (m !! k'); [now rewrite lookup_insert_ne|reflexivity].
    + now rewrite bool_decide_eq_false_2 by congruence.
Qed.

Lemma keyed_step_dom {X : Type} (key : X -> option string) (u : X -> Device -> Device)
  (m : gmap string Device) (x : X) (c : string) :
  keyed_step key u m x !! c = None <-> m !! c = None.
Proof.
  unfold keyed_step. destruct (key x) as [k|]; [|reflexivity].
  destruct (m !! k) as [d|] eqn:Hk; [|reflexivity].
  destruct (decide (k = c)) as [->|Hne].
  - rewrite lookup_insert_eq, Hk. split; discriminate.
  - now rewrite lookup_insert_ne.
Qed.

Lemma fold_left_pointwise {A B : Type} (f g : A -> B -> A) (l : list B) (a : A) :
  (forall a b, f a b = g a b) -> fold_left f l a = fold_left g l a.
Proof.
  intros Hfg. revert a. induction l as [|b l IH]; intros a; simpl; [reflexivity|].
  now rewrite Hfg, IH.
Qed.

Lemma gather_reverse_keyed (devices : gmap string Device) (an : string * string) :
  Service.gather_reverse devices an = keyed_step reverse_key reverse_add devices an.
Proof.
  destruct an as [a n].
  unfold Service.gather_reverse, keyed_step, reverse_key, reverse_add. simpl.
  now destruct (ParseIP a).
Qed.

Lemma gather_mapping_keyed (cnames : gmap string string)
  (devices : gmap string Device) (an : string * string) :
  Service.gather_mapping cnames devices an
  = keyed_step (mapping_key cnames) mapping_add devices an.
Proof.
  destruct an as [a n].
  unfold Service.gather_mapping, keyed_step, mapping_key, mapping_add. simpl.
  now destruct (ParseIP a).
Qed.

Lemma gather_detail_keyed (devices : gmap string Device) (r : dns.RR) :
  Service.gather_detail devices r = keyed_step detail_key detail_set devices r.
Proof. reflexivity. Qed.

Lemma gather_alias_keyed (base : gmap string Device) (l : list (string * string))
  (m : gmap string Device) :
  (forall c, m !! c = None <-> base !! c = None) ->
  fold_left Service.gather_alias l m
  = fold_left (keyed_step (alias_key base) alias_add) l m.
Proof.
  revert m. induction l as [|[c n] l IH]; intros m Hdom; [reflexivity|].
  cbn [fold_left].
  assert (Hstep : Service.gather_alias m (c, n)
                  = keyed_step (alias_key base) alias_add m (c, n)).
  { unfold Service.gather_alias, keyed_step, alias_key, alias_add. simpl.
    specialize (Hdom c).
    destruct (m !! c), (base !! c); try reflexivity.
    - destruct Hdom as [_ Hdom]. now specialize (Hdom eq_refl).
    - destruct Hdom as [Hdom _]. now specialize (Hdom eq_refl). }
  rewrite Hstep. apply IH. intros c'. rewrite keyed_step_dom. apply Hdom.
Qed.

(** The device at a key after the four passes: the device of the first
    pass, rewritten by the items of each pass for that key. *)
Lemma correlated_lookup (ptrs : gmap string string) (rr : list dns.RR) (k : string) :
  correlated ptrs rr !! k
  = (fun d0 =>
       rewrite_all detail_set (items_at detail_key k rr)
         (rewrite_all mapping_add
            (items_at (mapping_key (first_pass rr).2) k (range ptrs))
            (rewrite_all reverse_add (items_at reverse_key k (range ptrs))
               (rewrite_all alias_add
                  (items_at (alias_key (first_pass rr).1) k (range (first_pass rr).2))
                  d0))))
    <$> ((first_pass rr).1 !! k).
Proof.
  unfold correlated, first_pass.
  destruct (fold_left Service.search_record rr (∅, ∅)) as [devices cnames].
  cbn [fst snd].
  rewrite (fold_left_pointwise Service.gather_detail _ _ _ gather_detail_keyed).
  rewrite (fold_left_pointwise (Service.gather_mapping cnames) _ _ _
             (gather_mapping_keyed cnames)).
  rewrite (fold_left_pointwise Service.gather_reverse _ _ _ gather_reverse_keyed).
  rewrite (gather_alias_keyed devices) by reflexivity.
  rewrite !keyed_fold.
  now destruct (devices !! k).
Qed.

(** *** The first pass *)

Lemma records_at_snoc (rr : list dns.RR) (r : dns.RR) (name : string) :
  records_at (rr ++ [r]) name
  = records_at rr name
    ++ (if String.eqb (dns.Name (dns.Hdr r)) name then [dns.Data r] else []).
Proof.
  unfold records_at. rewrite List.filter_app, fmap_app. simpl.
  now destruct (String.eqb _ name).
Qed.

Lemma last_of_snoc {V : Type} (g : dns.RData -> option V) (rr : list dns.RR)
  (r : dns.RR) (name : string) :
  last_of g (rr ++ [r]) name
  = match (if String.eqb (dns.Name (dns.Hdr r)) name then g (dns.Data r) else None) with
    | Some v => Some v
    | None => last_of g rr name
    end.
Proof.
  unfold last_of. rewrite records_at_snoc, omap_app, last_app.
  destruct (String.eqb _ name); [|reflexivity].
  simpl. now destruct (g (dns.Data r)).
Qed.

Lemma first_pass_snoc (rr : list dns.RR) (r : dns.RR) :
  first_pass (rr ++ [r]) = Service.search_record (first_pass rr) r.
Proof. unfold first_pass. now rewrite fold_left_app. Qed.

Lemma first_pass_tables (rr : list dns.RR) (k : string) :
  (first_pass rr).1 !! k = fresh k <$> last_of address_of rr k /\
  (first_pass rr).2 !! k = last_of target_of rr k.
Proof.
  induction rr as [|r rr [IHd IHc]] using rev_ind.
  - split; apply lookup_empty.
  - rewrite first_pass_snoc, !last_of_snoc.
    destruct (first_pass rr) as [devices cnames]. cbn [fst snd] in *.
    unfold Service.search_record.
    destruct (String.eqb_spec (dns.Name (dns.Hdr r)) k) as [->|Hne].
    + destruct (dns.Data r); cbn [fst snd address_of target_of];
        rewrite ?lookup_insert_eq; (split; [assumption || reflexivity | assumption || reflexivity]).
    + destruct (dns.Data r); cbn [fst snd];
        rewrite ?lookup_insert_ne by exact Hne; now split.
Qed.

(** *** From the table to the list *)

Lemma correlate_elem_of (ptrs : gmap string string) (rr : list dns.RR) (d : Device) :
  d ∈ Service.correlate ptrs rr <-> correlated ptrs rr !! Name d = Some d.
Proof.
  rewrite correlate_sorted_devices.
  pose proof (correlated_well_keyed ptrs rr) as Hwk.
  split; [apply (sorted_devices_names _ Hwk)|].
  intros Hd. unfold Service.sorted_devices.
  apply list_elem_of_fmap. exists (Name d).
  split; [symmetry; now apply lookup_total_correct|].
  destruct (Strings_sorted (range (correlated ptrs rr)).*1) as [_ Hperm].
  rewrite Hperm. apply range_keys. now exists d.
Qed.

Lemma rewrite_all_keeps {X V : Type} (F : Device -> V) (u : X -> Device -> Device)
  (l : list X) (d : Device) :
  (forall x d, F (u x d) = F d) -> F (rewrite_all u l d) = F d.
Proof.
  intros Hu. unfold rewrite_all. revert d.
  induction l as [|x l IH]; intros d; simpl; [reflexivity|].
  now rewrite IH, Hu.
Qed.

Lemma rewrite_all_snoc {X : Type} (u : X -> Device -> Device) (l : list X) (x : X)
  (d : Device) :
  rewrite_all u (l ++ [x]) d = u x (rewrite_all u l d).
Proof. unfold rewrite_all. now rewrite fold_left_app. Qed.

Lemma rewrite_all_last {X V : Type} (F : Device -> V) (u : X -> Device -> Device)
  (g : X -> option V) (l : list X) (d : Device) :
  (forall x d, F (u x d) = default (F d) (g x)) ->
  F (rewrite_all u l d) = default (F d) (last (omap g l)).
Proof.
  intros Hu. induction l as [|x l IH] using rev_ind; [reflexivity|].
  rewrite rewrite_all_snoc, Hu, IH, omap_app, last_app. simpl.
  now destruct (g x).
Qed.

Lemma alias_add_keeps (x : string * string) (d : Device) :
  Name (alias_add x d) = Name d /\ IP (alias_add x d) = IP d /\
  Reverse (alias_add x d) = Reverse d /\ Mapping (alias_add x d) = Mapping d /\
  Place (alias_add x d) = Place d /\ Model (alias_add x d) = Model d /\
  Code (alias_add x d) = Code d /\ Latitude (alias_add x d) = Latitude d /\
  Longitude (alias_add x d) = Longitude d /\ Height (alias_add x d) = Height d.
Proof. now repeat split. Qed.

Lemma reverse_add_keeps (x : string * string) (d : Device) :
  Name (reverse_add x d) = Name d /\ IP (reverse_add x d) = IP d /\
  Aliases (reverse_add x d) = Aliases d /\ Mapping (reverse_add x d) = Mapping d /\
  Place (reverse_add x d) = Place d /\ Model (reverse_add x d) = Model d /\
  Code (reverse_add x d) = Code d /\ Latitude (reverse_add x d) = Latitude d /\
  Longitude (reverse_add x d) = Longitude d /\ Height (reverse_add x d) = Height d.
Proof. unfold reverse_add. destruct (ParseIP x.1); now repeat split. Qed.

Lemma mapping_add_keeps (x : string * string) (d : Device) :
  Name (mapping_add x d) = Name d /\ IP (mapping_add x d) = IP d /\
  Aliases (mapping_add x d) = Aliases d /\ Reverse (mapping_add x d) = Reverse d /\
  Place (mapping_add x d) = Place d /\ Model (mapping_add x d) = Model d /\
  Code (mapping_add x d) = Code d /\ Latitude (mapping_add x d) = Latitude d /\
  Longitude (mapping_add x d) = Longitude d /\ Height (mapping_add x d) = Height d.
Proof. unfold mapping_add. destruct (ParseIP x.1); now repeat split. Qed.

Lemma detail_set_keeps (x : dns.RR) (d : Device) :
  Name (detail_set x d) = Name d /\ IP (detail_set x d) = IP d /\
  Aliases (detail_set x d) = Aliases d /\ Reverse (detail_set x d) = Reverse d /\
  Mapping (detail_set x d) = Mapping d.
Proof. unfold detail_set. destruct (dns.Data x); now repeat split. Qed.

Lemma assembled_Name (ptrs : gmap string string) (rr : list dns.RR) (k : string)
  (a : net.IP) : Name (assembled ptrs rr k a) = k.
Proof.
  unfold assembled.
  rewrite (rewrite_all_keeps Name) by (intros; apply detail_set_keeps).
  rewrite (rewrite_all_keeps Name) by (intros; apply mapping_add_keeps).
  rewrite (rewrite_all_keeps Name) by (intros; apply reverse_add_keeps).
  now rewrite (rewrite_all_keeps Name) by (intros; apply alias_add_keeps).
Qed.

Lemma assembled_IP (ptrs : gmap string string) (rr : list dns.RR) (k : string)
  (a : net.IP) : IP (assembled ptrs rr k a) = a.
Proof.
  unfold assembled.
  rewrite (rewrite_all_keeps IP) by (intros; apply detail_set_keeps).
  rewrite (rewrite_all_keeps IP) by (intros; apply mapping_add_keeps).
  rewrite (rewrite_all_keeps IP) by (intros; apply reverse_add_keeps).
  now rewrite (rewrite_all_keeps IP) by (intros; apply alias_add_keeps).
Qed.

Lemma correlated_assembled (ptrs : gmap string string) (rr : list dns.RR) (k : string) :
  correlated ptrs rr !! k = assembled ptrs rr k <$> last_of address_of rr k.
Proof.
  rewrite correlated_lookup, (proj1 (first_pass_tables rr k)).
  now destruct (last_of address_of rr k).
Qed.

Lemma correlate_device (ptrs : gmap string string) (rr : list dns.RR) (d : Device) :
  d ∈ Service.correlate ptrs rr ->
  exists k a, last_of address_of rr k = Some a /\ d = assembled ptrs rr k a.
Proof.
  intros Hd%correlate_elem_of. rewrite correlated_assembled in Hd.
  destruct (last_of address_of rr (Name d)) as [a|] eqn:Ha; [|discriminate].
  injection Hd as Hd. now exists (Name d), a.
Qed.

(** X12. [List] makes one device of each owner name of an address record,
    and no other: the device of a name has the address of the last address
    record of that name. *)
Theorem correlate_hosts (ptrs : gmap string string) (rr : list dns.RR) (name : string) :
  match last_of address_of rr name with
  | Some a => exists d, d ∈ Service.correlate ptrs rr /\ Name d = name /\ IP d = a
  | None => forall d, d ∈ Service.correlate ptrs rr -> Name d <> name
  end.
Proof.
  pose proof (correlated_assembled ptrs rr name) as Hk.
  destruct (last_of address_of rr name) as [a|].
  - exists (assembled ptrs rr name a).
    split; [|split; [apply assembled_Name | apply assembled_IP]].
    apply correlate_elem_of. now rewrite assembled_Name.
  - intros d Hd%correlate_elem_of Hname. rewrite Hname in Hd. simpl in Hk. congruence.
Qed.

(** *** The aliases *)

Lemma alias_add_all (l : list (string * string)) (d : Device) :
  Aliases (rewrite_all alias_add l d) = Aliases d ++ l.*1.
Proof.
  induction l as [|x l IH] using rev_ind; [now rewrite app_nil_r|].
  rewrite rewrite_all_snoc, fmap_app, app_assoc, <- IH. reflexivity.
Qed.

Lemma assembled_Aliases (ptrs : gmap string string) (rr : list dns.RR) (k : string)
  (a : net.IP) :
  Aliases (assembled ptrs rr k a)
  = (items_at (alias_key (first_pass rr).1) k (range (first_pass rr).2)).*1.
Proof.
  unfold assembled.
  rewrite (rewrite_all_keeps Aliases) by (intros; apply detail_set_keeps).
  rewrite (rewrite_all_keeps Aliases) by (intros; apply mapping_add_keeps).
  rewrite (rewrite_all_keeps Aliases) by (intros; apply reverse_add_keeps).
  now rewrite alias_add_all.
Qed.

Lemma elem_of_items_at {X : Type} (key : X -> option string) (k : string)
  (l : list X) (x : X) :
  x ∈ items_at key k l <-> x ∈ l /\ key x = Some k.
Proof.
  unfold items_at. rewrite !list_elem_of_In, filter_In.
  now rewrite bool_decide_eq_true.
Qed.

Lemma assembled_alias_members (ptrs : gmap string string) (rr : list dns.RR)
  (k : string) (a : net.IP) (c : string) :
  c ∈ Aliases (assembled ptrs rr k a) <->
  last_of target_of rr c = Some k /\ last_of address_of rr c = None.
Proof.
  rewrite assembled_Aliases, list_elem_of_fmap. split.
  - intros ([c' n] & -> & [Hin Hkey]%elem_of_items_at).
    apply range_lookup in Hin. unfold alias_key in Hkey. simpl in *.
    destruct (first_pass_tables rr c') as [Hd Hc]. rewrite Hc in Hin.
    destruct ((first_pass rr).1 !! c') eqn:Hhost; [discriminate|].
    injection Hkey as ->. split; [exact Hin|].
    symmetry in Hd. now apply fmap_None in Hd.
  - intros [Htarget Hnone]. exists (c, k). split; [reflexivity|].
    destruct (first_pass_tables rr c) as [Hd Hc].
    apply elem_of_items_at. split.
    + apply range_lookup. now rewrite Hc.
    + unfold alias_key. simpl. rewrite Hd, Hnone. reflexivity.
Qed.

(** X13. The aliases of a device of [List] are the owner names of the
    alias records whose last target is the name of the device, without
    those that own an address record (they are devices themselves); none
    is listed twice. *)
Theorem correlate_aliases (ptrs : gmap string string) (rr : list dns.RR) (d : Device) :
  d ∈ Service.correlate ptrs rr ->
  NoDup (Aliases d) /\
  forall c, c ∈ Aliases d <->
            last_of target_of rr c = Some (Name d) /\ last_of address_of rr c = None.
Proof.
  intros (k & a & Ha & ->)%correlate_device.
  rewrite assembled_Name. split.
  - rewrite assembled_Aliases.
    eapply sublist_NoDup; [apply (proj1 (range_keys (first_pass rr).2))|apply fmap_sublist, filter_sublist].
  - intros c. apply assembled_alias_members.
Qed.

(** *** The reverse addresses *)

Lemma reverse_add_all (l : list (string * string)) (d : Device) :
  Reverse (rewrite_all reverse_add l d) = Reverse d ++ omap (fun an => ParseIP an.1) l.
Proof.
  induction l as [|x l IH] using rev_ind; [now rewrite app_nil_r|].
  rewrite rewrite_all_snoc, omap_app, app_assoc, <- IH.
  unfold reverse_add at 1. simpl.
  destruct (ParseIP x.1); [reflexivity | now rewrite app_nil_r].
Qed.

Lemma assembled_Reverse (ptrs : gmap string string) (rr : list dns.RR) (k : string)
  (a : net.IP) :
  Reverse (assembled ptrs rr k a)
  = omap (fun an => ParseIP an.1) (items_at reverse_key k (range ptrs)).
Proof.
  unfold assembled.
  rewrite (rewrite_all_keeps Reverse) by (intros; apply detail_set_keeps).
  rewrite (rewrite_all_keeps Reverse) by (intros; apply mapping_add_keeps).
  rewrite reverse_add_all.
  now rewrite (rewrite_all_keeps Reverse) by (intros; apply alias_add_keeps).
Qed.

(** X14. The reverse addresses of a device of [List] are the addresses
    read from the keys of the pointer table whose pointer is the name of the
    device: one for each such key that reads as an address, and no other. *)
Theorem correlate_reverse (ptrs : gmap string string) (rr : list dns.RR) (d : Device) :
  d ∈ Service.correlate ptrs rr ->
  forall ip, ip ∈ Reverse d <->
             exists a, ptrs !! a = Some (Name d) /\ ParseIP a = Some ip.
Proof.
  intros (k & a0 & Ha & ->)%correlate_device ip.
  rewrite assembled_Name, assembled_Reverse, list_elem_of_omap. split.
  - intros ([a n] & [Hin Hkey]%elem_of_items_at & Hip).
    apply range_lookup in Hin. unfold reverse_key in Hkey. simpl in *.
    rewrite Hip in Hkey. injection Hkey as ->. now exists a.
  - intros (a & Hin & Hip). exists (a, k). split; [|exact Hip].
    apply elem_of_items_at. split; [now apply range_lookup|].
    unfold reverse_key. simpl. now rewrite Hip.
Qed.

(** *** The mapping *)

Lemma mapping_add_sound (l : list (string * string)) (d : Device) (n : string)
  (ip : net.IP) :
  Mapping (rewrite_all mapping_add l d) !! n = Some ip ->
  Mapping d !! n = Some ip \/ exists a, (a, n) ∈ l /\ ParseIP a = Some ip.
Proof.
  induction l as [|[a' n'] l IH] using rev_ind; [now left|].
  rewrite rewrite_all_snoc. unfold mapping_add at 1. simpl.
  destruct (ParseIP a') as [ip'|] eqn:Hip'.
  - simpl. destruct (decide (n' = n)) as [->|Hne].
    + rewrite lookup_insert_eq. intros [= <-]. right. exists a'.
      split; [|exact Hip']. apply elem_of_app. right. apply list_elem_of_here.
    + rewrite lookup_insert_ne by exact Hne.
      intros [H|(a & Hin & Ha)]%IH; [now left|].
      right. exists a. split; [|exact Ha]. apply elem_of_app. now left.
  - intros [H|(a & Hin & Ha)]%IH; [now left|].
    right. exists a. split; [|exact Ha]. apply elem_of_app. now left.
Qed.

Lemma mapping_add_complete (l : list (string * string)) (d : Device) (a n : string)
  (ip : net.IP) :
  (a, n) ∈ l -> ParseIP a = Some ip ->
  is_Some (Mapping (rewrite_all mapping_add l d) !! n).
Proof.
  intros Hin Hip. induction l as [|[a' n'] l IH] using rev_ind; [inversion Hin|].
  rewrite rewrite_all_snoc. unfold mapping_add at 1. simpl.
  apply elem_of_app in Hin as [Hin|Hin].
  - specialize (IH Hin). destruct (ParseIP a'); [|exact IH]. simpl.
    destruct (decide (n' = n)) as [->|Hne].
    + rewrite lookup_insert_eq. now eexists.
    + now rewrite lookup_insert_ne.
  - apply list_elem_of_singleton in Hin. injection Hin as <- <-.
    rewrite Hip. simpl. rewrite lookup_insert_eq. now eexists.
Qed.

Lemma assembled_Mapping (ptrs : gmap string string) (rr : list dns.RR) (k : string)
  (a : net.IP) :
  Mapping (assembled ptrs rr k a)
  = Mapping (rewrite_all mapping_add
               (items_at (mapping_key (first_pass rr).2) k (range ptrs)) (fresh k a)).
Proof.
  unfold assembled.
  rewrite (rewrite_all_keeps Mapping) by (intros; apply detail_set_keeps).
  set (d1 := rewrite_all reverse_add _ _).
  assert (Hd1 : Mapping d1 = ∅).
  { unfold d1.
    rewrite (rewrite_all_keeps Mapping) by (intros; apply reverse_add_keeps).
    now rewrite (rewrite_all_keeps Mapping) by (intros; apply alias_add_keeps). }
  clearbody d1.
  induction (items_at _ k (range ptrs)) as [|x l IH] using rev_ind; [exact Hd1|].
  rewrite !rewrite_all_snoc. unfold mapping_add at 1 3.
  destruct (ParseIP x.1); [simpl; now rewrite IH | exact IH].
Qed.

Lemma assembled_mapping_entries (ptrs : gmap string string) (rr : list dns.RR)
  (k : string) (a0 : net.IP) (n : string) :
  (is_Some (Mapping (assembled ptrs rr k a0) !! n) <->
     last_of target_of rr n = Some k /\
     exists a, ptrs !! a = Some n /\ is_Some (ParseIP a)) /\
  (forall ip, Mapping (assembled ptrs rr k a0) !! n = Some ip ->
     exists a, ptrs !! a = Some n /\ ParseIP a = Some ip).
Proof.
  rewrite assembled_Mapping.
  assert (Hsound : forall ip,
             Mapping (rewrite_all mapping_add
                        (items_at (mapping_key (first_pass rr).2) k (range ptrs))
                        (fresh k a0)) !! n = Some ip ->
             last_of target_of rr n = Some k /\
             exists a, ptrs !! a = Some n /\ ParseIP a = Some ip).
  { intros ip [H|(a & [Hin Hkey]%elem_of_items_at & Hip)]%mapping_add_sound.
    - simpl in H. now rewrite lookup_empty in H.
    - apply range_lookup in Hin. unfold mapping_key in Hkey. simpl in Hkey.
      rewrite Hip in Hkey. rewrite (proj2 (first_pass_tables rr n)) in Hkey.
      split; [exact Hkey | now exists a]. }
  split; [split|].
  - intros [ip Hip]. destruct (Hsound ip Hip) as [Ht (a & Hin & Hparse)].
    split; [exact Ht|]. exists a. split; [exact Hin | now exists ip].
  - intros [Ht (a & Hin & [ip Hip])].
    apply (mapping_add_complete _ _ a n ip); [|exact Hip].
    apply elem_of_items_at. split; [now apply range_lookup|].
    unfold mapping_key. simpl.
    now rewrite Hip, (proj2 (first_pass_tables rr n)).
  - intros ip Hip. now destruct (Hsound ip Hip).
Qed.

(** X15. The mapping of a device of [List] has an entry for a name exactly
    when the last alias record of that name points to the device and the
    pointer table has a key for that name that reads as an address; the
    address of the entry is read from such a key. *)
Theorem correlate_mapping (ptrs : gmap string string) (rr : list dns.RR) (d : Device) :
  d ∈ Service.correlate ptrs rr ->
  forall n,
    (is_Some (Mapping d !! n) <->
       last_of target_of rr n = Some (Name d) /\
       exists a, ptrs !! a = Some n /\ is_Some (ParseIP a)) /\
    (forall ip, Mapping d !! n = Some ip ->
       exists a, ptrs !! a = Some n /\ ParseIP a = Some ip).
Proof.
  intros (k & a0 & Ha & ->)%correlate_device n.
  rewrite assembled_Name. apply assembled_mapping_entries.
Qed.

(** *** The details *)

Lemma items_records {V : Type} (g : dns.RData -> option V) (rr : list dns.RR)
  (k : string) :
  omap (fun r => g (dns.Data r)) (items_at detail_key k rr) = omap g (records_at rr k).
Proof.
  unfold items_at, records_at, detail_key.
  rewrite (filter_ext_bool
             (fun x => bool_decide (Some (dns.Name (dns.Hdr x)) = Some k))
             (fun r => String.eqb (dns.Name (dns.Hdr r)) k)).
  - induction (List.filter _ rr) as [|r l IH]; [reflexivity|].
    cbn. rewrite IH. reflexivity.
  - intros x. destruct (String.eqb_spec (dns.Name (dns.Hdr x)) k) as [->|Hne].
    + now rewrite bool_decide_eq_true_2.
    + rewrite bool_decide_eq_false_2; [reflexivity | congruence].
Qed.

Lemma assembled_before_details (ptrs : gmap string string) (rr : list dns.RR)
  (k : string) (a : net.IP) :
  exists d0,
    assembled ptrs rr k a = rewrite_all detail_set (items_at detail_key k rr) d0 /\
    Place d0 = "" /\ Model d0 = "" /\ Code d0 = "" /\
    Latitude d0 = 0%float /\ Longitude d0 = 0%float /\ Height d0 = 0%float.
Proof.
  eexists. split; [reflexivity|].
  repeat split.
  all: rewrite (rewrite_all_keeps _ mapping_add) by (intros; apply mapping_add_keeps).
  all: rewrite (rewrite_all_keeps _ reverse_add) by (intros; apply reverse_add_keeps).
  all: now rewrite (rewrite_all_keeps _ alias_add) by (intros; apply alias_add_keeps).
Qed.

Lemma assembled_details (ptrs : gmap string string) (rr : list dns.RR)
  (k : string) (a0 : net.IP) :
  Place (assembled ptrs rr k a0) = default "" (last_of place_of rr k) /\
  (Model (assembled ptrs rr k a0), Code (assembled ptrs rr k a0))
  = default ("", "") (last_of model_code_of rr k) /\
  (Latitude (assembled ptrs rr k a0), Longitude (assembled ptrs rr k a0),
   Height (assembled ptrs rr k a0))
  = default (0, 0, 0)%float (last_of location_of rr k).
Proof.
  destruct (assembled_before_details ptrs rr k a0)
    as (d0 & -> & HP & HM & HC & Hla & Hlo & Hh).
  unfold last_of. rewrite <- !items_records.
  rewrite <- HP at 1. rewrite <- HM, <- HC at 1. rewrite <- Hla, <- Hlo, <- Hh at 1.
  split; [|split].
  - apply (rewrite_all_last Place detail_set (fun r => place_of (dns.Data r))).
    intros x d. unfold detail_set. now destruct (dns.Data x).
  - apply (rewrite_all_last (fun d => (Model d, Code d)) detail_set
             (fun r => model_code_of (dns.Data r))).
    intros x d. unfold detail_set. now destruct (dns.Data x).
  - apply (rewrite_all_last (fun d => (Latitude d, Longitude d, Height d)) detail_set
             (fun r => location_of (dns.Data r))).
    intros x d. unfold detail_set. now destruct (dns.Data x).
Qed.

(** X16. The place of a device of [List] is the text of the last TXT
    record of its name, its strings joined by a space; its model and code
    are the two fields of the last HINFO record; its latitude, longitude and
    height are decoded from the last LOC record. A device without a record
    of a kind has the zero value there. *)
Theorem correlate_details (ptrs : gmap string string) (rr : list dns.RR) (d : Device) :
  d ∈ Service.correlate ptrs rr ->
  Place d = default "" (last_of place_of rr (Name d)) /\
  (Model d, Code d) = default ("", "") (last_of model_code_of rr (Name d)) /\
  (Latitude d, Longitude d, Height d)
  = default (0, 0, 0)%float (last_of location_of rr (Name d)).
Proof.
  intros (k & a0 & Ha & ->)%correlate_device.
  rewrite assembled_Name. apply assembled_details.
Qed.

End inventory_contents.

(** ** Reverse names: [reverseAddress] and the way [List] reads them back *)

Lemma uitoa_no_dot (b : byte) : has_dot (net.uitoa (Byte.to_N b)) = false.
Proof. destruct b; reflexivity. Qed.

Lemma uitoa_no_i (b : byte) : has_char "i" (net.uitoa (Byte.to_N b)) = false.
Proof. destruct b; reflexivity. Qed.

Lemma append_cons (c : ascii) (s t : string) : String c s +:+ t = String c (s +:+ t).
Proof. reflexivity. Qed.

Lemma has_char_app (c : ascii) (a b : string) :
  has_char c (a +:+ b) = has_char c a || has_char c b.
Proof.
  induction a as [|x a IH]; [reflexivity|].
  rewrite append_cons. unfold has_char in *. simpl. now rewrite IH, orb_assoc.
Qed.

Lemma append_nil_r (s : string) : s +:+ "" = s.
Proof. induction s as [|c s IH]; [reflexivity|]. now rewrite append_cons, IH. Qed.

Lemma append_assoc (a b c : string) : (a +:+ b) +:+ c = a +:+ (b +:+ c).
Proof. induction a as [|x a IH]; [reflexivity|]. now rewrite !append_cons, IH. Qed.

Lemma append_snoc (cur : string) (c : ascii) (s : string) :
  (cur +:+ String c "") +:+ s = cur +:+ String c s.
Proof. now rewrite append_assoc. Qed.

(** Splitting at dots: a piece without a dot is read up to the next dot, or
    to the end. *)
Lemma split_dot_end (cur s : string) :
  has_dot s = false -> strings.split_scan "." 0 cur s = [cur +:+ s].
Proof.
  revert cur. induction s as [|c s IH]; intros cur Hs.
  - now rewrite append_nil_r.
  - rewrite has_dot_cons in Hs. apply orb_false_elim in Hs as [Hc Hs].
    cbn [strings.split_scan String.prefix].
    destruct (ascii_dec "." c) as [<-|_]; [discriminate Hc|].
    rewrite IH by exact Hs. now rewrite append_snoc.
Qed.

Lemma split_dot_piece (cur s t : string) :
  has_dot s = false ->
  strings.split_scan "." 0 cur (s +:+ String "." t)
  = (cur +:+ s) :: strings.split_scan "." 0 "" t.
Proof.
  revert cur. induction s as [|c s IH]; intros cur Hs.
  - rewrite append_nil_r. rewrite ?append_cons; cbn [strings.split_scan String.prefix].
    destruct (ascii_dec "." "."); [|congruence].
    now destruct t.
  - rewrite has_dot_cons in Hs. apply orb_false_elim in Hs as [Hc Hs].
    rewrite ?append_cons; cbn [strings.split_scan String.prefix].
    destruct (ascii_dec "." c) as [<-|_]; [discriminate Hc|].
    rewrite IH by exact Hs. now rewrite append_snoc.
Qed.

Lemma Split_dotted (a b c d : byte) :
  strings.Split (dotted a b c d) "."
  = [net.uitoa (Byte.to_N a); net.uitoa (Byte.to_N b);
     net.uitoa (Byte.to_N c); net.uitoa (Byte.to_N d)].
Proof.
  unfold strings.Split, dotted.
  set (ua := net.uitoa (Byte.to_N a)). set (ub := net.uitoa (Byte.to_N b)).
  set (uc := net.uitoa (Byte.to_N c)). set (ud := net.uitoa (Byte.to_N d)).
  change (strings.split_scan "." 0 ""
            (ua +:+ String "." (ub +:+ String "." (uc +:+ String "." ud)))
          = [ua; ub; uc; ud]).
  rewrite (split_dot_piece "" ua) by apply uitoa_no_dot.
  rewrite (split_dot_piece "" ub) by apply uitoa_no_dot.
  rewrite (split_dot_piece "" uc) by apply uitoa_no_dot.
  now rewrite split_dot_end by apply uitoa_no_dot.
Qed.

Lemma String_no_dot (ip : net.IP) :
  net.To4 ip = None -> has_dot (net.String ip) = false.
Proof.
  intros Hv4. unfold net.String. rewrite Hv4.
  destruct ip as [|b0 ip]; [reflexivity|].
  destruct (Nat.eqb _ _); [apply has_dot_string6|].
  rewrite has_dot_app. apply has_dot_hexString.
Qed.

Lemma reverseAddress_v4 (ip : net.IP) (a b c d : byte) :
  net.To4 ip = Some [a; b; c; d] ->
  reverseAddress ip = dotted d c b a +:+ ".in-addr.arpa.".
Proof.
  intros Hv4. unfold reverseAddress.
  now rewrite (String_v4 _ _ _ _ _ Hv4), Split_dotted.
Qed.

(** X17. The reverse name of an IPv4 address, in its 4-byte or its 16-byte
    form, is its four octets in reverse order under [in-addr.arpa.]; for any
    other address (an IPv6 address, a nil or malformed slice) it is the text
    of the address, unchanged, under [in-addr.arpa.]. *)
Theorem reverseAddress_shape (ip : net.IP) :
  reverseAddress ip
  = match net.To4 ip with
    | Some [a; b; c; d] => dotted d c b a
    | _ => net.String ip
    end +:+ ".in-addr.arpa.".
Proof.
  destruct (net.To4 ip) as [x|] eqn:Hv4.
  - pose proof (To4_length _ _ Hv4) as Hlen.
    destruct x as [|a [|b [|c [|d [|? ?]]]]]; try discriminate Hlen.
    now apply reverseAddress_v4.
  - unfold reverseAddress, strings.Split.
    now rewrite split_dot_end by now apply String_no_dot.
Qed.

(** *** Reading a reverse name back *)

Lemma prefix_first_i (pre t s : string) :
  has_char "i" pre = false -> String.prefix (pre +:+ String "i" t) s = true ->
  exists rest, s = pre +:+ String "i" rest.
Proof.
  revert s. induction pre as [|c pre IH]; intros s Hpre Hs.
  - change ("" +:+ String "i" t) with (String "i" t) in Hs.
    destruct s as [|c' s]; [discriminate|]. cbn [String.prefix] in Hs.
    destruct (ascii_dec "i" c') as [<-|]; [|discriminate]. now exists s.
  - rewrite append_cons in Hs.
    destruct s as [|c' s]; [discriminate|]. cbn [String.prefix] in Hs.
    destruct (ascii_dec c c') as [<-|]; [|discriminate].
    unfold has_char in Hpre. simpl in Hpre.
    apply orb_false_elim in Hpre as [_ Hpre].
    destruct (IH s Hpre Hs) as [rest ->]. now exists rest.
Qed.

Lemma first_i_unique (a b t t' : string) :
  has_char "i" a = false -> has_char "i" b = false ->
  a +:+ String "i" t = b +:+ String "i" t' -> a = b.
Proof.
  revert b. induction a as [|c a IH]; intros [|c' b] Ha Hb; rewrite ?append_cons;
    change ("" +:+ ?x) with x.
  - reflexivity.
  - intros [= <- _]. unfold has_char in Hb. simpl in Hb. discriminate.
  - intros [= -> _]. unfold has_char in Ha. simpl in Ha. discriminate.
  - intros [= <- H]. f_equal.
    unfold has_char in *. simpl in *.
    apply orb_false_elim in Ha as [_ Ha]. apply orb_false_elim in Hb as [_ Hb].
    now apply (IH b).
Qed.

Lemma length_append (a b : string) :
  String.length (a +:+ b) = (String.length a + String.length b)%nat.
Proof.
  induction a as [|c a IH]; [reflexivity|]. rewrite append_cons. simpl. now rewrite IH.
Qed.

Lemma zone_no_match (pre t x : string) :
  has_char "i" pre = false -> has_char "i" x = false -> x <> "" ->
  String.prefix (pre +:+ String "i" t) (x +:+ pre +:+ String "i" t) = false.
Proof.
  intros Hpre Hx Hne.
  destruct (String.prefix _ _) eqn:Hp; [|reflexivity]. exfalso.
  apply prefix_first_i in Hp as [rest Hrest]; [|exact Hpre].
  rewrite <- append_assoc in Hrest.
  apply first_i_unique in Hrest; [|now rewrite has_char_app, Hx, Hpre|exact Hpre].
  apply (f_equal String.length) in Hrest. rewrite length_append in Hrest.
  destruct x; [now apply Hne|]. simpl in Hrest. lia.
Qed.

Lemma split_skip (sep cur s : string) :
  strings.split_scan sep (String.length s) cur s = [cur].
Proof. induction s as [|c s IH]; [reflexivity | exact IH]. Qed.

Lemma prefix_refl (s : string) : String.prefix s s = true.
Proof.
  induction s as [|c s IH]; [reflexivity|]. simpl.
  now destruct (ascii_dec c c).
Qed.

(** Cutting a zone off a name that holds it once, at its end. *)
Lemma split_zone (pre t cur x : string) :
  has_char "i" pre = false -> has_char "i" x = false ->
  strings.split_scan (pre +:+ String "i" t) 0 cur (x +:+ pre +:+ String "i" t)
  = [cur +:+ x; ""].
Proof.
  intros Hpre. revert cur. induction x as [|c x IH]; intros cur Hx.
  - change ("" +:+ ?y) with y. rewrite append_nil_r.
    pose proof (prefix_refl (pre +:+ String "i" t)) as Hrefl.
    destruct (pre +:+ String "i" t) as [|c z'] eqn:Hz;
      [destruct pre; discriminate Hz|].
    cbn [strings.split_scan]. rewrite Hrefl.
    change (String.length (String c z') - 1)%nat with (String.length z' - 0)%nat.
    now rewrite Nat.sub_0_r, split_skip.
  - pose proof (zone_no_match pre t (String c x) Hpre Hx ltac:(discriminate)) as Hno.
    rewrite append_cons in *.
    destruct (pre +:+ String "i" t) as [|c' z'] eqn:Hz;
      [destruct pre; discriminate Hz|].
    cbn [strings.split_scan]. rewrite Hno.
    unfold has_char in Hx. simpl in Hx. apply orb_false_elim in Hx as [_ Hx].
    rewrite IH by exact Hx. now rewrite append_snoc.
Qed.

Lemma Replace_zone (pre t x : string) :
  has_char "i" pre = false -> has_char "i" x = false ->
  strings.Replace (x +:+ pre +:+ String "i" t) (pre +:+ String "i" t) "" = x.
Proof.
  intros Hpre Hx. unfold strings.Replace.
  pose proof (split_zone pre t "" x Hpre Hx) as Hsplit.
  destruct (pre +:+ String "i" t) as [|c z'] eqn:Hz;
    [destruct pre; discriminate Hz|].
  rewrite Hsplit. change ("" +:+ x) with x. cbn [strings.Join].
  now rewrite !append_nil_r.
Qed.

Lemma ptr_address_dotted (a b c d : byte) (pre t x y : string) :
  has_char "i" pre = false -> has_char "i" x = false ->
  strings.Replace (pre +:+ String "i" t) ".in-addr.arpa." "" = y ->
  dotted d c b a +:+ ".in-addr.arpa." = x +:+ pre +:+ String "i" t ->
  x +:+ y = dotted d c b a ->
  ptr_address (dotted d c b a +:+ ".in-addr.arpa.") (pre +:+ String "i" t)
  = dotted a b c d.
Proof.
  intros Hpre Hx Hy Hname Hxy. unfold ptr_address.
  rewrite Hy, Hname, Replace_zone, Hxy, Split_dotted by assumption.
  reflexivity.
Qed.

(** X18. [List] reads a reverse name back as [Update] wrote it: for every
    address that [Update] sends a reverse record for (its private zone is
    not the zone of the caller), the address text [List] computes from the
    reverse name of the address and that private zone is the text of the
    address. *)
Theorem reverse_name_round_trip (r : net.IP) (zone : string) :
  findPrivateZone r zone <> zone ->
  ptr_address (reverseAddress r) (findPrivateZone r zone) = net.String r.
Proof.
  intros Hz.
  destruct (net.To4 r) as [x|] eqn:Hv4;
    [|now rewrite findPrivateZone_not_v4 in Hz].
  pose proof (To4_length _ _ Hv4) as Hlen.
  destruct x as [|a [|b [|c [|d [|? ?]]]]]; try discriminate Hlen.
  rewrite (findPrivateZone_v4 a b c d) in * by exact Hv4.
  rewrite (reverseAddress_v4 _ _ _ _ _ Hv4), (String_v4 _ _ _ _ _ Hv4).
  assert (Hdot : has_char "i" "." = false) by reflexivity.
  destruct (Byte.eqb x0a a) eqn:Ha.
  { apply byte_dec_bl in Ha as <-.
    apply (ptr_address_dotted x0a b c d "10." "n-addr.arpa."
             (net.uitoa (Byte.to_N d) +:+ "." +:+ net.uitoa (Byte.to_N c) +:+ "." +:+
              net.uitoa (Byte.to_N b) +:+ ".") "10").
    - reflexivity.
    - now rewrite !has_char_app, !uitoa_no_i, Hdot.
    - reflexivity.
    - unfold dotted. now rewrite !append_assoc.
    - unfold dotted. now rewrite !append_assoc. }
  destruct (Byte.eqb xac a && Byte.eqb x10 b) eqn:Hab.
  { apply andb_prop in Hab as [<-%byte_dec_bl <-%byte_dec_bl].
    apply (ptr_address_dotted xac x10 c d "16.172." "n-addr.arpa."
             (net.uitoa (Byte.to_N d) +:+ "." +:+ net.uitoa (Byte.to_N c) +:+ ".")
             "16.172").
    - reflexivity.
    - now rewrite !has_char_app, !uitoa_no_i, Hdot.
    - reflexivity.
    - unfold dotted. now rewrite !append_assoc.
    - unfold dotted. now rewrite !append_assoc. }
  destruct (Byte.eqb xc0 a && Byte.eqb xa8 b) eqn:Hab'.
  { apply andb_prop in Hab' as [<-%byte_dec_bl <-%byte_dec_bl].
    apply (ptr_address_dotted xc0 xa8 c d "168.192." "n-addr.arpa."
             (net.uitoa (Byte.to_N d) +:+ "." +:+ net.uitoa (Byte.to_N c) +:+ ".")
             "168.192").
    - reflexivity.
    - now rewrite !has_char_app, !uitoa_no_i, Hdot.
    - reflexivity.
    - unfold dotted. now rewrite !append_assoc.
    - unfold dotted. now rewrite !append_assoc. }
  now contradiction Hz.
Qed.

(** ** [Decode] and the records of a device *)

Lemma Decode_rewrite_all (records : list dns.RR) :
  Service.Decode records = rewrite_all decode_record records Device_zero.
Proof. reflexivity. Qed.

(** X19. [Decode] takes each field from the last record that has it,
    whatever the owner names of the records: the name from the last record,
    the address from the last address record, the place from the last TXT
    record, the model and the code from the last HINFO record, the location
    from the last LOC record, and the zero value where there is no such
    record. It never fills the reverse addresses, the aliases or the
    mapping. *)
Theorem Decode_last_wins (records : list dns.RR) :
  Name (Service.Decode records)
  = default "" (last ((fun r => dns.Name (dns.Hdr r)) <$> records)) /\
  IP (Service.Decode records)
  = default [] (last (omap (fun r => address_of (dns.Data r)) records)) /\
  Place (Service.Decode records)
  = default "" (last (omap (fun r => place_of (dns.Data r)) records)) /\
  (Model (Service.Decode records), Code (Service.Decode records))
  = default ("", "") (last (omap (fun r => model_code_of (dns.Data r)) records)) /\
  (Latitude (Service.Decode records), Longitude (Service.Decode records),
   Height (Service.Decode records))
  = default (0, 0, 0)%float (last (omap (fun r => location_of (dns.Data r)) records)) /\
  Reverse (Service.Decode records) = [] /\
  Aliases (Service.Decode records) = [] /\
  Mapping (Service.Decode records) = ∅.
Proof.
  rewrite Decode_rewrite_all.
  repeat split.
  - rewrite list_fmap_alt.
    apply (rewrite_all_last Name decode_record
             (fun r => Some (dns.Name (dns.Hdr r)))).
    intros x d. unfold decode_record. now destruct (dns.Data x).
  - apply (rewrite_all_last IP decode_record (fun r => address_of (dns.Data r))).
    intros x d. unfold decode_record. now destruct (dns.Data x).
  - apply (rewrite_all_last Place decode_record (fun r => place_of (dns.Data r))).
    intros x d. unfold decode_record. now destruct (dns.Data x).
  - apply (rewrite_all_last (fun d => (Model d, Code d)) decode_record
             (fun r => model_code_of (dns.Data r))).
    intros x d. unfold decode_record. now destruct (dns.Data x).
  - apply (rewrite_all_last (fun d => (Latitude d, Longitude d, Height d))
             decode_record (fun r => location_of (dns.Data r))).
    intros x d. unfold decode_record. now destruct (dns.Data x).
  - apply (rewrite_all_keeps Reverse decode_record).
    intros x d. unfold decode_record. now destruct (dns.Data x).
  - apply (rewrite_all_keeps Aliases decode_record).
    intros x d. unfold decode_record. now destruct (dns.Data x).
  - apply (rewrite_all_keeps Mapping decode_record).
    intros x d. unfold decode_record. now destruct (dns.Data x).
Qed.

(** *** A place name survives the cut at its spaces *)

Lemma split_scan_cons (sep : string) (skip : nat) (cur s : string) :
  exists x l, strings.split_scan sep skip cur s = x :: l.
Proof.
  revert skip cur. induction s as [|c s IH]; intros skip cur; [now eexists _, _|].
  cbn [strings.split_scan]. destruct skip as [|k]; [|apply IH].
  destruct (String.prefix sep (String c s)); [now eexists _, _ | apply IH].
Qed.

Lemma Join_cons (x : string) (l : list string) (sep : string) :
  l <> [] -> strings.Join (x :: l) sep = x +:+ sep +:+ strings.Join l sep.
Proof. now destruct l. Qed.

Lemma Join_split_byte (c : ascii) (cur s : string) :
  strings.Join (strings.split_scan (String c "") 0 cur s) (String c "") = cur +:+ s.
Proof.
  revert cur. induction s as [|a s IH]; intros cur.
  - now rewrite append_nil_r.
  - cbn [strings.split_scan String.prefix String.length].
    destruct (ascii_dec c a) as [<-|Hne].
    + assert (Hnil : String.prefix "" s = true) by now destruct s.
      rewrite Hnil. change (1 - 1)%nat with 0%nat.
      destruct (split_scan_cons (String c "") 0 "" s) as (x & l & Hl).
      rewrite Join_cons by (rewrite Hl; discriminate).
      rewrite IH. reflexivity.
    + rewrite IH. now rewrite append_snoc.
Qed.

Lemma Join_Split_space (s : string) : strings.Join (strings.Split s " ") " " = s.
Proof. unfold strings.Split. apply (Join_split_byte " " "" s). Qed.

Section info.
Context {nw : Network} {rt : Runtime}.

Lemma info_records_describe (d : Device) (rq : Request) :
  rq_rr rq = [ToOPT d; ToTXT d; ToHINFO d; ToLOC d] -> describes d rq.
Proof.
  intros Hrr. unfold describes. rewrite Hrr.
  unfold Service.Decode, ToLOC, ToOPT, ToTXT, ToHINFO.
  destruct (Location d) as [[la lo] a].
  cbn [fold_left dns.Data dns.Hdr dns.Name].
  cbn [Name Place Model Code set_Name set_Place set_Model_Code SetLocation set_IP].
  rewrite Join_Split_space. now repeat split.
Qed.

(** X20. [UpdateInfo] sends one insertion and [RemoveInfo] one removal of
    record sets, to the zone given, of records that describe the device:
    decoded, they give back its fully qualified name, its place (the cut at
    the spaces is undone by the join), its model and its code. [RemoveAll]
    sends one removal of the fully qualified name of the device. *)
Theorem UpdateInfo_describes (s : Service) (zone : string) (d : Device) :
  (exists rq,
     (forall st, sent (Service.UpdateInfo s zone d st).2 = sent st ++ [rq]) /\
     rq_zone rq = zone /\ rq_kind rq = KInsert /\ describes d rq) /\
  (exists rq,
     (forall st, sent (Service.RemoveInfo s zone d st).2 = sent st ++ [rq]) /\
     rq_zone rq = zone /\ rq_kind rq = KRemoveRRset /\ describes d rq) /\
  (exists rq,
     (forall st, sent (Service.RemoveAll s zone d st).2 = sent st ++ [rq]) /\
     rq_zone rq = zone /\ rq_kind rq = KRemoveName /\
     (fun r => dns.Name (dns.Hdr r)) <$> rq_rr rq = [dns.Fqdn (Name d)]).
Proof.
  split; [|split]; eexists; (split; [intros st; apply exchange_sent|]);
    repeat split; now apply info_records_describe.
Qed.

End info.

(** ** [Device.Equal] is not an equivalence *)

Lemma EqualFold_sym (s t : string) : strings.EqualFold s t = strings.EqualFold t s.
Proof.
  revert t. induction s as [|a s IH]; intros [|b t]; try reflexivity.
  simpl. now rewrite IH, Ascii.eqb_sym.
Qed.

Lemma byte_eqb_sym (a b : byte) : Byte.eqb a b = Byte.eqb b a.
Proof.
  destruct (Byte.eqb a b) eqn:Hab.
  - apply byte_dec_bl in Hab as ->. symmetry. apply byte_eqb_refl.
  - destruct (Byte.eqb b a) eqn:Hba; [|reflexivity].
    apply byte_dec_bl in Hba as ->. now rewrite byte_eqb_refl in Hab.
Qed.

Lemma bytes_eqb_sym (x y : list byte) : net.bytes_eqb x y = net.bytes_eqb y x.
Proof.
  revert y. induction x as [|a x IH]; intros [|b y]; try reflexivity.
  simpl. now rewrite IH, byte_eqb_sym.
Qed.

Lemma IP_Equal_sym (ip x : net.IP) : net.Equal ip x = net.Equal x ip.
Proof.
  unfold net.Equal, net.IPv4len, net.IPv6len.
  rewrite (Nat.eqb_sym (length x) (length ip)).
  destruct (Nat.eqb_spec (length ip) (length x)) as [Hl|Hl];
    [apply bytes_eqb_sym|].
  destruct (Nat.eqb_spec (length ip) 4) as [H4|H4],
           (Nat.eqb_spec (length x) 16) as [H16|H16],
           (Nat.eqb_spec (length x) 4) as [H4'|H4'],
           (Nat.eqb_spec (length ip) 16) as [H16'|H16'];
    simpl; try reflexivity; try congruence.
  - now rewrite (bytes_eqb_sym ip).
  - now rewrite (bytes_eqb_sym x).
Qed.

(** X21. [Equal] is symmetric on devices without reverse addresses, and
    not on all devices: a device that has the address of another among its
    reverse addresses equals the other, which does not equal it. *)
Theorem Equal_symmetry :
  (forall d d', Reverse d = [] -> Reverse d' = [] -> Equal d d' = Equal d' d) /\
  (Equal multihomed second_home = true /\ Equal second_home multihomed = false).
Proof.
  split; [|split; vm_compute; reflexivity].
  intros d d' Hd Hd'. unfold Equal, HasName, HasAddress, HasCode, HasModel, AtLocation.
  rewrite Hd, Hd'. simpl existsb.
  destruct (Location d) as [[la lo] a], (Location d') as [[la' lo'] a'].
  rewrite (EqualFold_sym (Name d')), (IP_Equal_sym (IP d')), (EqualFold_sym (Code d')),
    (String.eqb_sym (Model d')), (Z.eqb_sym la'), (Z.eqb_sym lo'), (Z.eqb_sym a').
  reflexivity.
Qed.

(** ** The pointer table of [List] *)

Lemma collect_ptr_lookup (z a : string) (ptrs : gmap string string) (r : dns.RR) :
  Service.collect_ptr z ptrs r !! a
  = match pointer_of z a r with Some p => Some p | None => ptrs !! a end.
Proof.
  unfold Service.collect_ptr, pointer_of. destruct (dns.Data r); try reflexivity.
  destruct (String.eqb_spec (ptr_address (dns.Name (dns.Hdr r)) z) a) as [->|Hne].
  - apply lookup_insert_eq.
  - now apply lookup_insert_ne.
Qed.

Lemma collect_ptr_zone (z a : string) (rr : list dns.RR) (ptrs : gmap string string) :
  fold_left (Service.collect_ptr z) rr ptrs !! a
  = match last (omap (pointer_of z a) rr) with Some p => Some p | None => ptrs !! a end.
Proof.
  induction rr as [|r rr IH] using rev_ind; [reflexivity|].
  rewrite fold_left_app, omap_app, last_app. cbn [fold_left].
  rewrite collect_ptr_lookup, IH. cbn [omap list_omap].
  now destruct (pointer_of z a r).
Qed.

(** X22. The pointer table [List] builds from the reverse zones gives, for
    an address text, the pointer of the last PTR record whose owner name
    reads as that text, in the order of the zones and of their transfers. *)
Theorem ptr_table_last_wins (zs : list (string * list dns.RR)) (a : string) :
  ptr_table zs !! a = last (pointers zs a).
Proof.
  unfold ptr_table, pointers.
  induction zs as [|[z rr] zs IH] using rev_ind; [apply lookup_empty|].
  rewrite fold_left_app, fmap_app, concat_app, last_app. cbn [fold_left fst snd].
  rewrite collect_ptr_zone, IH. simpl. now rewrite app_nil_r.
Qed.

(** ** What [List] leaves to the order of iteration over its maps *)

Lemma filter_Permutation {A : Type} (f : A -> bool) (l k : list A) :
  l ≡ₚ k -> List.filter f l ≡ₚ List.filter f k.
Proof.
  induction 1 as [|x l k _ IH|x y l|l k m _ IH1 _ IH2]; simpl.
  - reflexivity.
  - destruct (f x); [now constructor | exact IH].
  - destruct (f x), (f y); try reflexivity. apply perm_swap.
  - now transitivity (List.filter f k).
Qed.

Lemma range_orders (rt1 rt2 : Runtime) {V : Type} (m : gmap string V) :
  range (Runtime := rt1) m ≡ₚ range (Runtime := rt2) m.
Proof. now rewrite !range_perm. Qed.

Lemma correlate_names (rt1 rt2 : Runtime) (ptrs : gmap string string)
  (rr : list dns.RR) :
  Name <$> Service.correlate (rt := rt1) ptrs rr
  = Name <$> Service.correlate (rt := rt2) ptrs rr.
Proof.
  rewrite !correlate_sorted_devices.
  destruct (sorted_devices_names (rt := rt1) _ (correlated_well_keyed (rt := rt1) ptrs rr))
    as [-> _].
  destruct (sorted_devices_names (rt := rt2) _ (correlated_well_keyed (rt := rt2) ptrs rr))
    as [-> _].
  apply Strings_unique; [apply Strings_sorted|].
  destruct (Strings_sorted (range (Runtime := rt1) (correlated (rt := rt1) ptrs rr)).*1)
    as [_ ->].
  destruct (range_keys (rt := rt1) (correlated (rt := rt1) ptrs rr)) as [Hnd1 Hin1].
  destruct (range_keys (rt := rt2) (correlated (rt := rt2) ptrs rr)) as [Hnd2 Hin2].
  apply NoDup_Permutation; [exact Hnd1 | exact Hnd2|].
  intros k. rewrite Hin1, Hin2, !correlated_assembled, !fmap_is_Some. reflexivity.
Qed.

(** X23. Which devices [List] returns, and their names, addresses, places,
    models, codes and locations, do not depend on the order in which the
    maps are iterated; the aliases and the reverse addresses of a device are
    the same up to their order, and its mapping has the same names. The
    addresses of the mapping do depend on the order: with two addresses
    that point to one alias, either may be the one kept. *)
Theorem List_iteration_order :
  (forall (rt1 rt2 : Runtime) (ptrs : gmap string string) (rr : list dns.RR),
     @ParseIP rt1 = @ParseIP rt2 ->
     Name <$> Service.correlate (rt := rt1) ptrs rr
     = Name <$> Service.correlate (rt := rt2) ptrs rr /\
     forall d1 d2,
       d1 ∈ Service.correlate (rt := rt1) ptrs rr ->
       d2 ∈ Service.correlate (rt := rt2) ptrs rr ->
       Name d1 = Name d2 ->
       IP d1 = IP d2 /\
       Aliases d1 ≡ₚ Aliases d2 /\
       Reverse d1 ≡ₚ Reverse d2 /\
       dom (Mapping d1) = dom (Mapping d2) /\
       Place d1 = Place d2 /\ Model d1 = Model d2 /\ Code d1 = Code d2 /\
       Latitude d1 = Latitude d2 /\ Longitude d1 = Longitude d2 /\
       Height d1 = Height d2) /\
  (exists d1 d2,
     d1 ∈ Service.correlate (rt := dotted_runtime) two_pointers alias_forward /\
     d2 ∈ Service.correlate (rt := reversed_runtime) two_pointers alias_forward /\
     Name d1 = Name d2 /\ Mapping d1 <> Mapping d2).
Proof.
  split.
  - intros rt1 rt2 ptrs rr Hparse. split; [apply correlate_names|].
    intros d1 d2 (k1 & a1 & Ha1 & ->)%correlate_device
      (k2 & a2 & Ha2 & ->)%correlate_device.
    rewrite !assembled_Name. intros <-.
    assert (a2 = a1) as -> by congruence.
    rewrite !assembled_IP, !assembled_Aliases, !assembled_Reverse.
    split; [reflexivity|]. split; [|split; [|split]].
    + apply fmap_Permutation. unfold items_at.
      apply filter_Permutation, range_orders.
    + unfold items_at, reverse_key. rewrite Hparse.
      apply omap_Permutation, filter_Permutation, range_orders.
    + apply set_eq. intros n. rewrite !elem_of_dom.
      rewrite (proj1 (assembled_mapping_entries (rt := rt1) ptrs rr k1 a1 n)).
      rewrite (proj1 (assembled_mapping_entries (rt := rt2) ptrs rr k1 a1 n)).
      now rewrite Hparse.
    + destruct (assembled_details (rt := rt1) ptrs rr k1 a1) as (HP1 & HM1 & HL1).
      destruct (assembled_details (rt := rt2) ptrs rr k1 a1) as (HP2 & HM2 & HL2).
      rewrite <- HM2 in HM1. rewrite <- HL2 in HL1.
      injection HM1 as HM HC. injection HL1 as Hla Hlo Hh.
      rewrite HP1, HP2. now repeat split.
  - exists (default Device_zero
              (head (Service.correlate (rt := dotted_runtime) two_pointers alias_forward))),
           (default Device_zero
              (head (Service.correlate (rt := reversed_runtime) two_pointers alias_forward))).
    split; [vm_compute; apply list_elem_of_here|].
    split; [vm_compute; apply list_elem_of_here|].
    split; [reflexivity|].
    intros Heq. apply (f_equal (fun m => m !! "alt.zone.")) in Heq.
    vm_compute in Heq. discriminate Heq.
Qed.

(** ** C4: an address, an alias and a reverse pointer to the alias *)

Section correlation_of_a_host.
Context {nw : Network} {rt : Runtime}.

(** The two orders of a set of two records. *)
Lemma Permutation_pair {A : Type} (x y : A) (l : list A) :
  l ≡ₚ [x; y] -> l = [x; y] \/ l = [y; x].
Proof. intros H. symmetry in H. now apply Permutation_length_2_inv in H. Qed.

(** The devices made of an address record, an alias record to its name
    and a pointer to the alias, whichever of the two records comes first. *)
Lemma correlate_host_alias (ha hc : dns.RR_Header) (hostip addr : net.IP)
  (a : string) (rr : list dns.RR) :
  dns.Name ha <> dns.Name hc ->
  ParseIP a = Some addr ->
  rr ≡ₚ [{| dns.Hdr := ha; dns.Data := dns.A hostip |};
         {| dns.Hdr := hc; dns.Data := dns.CNAME (dns.Name ha) |}] ->
  Service.correlate ({[a := dns.Name hc]} : gmap string string) rr
  = [{| Name := dns.Name ha; IP := hostip; Reverse := [];
        Mapping := {[dns.Name hc := addr]}; Aliases := [dns.Name hc];
        Place := ""; Model := ""; Code := "";
        Latitude := 0%float; Longitude := 0%float; Height := 0%float |}].
Proof.
  intros Hne Hparse [->| ->]%Permutation_pair.
  all: unfold Service.correlate; simpl fold_left at 1.
  all: unfold Service.search_record; simpl.
  all: change (<[dns.Name hc := dns.Name ha]> ∅)
         with ({[dns.Name hc := dns.Name ha]} : gmap string string).
  all: rewrite !range_singleton; simpl.
  all: rewrite lookup_insert_ne, lookup_empty by congruence.
  all: rewrite lookup_insert_eq; rewrite insert_insert_eq.
  all: unfold Service.gather_reverse, Service.gather_mapping; rewrite Hparse.
  all: rewrite lookup_insert_ne, lookup_empty by exact Hne.
  all: rewrite lookup_singleton_eq, lookup_insert_eq, insert_insert_eq.
  all: unfold Service.gather_detail; simpl.
  all: rewrite ?lookup_insert_eq, ?insert_insert_eq.
  all: rewrite lookup_insert_ne, lookup_empty by exact Hne.
  all: rewrite ?lookup_insert_eq, ?insert_insert_eq.
  all: unfold Service.sorted_devices.
  all: change (<[dns.Name ha := ?d]> ∅) with ({[dns.Name ha := d]} : gmap string Device).
  all: rewrite range_singleton.
  all: change ([(dns.Name ha, ?d)].*1) with [dns.Name ha].
  all: rewrite Strings_singleton.
  all: change ((fun k => ?m !!! k) <$> [?k]) with [m !!! k].
  all: rewrite lookup_total_singleton, decide_True by reflexivity; reflexivity.
Qed.

(** C4. A forward zone whose records, apart from those of types [List]
    does not look at, are an address record for [host] and an alias record
    [alt -> host], in either order, and a reverse zone whose only such record
    is a pointer record from an address to [alt]: [List] builds one device,
    named [host], whose aliases are [alt] and whose mapping sends [alt] to
    that address. More generally, whatever else the transfers deliver and in
    whatever order: when [host] has an address record, the last alias record
    of [alt] points to [host], [alt] has no address record of its own, and
    the pointer table sends an address text to [alt] (and no text that reads
    as another address), the list holds a device named [host] that has
    [alt] among its aliases and whose mapping sends [alt] to that address.
    And for every record set, no name of a device of the list is an alias
    of a device of the list. *)
Theorem List_correlates (s : Service) :
  (forall (ha hc hp : dns.RR_Header) (hostip addr : net.IP) (zone rzone : string)
          (fwd rev : list dns.RR) (st st1 st2 : Net),
     dns.Name ha <> dns.Name hc ->
     Service.Transfer s rzone st = (inr rev, st1) ->
     Service.Transfer s zone st1 = (inr fwd, st2) ->
     List.filter significant rev
     = [{| dns.Hdr := hp; dns.Data := dns.PTR (dns.Name hc) |}] ->
     List.filter significant fwd
     ≡ₚ [{| dns.Hdr := ha; dns.Data := dns.A hostip |};
         {| dns.Hdr := hc; dns.Data := dns.CNAME (dns.Name ha) |}] ->
     ParseIP (ptr_address (dns.Name hp) rzone) = Some addr ->
     Service.List s [zone] [rzone] st
     = (([{| Name := dns.Name ha; IP := hostip; Reverse := [];
              Mapping := {[dns.Name hc := addr]}; Aliases := [dns.Name hc];
              Place := ""; Model := ""; Code := "";
              Latitude := 0%float; Longitude := 0%float; Height := 0%float |}],
         None), st2)) /\
  (forall (zones reverse : list string) (st st1 st2 : Net)
          (ptrs : gmap string string) (rr : list dns.RR)
          (host alt a : string) (hostip addr : net.IP),
     Service.reverse_lookups s reverse st = (inr ptrs, st1) ->
     Service.recover_entries s zones st1 = (inr rr, st2) ->
     last_of address_of rr host = Some hostip ->
     last_of target_of rr alt = Some host ->
     last_of address_of rr alt = None ->
     ptrs !! a = Some alt -> ParseIP a = Some addr ->
     (forall a' addr', ptrs !! a' = Some alt -> ParseIP a' = Some addr' -> addr' = addr) ->
     exists l d,
       Service.List s zones reverse st = ((l, None), st2) /\
       d ∈ l /\ Name d = host /\ IP d = hostip /\
       alt ∈ Aliases d /\ Mapping d !! alt = Some addr) /\
  (forall (zones reverse : list string) (st : Net) (d d' : Device),
     d ∈ (Service.List s zones reverse st).1.1 ->
     d' ∈ (Service.List s zones reverse st).1.1 ->
     Name d' ∉ Aliases d).
Proof.
  split; [|split].
  - intros ha hc hp hostip addr zone rzone fwd rev st st1 st2
      Hne Hrev Hfwd Hrevf Hfwdf Hparse.
    rewrite List_unfold, reverse_lookups_step, recover_entries_step.
    rewrite foldM_cons, transfer_step_unfold, Hrev. cbv beta iota.
    change (foldM _ [] ?acc st1) with (@inr error _ acc, st1). cbv beta iota.
    rewrite foldM_cons, transfer_step_unfold, Hfwd. cbv beta iota.
    change (foldM _ [] ?acc st2) with (@inr error _ acc, st2). cbv beta iota.
    do 2 f_equal. f_equal.
    rewrite app_nil_l.
    rewrite (fold_left_significant _ rev), Hrevf by apply collect_ptr_other.
    rewrite correlate_significant.
    apply (correlate_host_alias ha hc hostip addr); assumption.
  - intros zones reverse st st1 st2 ptrs rr host alt a hostip addr
      Hrev Hfwd Hhost Halt Hnone Hptr Hparse Honly.
    exists (Service.correlate ptrs rr), (assembled ptrs rr host hostip).
    split; [now rewrite List_unfold, Hrev, Hfwd|].
    split.
    { apply correlate_elem_of.
      now rewrite assembled_Name, correlated_assembled, Hhost. }
    split; [apply assembled_Name|]. split; [apply assembled_IP|].
    split; [now apply assembled_alias_members|].
    destruct (assembled_mapping_entries ptrs rr host hostip alt) as [Hsome Hfrom].
    destruct (proj2 Hsome) as [ip Hip].
    { split; [exact Halt|]. exists a. split; [exact Hptr | now exists addr]. }
    destruct (Hfrom ip Hip) as (a' & Ha' & Hparse').
    now rewrite Hip, (Honly a' ip Ha' Hparse').
  - intros zones reverse st d d'. rewrite List_unfold.
    destruct (Service.reverse_lookups s reverse st) as [[err|ptrs] st1];
      [intros Hd; inversion Hd|].
    destruct (Service.recover_entries s zones st1) as [[err|rr] st2];
      [intros Hd; inversion Hd|].
    simpl. rewrite correlate_sorted_devices.
    pose proof (correlated_well_keyed ptrs rr) as Hwk.
    destruct (sorted_devices_names _ Hwk) as [_ Hin].
    intros Hd%Hin Hd'%Hin Halias.
    destruct (Hwk _ _ Hd) as [_ Hnone].
    specialize (Hnone _ Halias). congruence.
Qed.

End correlation_of_a_host.

(** ** The further theorems at the examples *)

Lemma site_ptrs_entries :
  site_ptrs = {["10.0.0.1" := "host.zone."; "10.0.0.2" := "alt.zone."]}.
Proof. vm_compute. reflexivity. Qed.

Lemma List_correlates_witness :
  Service.List (nw := table_server alias_first_zones) (rt := dotted_runtime) a_service
    ["zone."] ["168.192.in-addr.arpa."] (idle alias_first_zones)
  = (([{| Name := "host.zone."; IP := [x0a; x00; x00; x01]; Reverse := [];
           Mapping := {["alt.zone." := net.IPv4 xc0 xa8 x01 x05]};
           Aliases := ["alt.zone."];
           Place := ""; Model := ""; Code := "";
           Latitude := 0%float; Longitude := 0%float; Height := 0%float |}],
      None), idle alias_first_zones) /\
  exists l d,
    Service.List (nw := table_server site_zones) (rt := dotted_runtime) a_service
      ["zone."] ["10.in-addr.arpa."] (idle site_zones)
    = ((l, None), idle site_zones) /\
    d ∈ l /\ Name d = "host.zone." /\ IP d = [x0a; x00; x00; x01] /\
    "alt.zone." ∈ Aliases d /\
    Mapping d !! "alt.zone." = Some (net.IPv4 x0a x00 x00 x02).
Proof.
  split.
  - apply (proj1 (List_correlates (nw := table_server alias_first_zones)
                    (rt := dotted_runtime) a_service)
             (header "host.zone." dns.TypeA) (header "alt.zone." dns.TypeCNAME)
             (header "5.1.168.192.in-addr.arpa." dns.TypePTR)
             [x0a; x00; x00; x01] (net.IPv4 xc0 xa8 x01 x05)
             "zone." "168.192.in-addr.arpa."
             (default [] (alias_first_zones.*2 !! 0%nat))
             (default [] (alias_first_zones.*2 !! 1%nat))
             (idle alias_first_zones) (idle alias_first_zones) (idle alias_first_zones)).
    + discriminate.
    + reflexivity.
    + reflexivity.
    + reflexivity.
    + apply perm_swap.
    + vm_compute. reflexivity.
  - apply (proj1 (proj2 (List_correlates (nw := table_server site_zones)
                           (rt := dotted_runtime) a_service))
             ["zone."] ["10.in-addr.arpa."]
             (idle site_zones) (idle site_zones) (idle site_zones)
             site_ptrs site_forward "host.zone." "alt.zone." "10.0.0.2"
             [x0a; x00; x00; x01] (net.IPv4 x0a x00 x00 x02)).
    + vm_compute. reflexivity.
    + vm_compute. reflexivity.
    + vm_compute. reflexivity.
    + vm_compute. reflexivity.
    + vm_compute. reflexivity.
    + vm_compute. reflexivity.
    + vm_compute. reflexivity.
    + intros a' addr'. rewrite site_ptrs_entries.
      destruct (decide (a' = "10.0.0.2")) as [->|Hne2].
      * intros _ [= <-]. reflexivity.
      * destruct (decide (a' = "10.0.0.1")) as [->|Hne1].
        -- rewrite lookup_insert_eq. discriminate.
        -- rewrite lookup_insert_ne, lookup_singleton_ne by congruence. discriminate.
Defined.

Lemma list_queries_keep_order_witness :
  Forall (fun l => StronglySorted string_le (Name <$> l) /\ NoDup (Name <$> l))
    [ListByModel {| List := [named "a.zone." []; named "b.zone." []] |} "";
     ListByCode {| List := [named "a.zone." []; named "b.zone." []] |} "";
     ListByPlace {| List := [named "a.zone." []; named "b.zone." []] |} "here";
     ListByModelAndCode {| List := [named "a.zone." []; named "b.zone." []] |} "" "";
     ListByNetwork {| List := [named "a.zone." []; named "b.zone." []] |}
       {| ipnet.IP := [x0a; x00; x00; x00]; ipnet.Mask := [xff; x00; x00; x00] |}].
Proof.
  apply (proj2 (list_queries_keep_order
                  {| List := [named "a.zone." []; named "b.zone." []] |} "" "" "here"
                  {| ipnet.IP := [x0a; x00; x00; x00];
                     ipnet.Mask := [xff; x00; x00; x00] |})).
  - repeat constructor.
  - apply (bool_decide_unpack _). vm_compute. exact I.
Defined.

Lemma queries_fold_case_witness :
  ListByCode {| List := [named "a.zone." []] |} "wel"
  = ListByCode {| List := [named "a.zone." []] |} "WEL" /\
  ListByPlace {| List := [named "a.zone." []] |} "wel"
  = ListByPlace {| List := [named "a.zone." []] |} "WEL" /\
  HasName (named "a.zone." []) "wel" = HasName (named "a.zone." []) "WEL".
Proof.
  apply (queries_fold_case {| List := [named "a.zone." []] |} (named "a.zone." [])
           "wel" "WEL").
  apply (cv_swap "w" "el" "EL"), (cv_swap "e" "l" "L"), (cv_swap "l" "" "").
  apply cv_empty.
Defined.

Lemma Update_compares_lists_only_witness :
  Service.Update (nw := table_server []) (rt := dotted_runtime) a_service "zone." 300
    (named "old.zone." ["x.zone."; "y.zone."])
    (set_Place (named "new.zone." ["y.zone."; "x.zone."; "x.zone."]) "Main Street")
    (idle [])
  = (inr (), idle []).
Proof.
  apply (Update_compares_lists_only (nw := table_server []) (rt := dotted_runtime)
           a_service "zone." 300
           (named "old.zone." ["x.zone."; "y.zone."])
           (set_Place (named "new.zone." ["y.zone."; "x.zone."; "x.zone."]) "Main Street")
           (idle [])).
  - reflexivity.
  - intros a. simpl. rewrite !elem_of_cons, !elem_of_nil. tauto.
  - reflexivity.
Defined.

Lemma Update_error_is_exchange_error_witness :
  Service.Update (nw := insert_refusing_server) (rt := dotted_runtime) a_service
    "zone." 300 before after untouched
  = (inl "insert refused",
     {| world := world untouched;
        sent := [remove_reverse "zone." before [x0a; x00; x00; x01];
                 {| rq_zone := "10.in-addr.arpa."; rq_kind := KRemoveRRset;
                    rq_rr := [Service.ptr_record "2.0.0.10.in-addr.arpa." 0 ""] |};
                 insert_reverse "zone." 300 after [x0a; x00; x00; x02]] |}).
Proof.
  apply (proj1 (proj2 (Update_error_is_exchange_error (nw := insert_refusing_server)
                         (rt := dotted_runtime) a_service "zone." 300 before after))
           untouched
           {| world := world untouched;
              sent := [remove_reverse "zone." before [x0a; x00; x00; x01];
                       {| rq_zone := "10.in-addr.arpa."; rq_kind := KRemoveRRset;
                          rq_rr := [Service.ptr_record "2.0.0.10.in-addr.arpa." 0 ""] |}] |}
           _
           [remove_reverse "zone." before [x0a; x00; x00; x01];
            {| rq_zone := "10.in-addr.arpa."; rq_kind := KRemoveRRset;
               rq_rr := [Service.ptr_record "2.0.0.10.in-addr.arpa." 0 ""] |}]
           (drop 3 (Update_plan (rt := dotted_runtime) "zone." 300 before after))
           (insert_reverse "zone." 300 after [x0a; x00; x00; x02])).
  - vm_compute. reflexivity.
  - vm_compute. reflexivity.
  - vm_compute. reflexivity.
Defined.

Lemma Update_sends_every_difference_witness :
  remove_reverse "zone." before [x0a; x00; x00; x01]
  ∈ sent (Service.Update (nw := table_server []) (rt := dotted_runtime) a_service
            "zone." 300 before after (idle [])).2 /\
  insert_alias "zone." before "new.zone."
  ∈ sent (Service.Update (nw := table_server []) (rt := dotted_runtime) a_service
            "zone." 300 before after (idle [])).2.
Proof.
  destruct (Update_sends_every_difference (nw := table_server []) (rt := dotted_runtime)
              a_service "zone." 300 before after (idle [])
              (Service.Update (nw := table_server []) (rt := dotted_runtime) a_service
                 "zone." 300 before after (idle [])).2
              ltac:(vm_compute; reflexivity))
    as (Hrev & _ & _ & Hali & _ & _).
  split.
  - apply Hrev.
    + apply list_elem_of_here.
    + vm_compute. reflexivity.
    + vm_compute. discriminate.
  - apply Hali.
    + apply list_elem_of_here.
    + vm_compute. reflexivity.
Defined.

Lemma correlate_aliases_witness :
  NoDup (Aliases site_device) /\
  forall c, c ∈ Aliases site_device <->
            last_of target_of site_forward c = Some (Name site_device) /\
            last_of address_of site_forward c = None.
Proof.
  apply (correlate_aliases (rt := dotted_runtime) site_ptrs site_forward site_device).
  vm_compute. apply list_elem_of_here.
Defined.

Lemma correlate_reverse_witness :
  net.IPv4 x0a x00 x00 x01 ∈ Reverse site_device <->
  exists a, site_ptrs !! a = Some (Name site_device) /\
            parse.parseIPv4 a = Some (net.IPv4 x0a x00 x00 x01).
Proof.
  apply (correlate_reverse (rt := dotted_runtime) site_ptrs site_forward site_device).
  vm_compute. apply list_elem_of_here.
Defined.

Lemma correlate_mapping_witness :
  (is_Some (Mapping site_device !! "alt.zone.") <->
     last_of target_of site_forward "alt.zone." = Some (Name site_device) /\
     exists a, site_ptrs !! a = Some "alt.zone." /\ is_Some (parse.parseIPv4 a)) /\
  (forall ip, Mapping site_device !! "alt.zone." = Some ip ->
     exists a, site_ptrs !! a = Some "alt.zone." /\ parse.parseIPv4 a = Some ip).
Proof.
  apply (correlate_mapping (rt := dotted_runtime) site_ptrs site_forward site_device).
  vm_compute. apply list_elem_of_here.
Defined.

Lemma correlate_details_witness :
  Place site_device = default "" (last_of place_of site_forward (Name site_device)) /\
  (Model site_device, Code site_device)
  = default ("", "") (last_of model_code_of site_forward (Name site_device)) /\
  (Latitude site_device, Longitude site_device, Height site_device)
  = default (0, 0, 0)%float (last_of location_of site_forward (Name site_device)).
Proof.
  apply (correlate_details (rt := dotted_runtime) site_ptrs site_forward site_device).
  vm_compute. apply list_elem_of_here.
Defined.

Lemma reverse_name_round_trip_witness :
  ptr_address (reverseAddress [xc0; xa8; x01; x05])
    (findPrivateZone [xc0; xa8; x01; x05] "zone.")
  = net.String [xc0; xa8; x01; x05].
Proof.
  apply (reverse_name_round_trip [xc0; xa8; x01; x05] "zone.").
  vm_compute. discriminate.
Defined.

Lemma List_iteration_order_witness :
  Name <$> Service.correlate (rt := dotted_runtime) site_ptrs site_forward
  = Name <$> Service.correlate (rt := reversed_runtime) site_ptrs site_forward /\
  forall d1 d2,
    d1 ∈ Service.correlate (rt := dotted_runtime) site_ptrs site_forward ->
    d2 ∈ Service.correlate (rt := reversed_runtime) site_ptrs site_forward ->
    Name d1 = Name d2 ->
    IP d1 = IP d2 /\
    Aliases d1 ≡ₚ Aliases d2 /\
    Reverse d1 ≡ₚ Reverse d2 /\
    dom (Mapping d1) = dom (Mapping d2) /\
    Place d1 = Place d2 /\ Model d1 = Model d2 /\ Code d1 = Code d2 /\
    Latitude d1 = Latitude d2 /\ Longitude d1 = Longitude d2 /\
    Height d1 = Height d2.
Proof.
  apply (proj1 List_iteration_order dotted_runtime reversed_runtime
           site_ptrs site_forward).
  reflexivity.
Defined.
